(** * The conditional GAN trainer of [src/model/cGAN.py]

    A shallow embedding of the class [CGAN] (its constructor and its [train]
    method) and the properties of the training loop: the curriculum cursor,
    the degenerate-batch skip, the label targets, the loss-threshold gates,
    the checkpoints and the periodic visualisation.

    Conventions of the embedding.
    - Python integers are [Z]; [%], [//], list indexing and dictionary
      lookup raise as in Python ([ZeroDivisionError], [IndexError],
      [KeyError]).
    - Tensor scalars (losses, labels, discriminator scores) are rationals
      [Q]: the float arithmetic of the source is read as exact arithmetic
      ([0.75] is [3/4]).  Shape errors raised inside tensor libraries are
      outside the model.
    - The networks, the loss functions, the optimizers, the dataset, its
      loader, the condition encoder and the image helpers are collaborators
      whose code is not part of the trainer: they are the fields of the
      class [Collaborators].  The constants that [cGAN.py] takes from
      [global_vars] are the fields of [GlobalVars].
    - The calls by which the trainer drives its collaborators (mode
      switches, [zero_grad], forward passes with the mode they run in,
      [backward], optimizer steps, saves, additions to the dataset, records
      of the monitoring sink) are recorded, in program order, in the [calls]
      field of the state; the monitoring sink ([self._writer]) is the
      sub-sequence of its [add_scalar], [add_image] and [add_figure]
      records.
    - [torch.jit.trace] (lines 77-80) yields modules that share the
      parameters of [self._G] and [self._D] and keep the behaviour of the
      mode these were in when traced: the forward passes of the batches
      and of the fixed grid run in that mode, whatever [train()] and
      [eval()] did since; [generate] (line 198) and [torch.save] read the
      module itself, with the flag it has.
    - Reading the CUDA runtime raises when there is no device: line 57 is
      the first such reading of [train], and a runtime that answered there
      answers at line 157 as well; [print] and the GPU-memory high-water
      mark of line 157 have no other effect and are left out.
    - [torch.save] raises [RuntimeError] when the path cannot be opened
      for writing. *)

From stdpp Require Import gmap strings.
From Stdlib Require Import ZArith QArith Lia DecimalString Ascii.
Import ListNotations.

Local Open Scope string_scope.
Local Open Scope Z_scope.

(** ** Python values and exceptions *)

Inductive exn : Set :=
| KeyError | IndexError | ZeroDivisionError
| RuntimeError | AssertionError.

Inductive result (A : Type) : Type :=
| Ok (a : A)
| Raise (e : exn).
Arguments Ok {A} a.
Arguments Raise {A} e.

Definition bind {A B} (m : result A) (k : A -> result B) : result B :=
  match m with
  | Ok a => k a
  | Raise e => Raise e
  end.

Notation "'let*' x ':=' m 'in' k" := (bind m (fun x => k))
  (at level 10, x name, m at level 100, k at level 200).

(** [a % b]: the sign of a non-zero result is that of [b], as [Z.modulo]. *)
Definition py_mod (a b : Z) : result Z :=
  if b =? 0 then Raise ZeroDivisionError else Ok (a mod b).

(** [a // b]: the floor of the quotient, as [Z.div]. *)
Definition py_floordiv (a b : Z) : result Z :=
  if b =? 0 then Raise ZeroDivisionError else Ok (a / b).

(** [l[i]] for a Python list: negative indices count from the end. *)
Definition py_index {A} (l : list A) (i : Z) : result A :=
  let n := Z.of_nat (List.length l) in
  let j := if i <? 0 then i + n else i in
  if (0 <=? j) && (j <? n)
  then match nth_error l (Z.to_nat j) with
       | Some a => Ok a
       | None => Raise IndexError
       end
  else Raise IndexError.

(** A slice bound, clamped to the list as Python does. *)
Definition py_bound {A} (l : list A) (i : Z) : nat :=
  let n := Z.of_nat (List.length l) in
  Z.to_nat (if i <? 0 then Z.max 0 (i + n) else Z.min i n).

(** [l[:i]] and [l[i:]]. *)
Definition py_take {A} (i : Z) (l : list A) : list A := firstn (py_bound l i) l.
Definition py_drop {A} (i : Z) (l : list A) : list A := skipn (py_bound l i) l.

(** A [dict] with its insertion order ([keys()] and [items()] iterate in
    it): an association list. *)
Definition dict := list (string * Z).

Definition keys (d : dict) : list string := map fst d.

Fixpoint dict_get (d : dict) (k : string) : result Z :=
  match d with
  | [] => Raise KeyError
  | (k', v) :: d' => if String.eqb k k' then Ok v else dict_get d' k
  end.

(** [str(i)] and ["%d" % i] for a non-negative integer. *)
Definition str_of_nat (n : nat) : string := NilEmpty.string_of_uint (Nat.to_uint n).

(** ** numpy's random generator

    The generator is an entropy source read one number at a time. *)

#[projections(primitive)]
Record Rng : Type := mkRng { source : nat -> nat; position : nat }.

Definition draw (r : Rng) : nat * Rng :=
  (source r (position r), mkRng (source r) (S (position r))).

(** [numpy.random.choice(l)] for a non-empty [l]: a position of [l],
    determined by the entropy read. *)
Definition choice {A} (d : A) (l : list A) (r : Rng) : A * Rng :=
  let (k, r') := draw r in
  (nth (k mod List.length l)%nat l d, r').

(** ** Tensors tracked by autograd

    A tensor produced by a network remembers whether its computation graph
    reaches the parameters of the generator and of the discriminator;
    [backward] accumulates a gradient exactly in the parameter sets that the
    graph of the loss reaches. *)

#[projections(primitive)]
Record tracked (A : Type) : Type := Tracked {
  val : A;
  via_G : bool;
  via_D : bool
}.
Arguments Tracked {A} val via_G via_D.
Arguments val {A} t.
Arguments via_G {A} t.
Arguments via_D {A} t.

(** A tensor that requires no gradient: data, labels, noise. *)
Definition leaf {A} (a : A) : tracked A := Tracked a false false.

(** [t.detach()] *)
Definition detach {A} (t : tracked A) : tracked A := leaf (val t).

(** An [nn.Module]: its parameters, the gradients accumulated since the
    last [zero_grad], and its train/eval flag. *)
#[projections(primitive)]
Record module (P Gr : Type) : Type := Module {
  params : P;
  grads : list Gr;
  training : bool
}.
Arguments Module {P Gr} params grads training.
Arguments params {P Gr} m.
Arguments grads {P Gr} m.
Arguments training {P Gr} m.

Definition set_mode {P Gr} (b : bool) (m : module P Gr) : module P Gr :=
  Module (params m) (grads m) b.

Definition zero_grad {P Gr} (m : module P Gr) : module P Gr :=
  Module (params m) [] (training m).

Definition accumulate {P Gr} (g : Gr) (m : module P Gr) : module P Gr :=
  Module (params m) (g :: grads m) (training m).

Definition set_params {P Gr} (p : P) (m : module P Gr) : module P Gr :=
  Module p (grads m) (training m).

(** ** Scalars *)

Definition mean (l : list Q) : Q :=
  (fold_right Qplus 0 l / inject_Z (Z.of_nat (List.length l)))%Q.

(** [a > b] on scalars. *)
Definition Qgtb (a b : Q) : bool := negb (Qle_bool a b).

(** The two networks. *)
Inductive side : Set := Generator | Discriminator.

(** ** The collaborators of the trainer *)

(** A condition matrix, one row per example. *)
Definition cond := list (list Q).

(** What [componentsGAN], [condition_encoding], [image_utils],
    [data_management], torch and numpy provide.  Gradients are opaque
    values: [dG s ...] and [dD s ...] are the gradients of the loss of
    side [s] with respect to the generator's and the discriminator's
    parameters, for the given parameters, modes of the traces, real images,
    condition, noise and real-label coefficient. *)
Class Collaborators : Type := {
  Image : Type;
  Latent : Type;
  Figure : Type;
  GParams : Type;
  GGrad : Type;
  DParams : Type;
  DGrad : Type;
  GOpt : Type;
  DOpt : Type;
  Dataset : Type;
  Loader : Type;
  (* the traced networks: a traced module shares the parameters of the
     module it was traced from, and keeps the behaviour of the mode that
     module had when it was traced (the flag is that mode) *)
  G_traced : GParams -> bool -> Latent -> cond -> list Image;
  D_traced : DParams -> bool -> list Image -> cond -> list Q;
  dG : side -> GParams -> bool -> DParams -> bool ->
       list Image -> cond -> Latent -> Q -> GGrad;
  dD : side -> GParams -> bool -> DParams -> bool ->
       list Image -> cond -> Latent -> Q -> DGrad;
  (* self._G_loss, self._D_loss: output, target *)
  G_loss_fn : list Q -> list Q -> Q;
  D_loss_fn : list Q -> list Q -> Q;
  (* Optimizer.step on the parameters the optimizer owns *)
  G_optim_step : GOpt -> GParams -> list GGrad -> GOpt * GParams;
  D_optim_step : DOpt -> DParams -> list DGrad -> DOpt * DParams;
  (* CharacterDataset and its DataLoader; labels are three columns
     (previous, current, next) *)
  add_character_to_training : Dataset -> string -> Dataset;
  iterate : Loader -> Dataset ->
            list (list Image * list (list string) * list Q) * Loader;
  character_to_one_hot : list (list string) -> cond;
  (* numpy.random.randn, from the entropy read *)
  gaussian : nat -> Z -> Z -> Latent;
  (* image_utils and the TensorBoard transform *)
  generate : GParams -> bool -> string * string * string -> Z -> Rng -> Image * Rng;
  produce_figure : Image -> string -> Figure;
  (* Compose([ToPILImage(), Resize((final_image_height, IMAGE_WIDTH)),
     ToTensor()]), for the height that line 60 computes *)
  finalizing_transform : Image -> Image;
  (* torch.cuda.memory_allocated(torch.cuda.current_device()): the bytes
     in use, or what the runtime raises when it has no CUDA device *)
  cuda_memory_allocated : result Q;
  (* torch.save: can the path be opened for writing?  (it cannot when its
     directory is missing) *)
  writable : string -> bool
}.

(** The names that [cGAN.py] imports from [global_vars]. *)
Class GlobalVars : Type := {
  character_to_index_mapping : dict;
  NUM_CHARS : Z;
  NOISE_LENGTH : Z;
  add_character_every : Z;
  save_every : Z;
  produce_every : Z;
  num_characters_to_generate : Z;
  D_loss_threshold : Q;
  G_loss_threshold : Q;
  rectangle_shape : Z * Z;
  SUP_REMOVE_WIDTH : Z;
  INF_REMOVE_WIDTH : Z;
  IMAGE_WIDTH : Z
}.

Section Trainer.
Context {C : Collaborators} {V : GlobalVars}.

(** One element of the loader: [(X, labels, style)]. *)
Definition batch : Type := list Image * list (list string) * list Q.

(** What [torch.save] writes for a module. *)
Inductive artifact : Type :=
| pickled_G (p : GParams) (mode : bool)
| pickled_D (p : DParams) (mode : bool).

(** The recorded calls. *)
Inductive call : Type :=
| add_scalar (tag : string) (v : Q) (step : Z)
| add_image (tag : string) (img : Image) (global_step : Z)
| add_figure (tag : string) (fig : Figure) (global_step : Z)
| set_train (s : side)
| set_eval (s : side)
| jit_trace (s : side)
| optim_zero_grad (s : side)
| forward (s : side) (in_training_mode : bool)
| call_generate (in_training_mode : bool) (character_conditioning : string * string * string) (style : Z)
| loss_backward (s : side)
| optim_step (s : side)
| torch_save (path : string)
| add_character (c : string).

(** Is the call a record of the monitoring sink? *)
Definition is_sink (c : call) : bool :=
  match c with
  | add_scalar _ _ _ | add_image _ _ _ | add_figure _ _ _ => true
  | _ => false
  end.

(** The object [self] and the world around it. *)
#[projections(primitive)]
Record state : Type := State {
  _G : module GParams GGrad;
  _D : module DParams DGrad;
  _G_optim : GOpt;
  _D_optim : DOpt;
  _dataset_loader : Loader;
  _dataset : Dataset;
  _current_datetime : string;
  numpy_random : Rng;
  files : gmap string artifact;
  calls : list call
}.

Definition with_G (m : module GParams GGrad) (w : state) : state :=
  State m (_D w) (_G_optim w) (_D_optim w) (_dataset_loader w) (_dataset w)
        (_current_datetime w) (numpy_random w) (files w) (calls w).
Definition with_D (m : module DParams DGrad) (w : state) : state :=
  State (_G w) m (_G_optim w) (_D_optim w) (_dataset_loader w) (_dataset w)
        (_current_datetime w) (numpy_random w) (files w) (calls w).
Definition with_G_optim (o : GOpt) (w : state) : state :=
  State (_G w) (_D w) o (_D_optim w) (_dataset_loader w) (_dataset w)
        (_current_datetime w) (numpy_random w) (files w) (calls w).
Definition with_D_optim (o : DOpt) (w : state) : state :=
  State (_G w) (_D w) (_G_optim w) o (_dataset_loader w) (_dataset w)
        (_current_datetime w) (numpy_random w) (files w) (calls w).
Definition with_loader (l : Loader) (w : state) : state :=
  State (_G w) (_D w) (_G_optim w) (_D_optim w) l (_dataset w)
        (_current_datetime w) (numpy_random w) (files w) (calls w).
Definition with_dataset (d : Dataset) (w : state) : state :=
  State (_G w) (_D w) (_G_optim w) (_D_optim w) (_dataset_loader w) d
        (_current_datetime w) (numpy_random w) (files w) (calls w).
Definition with_random (r : Rng) (w : state) : state :=
  State (_G w) (_D w) (_G_optim w) (_D_optim w) (_dataset_loader w) (_dataset w)
        (_current_datetime w) r (files w) (calls w).
Definition with_files (f : gmap string artifact) (w : state) : state :=
  State (_G w) (_D w) (_G_optim w) (_D_optim w) (_dataset_loader w) (_dataset w)
        (_current_datetime w) (numpy_random w) f (calls w).

(** Record a call. *)
Definition log (c : call) (w : state) : state :=
  State (_G w) (_D w) (_G_optim w) (_D_optim w) (_dataset_loader w) (_dataset w)
        (_current_datetime w) (numpy_random w) (files w) (calls w ++ [c]).

(** The monitoring sink: what [self._writer] received, in order. *)
Definition _writer (w : state) : list call := List.filter is_sink (calls w).

(** ** [CGAN.__init__] (lines 28-51)

    [now] is the clock reading that [datetime.datetime.now()] would
    return; an absent or empty [current_datetime] is false in Python. *)
Definition init (G : module GParams GGrad) (D : module DParams DGrad)
    (G_optim : GOpt) (D_optim : DOpt)
    (dataset_loader : Loader) (dataset : Dataset)
    (current_datetime : option string)
    (now : string) (random : Rng) (disk : gmap string artifact) : state :=
  State G D G_optim D_optim dataset_loader dataset
        (match current_datetime with
         | Some s => if String.eqb s "" then now else s
         | None => now
         end)
        random disk [].

(** ** The loop body of [CGAN.train] for one batch (lines 95-165) *)

(** [torch.from_numpy(randn(rows, cols))] *)
Definition randn (rows cols : Z) (w : state) : Latent * state :=
  let (k, r) := draw (numpy_random w) in
  (gaussian k rows cols, with_random r w).

(** [concatenate([char_conditioning, style.unsqueeze(-1)], axis=1)] *)
Definition cat_cols (m : cond) (style : list Q) : cond :=
  map (fun rs : list Q * Q => (fst rs ++ [snd rs])%list) (combine m style).

(** Lines 77-80: what [torch.jit.trace] leaves in the locals [G_traced]
    and [D_traced].  A traced module runs the graph recorded at the trace:
    it reads the parameters of [self._G] (of [self._D]) as they are when it
    is called, and behaves as in the mode the module had when it was
    traced; [train()] and [eval()] on the module do not reach it. *)
#[projections(primitive)]
Record traced : Type := Traced {
  G_traced_mode : bool;
  D_traced_mode : bool
}.

(** [G_traced(z, c)] and [D_traced(x, c)] on the current parameters. *)
Definition G_call (t : traced) (w : state) (z : Latent) (c : cond)
    : tracked (list Image) :=
  Tracked (G_traced (params (_G w)) (G_traced_mode t) z c) true false.

Definition D_call (t : traced) (w : state) (x : tracked (list Image))
    (c : cond) : tracked (list Q) :=
  Tracked (D_traced (params (_D w)) (D_traced_mode t) (val x) c) (via_G x) true.

(** A loss module applied to an output and a target. *)
Definition criterion (f : list Q -> list Q -> Q) (out : tracked (list Q))
    (target : list Q) : tracked Q :=
  Tracked (f (val out) target) (via_G out) (via_D out).

(** [(a + b) / 2] on loss tensors. *)
Definition average (a b : tracked Q) : tracked Q :=
  Tracked ((val a + val b) / 2)%Q (via_G a || via_G b) (via_D a || via_D b).

(** [loss.backward()]: gradients accumulate where the graph reaches. *)
Definition backward (s : side) (loss : tracked Q) (gG : GGrad) (gD : DGrad)
    (w : state) : state :=
  let w := if via_G loss then with_G (accumulate gG (_G w)) w else w in
  let w := if via_D loss then with_D (accumulate gD (_D w)) w else w in
  log (loss_backward s) w.

(** [self._D_optim.step(None)] and [self._G_optim.step(None)] *)
Definition D_step (w : state) : state :=
  let (o, p) := D_optim_step (_D_optim w) (params (_D w)) (grads (_D w)) in
  log (optim_step Discriminator) (with_D_optim o (with_D (set_params p (_D w)) w)).

Definition G_step (w : state) : state :=
  let (o, p) := G_optim_step (_G_optim w) (params (_G w)) (grads (_G w)) in
  log (optim_step Generator) (with_G_optim o (with_G (set_params p (_G w)) w)).

(** Lines 103-108: the label tensors. *)
Definition zero_label (n : nat) : list Q := repeat 0%Q n.
Definition one_label (n : nat) : list Q := repeat 1%Q n.
Definition one_label_coefficient (use_soft_labels : bool) : Q :=
  if use_soft_labels then 0.75%Q else 1%Q.

(** [one_label_coefficient*one_label], the target of [D_loss_real]. *)
Definition real_target (use_soft_labels : bool) (n : nat) : list Q :=
  map (Qmult (one_label_coefficient use_soft_labels)) (one_label n).

(** Lines 110-114: the condition of the batch. *)
Definition batch_condition (b : batch) : cond :=
  let '(_, labels, style) := b in
  cat_cols (character_to_one_hot labels) style.

(** Lines 123-129: the discriminator's forward pass and its losses. *)
#[projections(primitive)]
Record D_pass : Type := DPass {
  G_sample : tracked (list Image);
  D_real : tracked (list Q);
  D_fake : tracked (list Q);
  D_loss_real : tracked Q;
  D_loss_fake : tracked Q;
  D_loss : tracked Q
}.

Definition discriminator_pass (t : traced) (use_soft_labels : bool)
    (w : state) (X : list Image) (c : cond) (z : Latent) : D_pass :=
  let n := List.length X in
  let G_sample := G_call t w z c in
  let D_real := D_call t w (leaf X) c in
  let D_fake := D_call t w (detach G_sample) c in
  let D_loss_real := criterion D_loss_fn D_real (real_target use_soft_labels n) in
  let D_loss_fake := criterion D_loss_fn D_fake (zero_label n) in
  DPass G_sample D_real D_fake D_loss_real D_loss_fake
        (average D_loss_real D_loss_fake).

(** Lines 147-149: the generator's forward pass and its loss. *)
Definition generator_loss (t : traced) (w : state) (X : list Image) (c : cond)
    (z : Latent) : tracked Q :=
  let G_sample := G_call t w z c in
  let D_fake := D_call t w G_sample c in
  criterion G_loss_fn D_fake (one_label (List.length X)).

(** Lines 116-139: the discriminator half-step. *)
Definition discriminator_half_step (t : traced) (use_soft_labels : bool)
    (X : list Image) (c : cond) (step : Z) (w : state) : state :=
  let w := log (optim_zero_grad Discriminator) (with_D (zero_grad (_D w)) w) in
  let (z, w) := randn (Z.of_nat (List.length X)) NOISE_LENGTH w in
  let p := discriminator_pass t use_soft_labels w X c z in
  let w := log (forward Generator (G_traced_mode t)) w in
  let w := log (forward Discriminator (D_traced_mode t)) w in
  let w := log (forward Discriminator (D_traced_mode t)) w in
  let w :=
    if Qgtb (val (D_loss p)) D_loss_threshold
    then D_step
           (backward Discriminator (D_loss p)
              (dG Discriminator (params (_G w)) (G_traced_mode t)
                  (params (_D w)) (D_traced_mode t) X c z
                  (one_label_coefficient use_soft_labels))
              (dD Discriminator (params (_G w)) (G_traced_mode t)
                  (params (_D w)) (D_traced_mode t) X c z
                  (one_label_coefficient use_soft_labels))
              w)
    else w in
  let w := log (add_scalar "Loss/Discriminator" (val (D_loss p)) step) w in
  let w := log (add_scalar "Discriminator response/to real images (average)"
                  (mean (val (D_real p))) step) w in
  log (add_scalar "Discriminator response/to fake images (average)"
         (mean (val (D_fake p))) step) w.

(** Lines 141-154: the generator half-step. *)
Definition generator_half_step (t : traced) (X : list Image) (c : cond)
    (step : Z) (w : state) : state :=
  let w := log (optim_zero_grad Generator) (with_G (zero_grad (_G w)) w) in
  let (z, w) := randn (Z.of_nat (List.length X)) NOISE_LENGTH w in
  let G_loss := generator_loss t w X c z in
  let w := log (forward Generator (G_traced_mode t)) w in
  let w := log (forward Discriminator (D_traced_mode t)) w in
  let w :=
    if Qgtb (val G_loss) G_loss_threshold
    then G_step
           (backward Generator G_loss
              (dG Generator (params (_G w)) (G_traced_mode t)
                  (params (_D w)) (D_traced_mode t) X c z 1%Q)
              (dD Generator (params (_G w)) (G_traced_mode t)
                  (params (_D w)) (D_traced_mode t) X c z 1%Q)
              w)
    else w in
  log (add_scalar "Loss/Generator" (val G_loss) step) w.

(** Lines 95-165.  A batch of one example is skipped ([continue]); any
    other batch advances [step] and runs the two half-steps. *)
Definition train_batch (t : traced) (use_soft_labels : bool) (b : batch)
    (ws : state * Z) : state * Z :=
  let '(w, step) := ws in
  let '(X, _, _) := b in
  if Nat.eqb (List.length X) 1 then (w, step)
  else
    let step := step + 1 in
    let c := batch_condition b in
    let w := discriminator_half_step t use_soft_labels X c step w in
    let w := generator_half_step t X c step w in
    (w, step).

(** ** The local variables of [CGAN.train] that live across epochs *)

#[projections(primitive)]
Record locals : Type := Locals {
  current_char_index : Z;
  step : Z;
  letters_to_watch : list string;
  fixed_latent_points : Latent;
  fixed_conditioning_inputs : cond;
  jit : traced   (* G_traced and D_traced *)
}.

Definition with_step (n : Z) (l : locals) : locals :=
  Locals (current_char_index l) n (letters_to_watch l)
         (fixed_latent_points l) (fixed_conditioning_inputs l) (jit l).

Definition with_cursor (i : Z) (l : locals) : locals :=
  Locals i (step l) (letters_to_watch l)
         (fixed_latent_points l) (fixed_conditioning_inputs l) (jit l).

(** ** The curriculum check at the top of an epoch (lines 86-88) *)

Definition unlock (epoch : Z) (w : state) (l : locals) : result (state * locals) :=
  let* r := py_mod epoch add_character_every in
  if (r =? 0) && (current_char_index l <? NUM_CHARS)
  then
    let* ch := py_index (keys character_to_index_mapping) (current_char_index l) in
    Ok (log (add_character ch)
          (with_dataset (add_character_to_training (_dataset w) ch) w),
        with_cursor (current_char_index l + 1) l)
  else Ok (w, l).

(** ** The checkpoint (lines 171-174) *)

Definition model_path (role run : string) : string :=
  "./data/models/" ++ role ++ "_" ++ run ++ ".pt".

Definition G_path (w : state) : string := model_path "G" (_current_datetime w).
Definition D_path (w : state) : string := model_path "D" (_current_datetime w).

(** [torch.save(module, path)]: the module is pickled with the flag it
    has; the call raises when the path cannot be opened. *)
Definition save (a : artifact) (path : string) (w : state) : result state :=
  if writable path
  then Ok (log (torch_save path) (with_files (<[path := a]> (files w)) w))
  else Raise RuntimeError.

Definition checkpoint (w : state) : result state :=
  let* w := save (pickled_G (params (_G w)) (training (_G w))) (G_path w) w in
  save (pickled_D (params (_D w)) (training (_D w))) (D_path w) w.

(** ** The visualisation (lines 179-204) *)

(** Lines 183-189: the images of the fixed latent points, the first
    [NUM_CHARS] under the suffix [_P], the others under [_G].  Line 183
    calls the traced generator. *)
Definition fixed_images (w : state) (l : locals) : list Image :=
  val (G_call (jit l) w (fixed_latent_points l) (fixed_conditioning_inputs l)).

Definition log_fixed (suffix : string) (epoch : Z) (images : list Image)
    (letters : list string) (w : state) : state :=
  fold_left
    (fun w (il : Image * string) =>
       log (add_image ("Fixed latent points/" ++ snd il ++ suffix)
              (finalizing_transform (fst il)) epoch) w)
    (combine images letters) w.

Definition fixed_grid (epoch : Z) (w : state) (l : locals) : state :=
  let images := fixed_images w l in
  let w := log (forward Generator (G_traced_mode (jit l))) w in
  let w := log_fixed "_P" epoch (py_take NUM_CHARS images) (letters_to_watch l) w in
  log_fixed "_G" epoch (py_drop NUM_CHARS images) (letters_to_watch l) w.

(** Lines 192-193: the characters a random sample is drawn from. *)
Definition random_characters_to_generate (cursor : Z) : list string :=
  (map fst (List.filter (fun kv : string * Z => snd kv <? cursor - 1)
                        character_to_index_mapping) ++ [" "])%list.

Definition str_of_Z (z : Z) : string :=
  if z <? 0 then "-" ++ str_of_nat (Z.to_nat (- z)) else str_of_nat (Z.to_nat z).

(** Lines 196-202: one random sample. *)
Definition random_sample (epoch : Z) (population : list string) (i : nat)
    (w : state) : state :=
  let (ch, r) := choice " " population (numpy_random w) in
  let character_conditioning := (" ", ch, " ") in
  let (style, r) := choice 0 [0; 1] r in
  let w := log (call_generate (training (_G w)) character_conditioning style)
               (with_random r w) in
  let (image, r) := generate (params (_G w)) (training (_G w))
                             character_conditioning style (numpy_random w) in
  let w := with_random r w in
  let image := finalizing_transform image in
  let fig := produce_figure image
               ("prev: " ++ " " ++ ", curr: " ++ ch ++ ", next: " ++ " "
                ++ ", style: " ++ str_of_Z style) in
  log (add_figure ("Random characters/" ++ str_of_nat i) fig epoch) w.

Definition random_samples (epoch : Z) (w : state) (l : locals) : state :=
  match random_characters_to_generate (current_char_index l) with
  | [] => w
  | population =>
      fold_left (fun w i => random_sample epoch population i w)
                (seq 0 (Z.to_nat num_characters_to_generate)) w
  end.

(** Line 180: [self._G.eval()] *)
Definition G_eval (w : state) : state :=
  log (set_eval Generator) (with_G (set_mode false (_G w)) w).

Definition visualize (epoch : Z) (w : state) (l : locals) : state :=
  let w := G_eval w in
  let w := fixed_grid epoch w l in
  random_samples epoch w l.

(** ** One epoch (lines 84-204) *)

Definition train_batches (t : traced) (use_soft_labels : bool)
    (batches : list batch) (ws : state * Z) : state * Z :=
  fold_left (fun ws b => train_batch t use_soft_labels b ws) batches ws.

(** Lines 90-91: both networks enter training mode. *)
Definition begin_epoch (w : state) : state :=
  let w := log (set_train Generator) (with_G (set_mode true (_G w)) w) in
  log (set_train Discriminator) (with_D (set_mode true (_D w)) w).

(** Lines 94-165: the batches the loader yields for the current dataset. *)
Definition run_batches (t : traced) (use_soft_labels : bool) (w : state)
    (n : Z) : state * Z :=
  let (batches, ld) := iterate (_dataset_loader w) (_dataset w) in
  train_batches t use_soft_labels batches (with_loader ld w, n).

(** Lines 170-204: the two cadences at the end of the epoch. *)
Definition end_epoch (epoch : Z) (w : state) (l : locals) : result state :=
  let* r := py_mod epoch save_every in
  let* w := if r =? 0 then checkpoint w else Ok w in
  let* r := py_mod epoch produce_every in
  Ok (if r =? 0 then visualize epoch w l else w).

Definition train_epoch (use_soft_labels : bool) (epoch : Z)
    (wl : state * locals) : result (state * locals) :=
  let* wl := unlock epoch (fst wl) (snd wl) in
  let w := begin_epoch (fst wl) in
  let wn := run_batches (jit (snd wl)) use_soft_labels w (step (snd wl)) in
  let l := with_step (snd wn) (snd wl) in
  let* w := end_epoch epoch (fst wn) l in
  Ok (w, l).

(** ** [CGAN.train] (lines 53-204) *)

(** Lines 64-73: the letters and the styles of the fixed grid, row by
    row: every letter under style 0, then every letter under style 1. *)
Definition current_char_conditioning (letters_to_watch : list string) : list string :=
  (letters_to_watch ++ letters_to_watch)%list.

Definition styles (n : nat) : list Q := (repeat 0%Q n ++ repeat 1%Q n)%list.

Definition fixed_conditioning (letters_to_watch : list string) : cond :=
  let n := List.length letters_to_watch in
  let zero_conditioning := repeat " " (2 * n) in
  cat_cols
    (character_to_one_hot
       [zero_conditioning; current_char_conditioning letters_to_watch;
        zero_conditioning])
    (styles n).

(** Lines 54-83: what happens before the first epoch.  Line 57 reads the
    CUDA runtime, line 60 computes the height of the images shown (the
    transform of line 61 is [finalizing_transform]), lines 77-80 trace the
    two networks in the mode each of them is in. *)
Definition prepare (next_letter_to_add : string) (w : state)
    : result (state * locals) :=
  let* current_char_index := dict_get character_to_index_mapping next_letter_to_add in
  let* memory_in_use := cuda_memory_allocated in
  let* final_image_height :=
    py_floordiv
      ((fst rectangle_shape - SUP_REMOVE_WIDTH - INF_REMOVE_WIDTH) * IMAGE_WIDTH)
      (snd rectangle_shape) in
  let letters_to_watch := keys character_to_index_mapping in
  let n := List.length letters_to_watch in
  let (fixed_latent_points, w) := randn (2 * Z.of_nat n) NOISE_LENGTH w in
  let fixed_conditioning_inputs := fixed_conditioning letters_to_watch in
  let G_traced_D_traced := Traced (training (_G w)) (training (_D w)) in
  let w := log (jit_trace Discriminator) (log (jit_trace Generator) w) in
  Ok (w, Locals current_char_index 0 letters_to_watch
               fixed_latent_points fixed_conditioning_inputs
               G_traced_D_traced).

(** [range(a, b)] *)
Definition py_range (a b : Z) : list Z :=
  map (fun i => a + Z.of_nat i) (seq 0 (Z.to_nat (b - a))).

Fixpoint epochs (use_soft_labels : bool) (es : list Z) (wl : state * locals)
    : result (state * locals) :=
  match es with
  | [] => Ok wl
  | e :: es' =>
      let* wl := train_epoch use_soft_labels e wl in
      epochs use_soft_labels es' wl
  end.

Definition train (n_epochs : Z) (next_letter_to_add : string)
    (use_soft_labels : bool) (w : state) : result (state * locals) :=
  let* wl := prepare next_letter_to_add w in
  epochs use_soft_labels (py_range 1 (n_epochs + 1)) wl.

(** ** The loss values of a batch

    The noise of each half-step is the next draw of the generator; the
    generator half-step runs on the state the discriminator half-step
    leaves. *)

Definition next_noise (X : list Image) (w : state) : Latent :=
  fst (randn (Z.of_nat (List.length X)) NOISE_LENGTH w).

Definition batch_D_pass (t : traced) (use_soft_labels : bool) (b : batch)
    (w : state) : D_pass :=
  let '(X, _, _) := b in
  discriminator_pass t use_soft_labels w X (batch_condition b) (next_noise X w).

Definition batch_G_loss (t : traced) (use_soft_labels : bool) (b : batch)
    (n : Z) (w : state) : tracked Q :=
  let '(X, _, _) := b in
  let w := discriminator_half_step t use_soft_labels X (batch_condition b) n w in
  generator_loss t w X (batch_condition b) (next_noise X w).

(** The calls of each half-step, in order. *)

Definition D_half_calls (t : traced) (use_soft_labels : bool)
    (X : list Image) (c : cond) (n : Z) (w : state) : list call :=
  let p := discriminator_pass t use_soft_labels w X c (next_noise X w) in
  ([optim_zero_grad Discriminator;
    forward Generator (G_traced_mode t);
    forward Discriminator (D_traced_mode t);
    forward Discriminator (D_traced_mode t)]
   ++ (if Qgtb (val (D_loss p)) D_loss_threshold
       then [loss_backward Discriminator; optim_step Discriminator]
       else [])
   ++ [add_scalar "Loss/Discriminator" (val (D_loss p)) n;
       add_scalar "Discriminator response/to real images (average)"
         (mean (val (D_real p))) n;
       add_scalar "Discriminator response/to fake images (average)"
         (mean (val (D_fake p))) n])%list.

Definition G_half_calls (t : traced) (X : list Image) (c : cond) (n : Z)
    (w : state) : list call :=
  let G_loss := generator_loss t w X c (next_noise X w) in
  ([optim_zero_grad Generator;
    forward Generator (G_traced_mode t);
    forward Discriminator (D_traced_mode t)]
   ++ (if Qgtb (val G_loss) G_loss_threshold
       then [loss_backward Generator; optim_step Generator]
       else [])
   ++ [add_scalar "Loss/Generator" (val G_loss) n])%list.

(** ** Notions used to state the properties *)

(** The part of the state that only the checkpoint and the mode switches
    write: the timestamp, the files, the two modes. *)
Definition fixtures (w : state) : string * gmap string artifact * bool * bool :=
  (_current_datetime w, files w, training (_G w), training (_D w)).

(** The calls of one element of the loader. *)
Definition batch_calls (t : traced) (use_soft_labels : bool) (b : batch)
    (n : Z) (w : state) : list call :=
  let '(X, _, _) := b in
  if Nat.eqb (List.length X) 1 then []
  else
    (D_half_calls t use_soft_labels X (batch_condition b) (n + 1) w
     ++ G_half_calls t X (batch_condition b) (n + 1)
          (discriminator_half_step t use_soft_labels X (batch_condition b)
             (n + 1) w))%list.

(** [w'] is reached from [w] by recording calls that all satisfy [P]. *)
Definition emits (P : call -> Prop) (w w' : state) : Prop :=
  exists evs, calls w' = (calls w ++ evs)%list /\ forall c, In c evs -> P c.

(** Everything but the recorded calls. *)
Definition rest (w : state) :=
  (_G w, _D w, _G_optim w, _D_optim w, _dataset_loader w, _dataset w,
   _current_datetime w, numpy_random w, files w).

(** The records of the fixed grid: the image of each row under the tag
    of its letter. *)
Definition grid_records (epoch : Z) (images : list Image)
    (letters : list string) : list call :=
  (map (fun il : Image * string =>
          add_image ("Fixed latent points/" ++ snd il ++ "_P")
            (finalizing_transform (fst il)) epoch)
       (combine (py_take NUM_CHARS images) letters)
   ++ map (fun il : Image * string =>
             add_image ("Fixed latent points/" ++ snd il ++ "_G")
               (finalizing_transform (fst il)) epoch)
          (combine (py_drop NUM_CHARS images) letters))%list.

(** A call that is not a save, or a save to one of the two paths of the
    timestamp [dt]. *)
Definition saves_under (dt : string) (c : call) : Prop :=
  match c with
  | torch_save path => path = model_path "G" dt \/ path = model_path "D" dt
  | _ => True
  end.

(** From [w] to [w'] the timestamp is kept, every save goes to one of
    its two paths, and no other file changes. *)
Definition scoped (w w' : state) : Prop :=
  _current_datetime w' = _current_datetime w /\
  emits (saves_under (_current_datetime w)) w w' /\
  forall path : string,
    path <> G_path w -> path <> D_path w ->
    files w' !! path = files w !! path.

(** The two paths of the checkpoint can be opened for writing. *)
Definition can_save (w : state) : Prop :=
  writable (G_path w) = true /\ writable (D_path w) = true.

(** What a checkpoint leaves when its two saves succeed. *)
Definition written (w : state) : state :=
  let w := log (torch_save (G_path w))
             (with_files (<[G_path w := pickled_G (params (_G w))
                                          (training (_G w))]> (files w)) w) in
  log (torch_save (D_path w))
    (with_files (<[D_path w := pickled_D (params (_D w))
                                 (training (_D w))]> (files w)) w).

(** What [train] has done when it enters its first epoch. *)
Definition prepared (i : Z) (w : state) : state * locals :=
  (log (jit_trace Discriminator)
     (log (jit_trace Generator)
        (with_random (snd (draw (numpy_random w))) w)),
   Locals i 0 (keys character_to_index_mapping)
     (gaussian (fst (draw (numpy_random w)))
        (2 * Z.of_nat (List.length (keys character_to_index_mapping)))
        NOISE_LENGTH)
     (fixed_conditioning (keys character_to_index_mapping))
     (Traced (training (_G w)) (training (_D w)))).

(** Readings of a sequence of calls: the mode switches, in order, as
    (network, training?); the characters handed to the dataset; the images
    recorded under a tag, with their step. *)
Definition mode_switches (cs : list call) : list (side * bool) :=
  flat_map (fun c => match c with
                     | set_train s => [(s, true)]
                     | set_eval s => [(s, false)]
                     | _ => []
                     end) cs.

Definition characters_added (cs : list call) : list string :=
  flat_map (fun c => match c with add_character ch => [ch] | _ => [] end) cs.

Definition images_under (tag : string) (cs : list call) : list (Image * Z) :=
  flat_map (fun c => match c with
                     | add_image t img n => if String.eqb t tag then [(img, n)] else []
                     | _ => []
                     end) cs.

(** ** Further readings of the state and of the calls *)

(** Is the batch processed (not skipped by line 98)? *)
Definition processed (b : batch) : bool :=
  let '(X, _, _) := b in negb (Nat.eqb (List.length X) 1).

(** What neither a batch, nor a checkpoint, nor a visualisation writes:
    the dataset and the state of its loader. *)
Definition data_source (w : state) : Loader * Dataset :=
  (_dataset_loader w, _dataset w).

(** What a visualisation must leave alone: everything but the
    generator's mode, the random generator and the recorded calls. *)
Definition trained (w : state) :=
  (params (_G w), grads (_G w), _D w, _G_optim w, _D_optim w,
   _dataset_loader w, _dataset w, _current_datetime w, files w).

(** The tags of the figures recorded, in order. *)
Definition figure_tags (cs : list call) : list string :=
  flat_map (fun c => match c with add_figure tag _ _ => [tag] | _ => [] end) cs.

(** The calls recorded after those of [w]. *)
Definition since (w w' : state) : list call :=
  skipn (List.length (calls w)) (calls w').

(** [l[a:b]] for [0 <= a]. *)
Definition py_slice {A} (a b : Z) (l : list A) : list A :=
  firstn (Z.to_nat (b - a)) (skipn (Z.to_nat a) l).

(** The calls an epoch makes after its curriculum check. *)
Definition body_call (c : call) : Prop :=
  match c with
  | set_train _ | optim_zero_grad _ | forward _ _ | loss_backward _
  | optim_step _ | add_scalar _ _ _ | torch_save _ | set_eval Generator
  | add_image _ _ _ | add_figure _ _ _ | call_generate false _ _ => True
  | _ => False
  end.

End Trainer.

(** ** A small concrete instance

    Integers stand for parameters, gradients and images; the loader yields
    one batch of two examples and one batch of a single example per epoch;
    each loss is the sum of its target, so that the discriminator's gate is
    open and the generator's gate is closed. *)

Definition sumQ (l : list Q) : Q := fold_right Qplus 0%Q l.

Definition toy_collaborators : Collaborators := {|
  Image := Z;
  Latent := nat;
  Figure := string;
  GParams := Z;
  GGrad := Z;
  DParams := Z;
  DGrad := Z;
  GOpt := nat;
  DOpt := nat;
  Dataset := list string;
  Loader := nat;
  G_traced := fun p mode z c =>
    map (fun _ => p + Z.of_nat z + (if mode then 100 else 0)) c;
  D_traced := fun p mode x c => map (fun i => inject_Z (p + i)) x;
  dG := fun _ _ _ _ _ _ _ _ _ => 1;
  dD := fun _ _ _ _ _ _ _ _ _ => 1;
  G_loss_fn := fun out target => sumQ target;
  D_loss_fn := fun out target => sumQ target;
  G_optim_step := fun o p gs => (S o, p - fold_right Z.add 0 gs);
  D_optim_step := fun o p gs => (S o, p - fold_right Z.add 0 gs);
  add_character_to_training := fun d ch => (d ++ [ch])%list;
  iterate := fun ld d =>
    ([([10; 20], [[" "; " "]; ["a"; "a"]; [" "; " "]], [0%Q; 1%Q]);
      ([30], [[" "]; ["a"]; [" "]], [0%Q])], S ld);
  character_to_one_hot := fun cols => map (fun _ => [0%Q]) (hd [] cols);
  gaussian := fun k _ _ => k;
  generate := fun p mode cc style r => (p + style, snd (draw r));
  produce_figure := fun img caption => caption;
  finalizing_transform := fun img => img;
  cuda_memory_allocated := Ok 0%Q;
  writable := fun path => true
|}.

Definition toy_vars : GlobalVars := {|
  character_to_index_mapping := [(" ", 0); ("a", 1); ("b", 2)];
  NUM_CHARS := 3;
  NOISE_LENGTH := 4;
  add_character_every := 2;
  save_every := 1;
  produce_every := 1;
  num_characters_to_generate := 2;
  D_loss_threshold := 0.5%Q;
  G_loss_threshold := 100%Q;
  rectangle_shape := (64, 32);
  SUP_REMOVE_WIDTH := 8;
  INF_REMOVE_WIDTH := 8;
  IMAGE_WIDTH := 32
|}.

(** A trainer built by the constructor, with no timestamp supplied. *)
Definition toy_trainer : @state toy_collaborators :=
  @init toy_collaborators (Module 7 [] true) (Module 5 [] true) O O O [" "] None
        "2019-01-22 22:33:20.613720" (mkRng (fun i => i) 0) ∅.


(** * The web backend of [src/webapp/back/backend_server.py]

    Conventions of the embedding.
    - A Python [str] is a [string] whose characters are code points below
      256; a character is a [str] of length one.
    - Images are 2-dimensional float arrays: a shape and the list of the
      rows.  Every numpy array is rectangular ([well_formed]).
    - The generator, [generate_optimized_from_string], [stitch] and the
      JPEG/base64 encoding of [ndarray_to_base64] are collaborators: the
      fields of [Helpers].  [Gen] is what the generation reads and changes
      (the loaded generator and the random state); failures inside the
      collaborators are outside the model.
    - The global [state] outlives a request that raises: [insert] returns
      the outcome together with the state it leaves.
    - The JSON body of a request holds a string under [text], an integer
      under [index] and a style under [style]; a body without one of them
      is outside the model. *)

Module Backend.

Inductive error : Set :=
| IndexError
| ValueError       (* 'Line too long' *)
| AttributeError   (* None has no shape *)
| ModelNotFound.   (* Exception('Could not find the model') *)

Inductive outcome (A : Type) : Type :=
| Return (a : A)
| Throw (e : error).
Arguments Return {A} a.
Arguments Throw {A} e.

(** ** Arrays *)

Record ndarray : Type := Array {
  shape0 : nat;
  shape1 : nat;
  rows : list (list Q)
}.

Definition well_formed (a : ndarray) : Prop :=
  List.length (rows a) = shape0 a /\
  forall r, In r (rows a) -> List.length r = shape1 a.

(** [np.zeros((n, m))] *)
Definition zeros (n m : nat) : ndarray := Array n m (repeat (repeat 0%Q m) n).

(** [np.concatenate([a, b], axis=1)] for arrays of the same height. *)
Definition concatenate1 (a b : ndarray) : ndarray :=
  Array (shape0 a) (shape1 a + shape1 b)
        (map (fun rr : list Q * list Q => (fst rr ++ snd rr)%list)
             (combine (rows a) (rows b))).

Definition display_width : Z := 1900.

(** Lines 64-69. *)
Definition black_pad (line : ndarray) : outcome ndarray :=
  let pad_amount := display_width - Z.of_nat (shape1 line) in
  if pad_amount <? 0 then Throw ValueError
  else Return (concatenate1 line (zeros (shape0 line) (Z.to_nat pad_amount))).

(** ** Strings *)

(** [s[i]] *)
Definition str_at (s : string) (i : Z) : outcome string :=
  match py_index (String.list_ascii_of_string s) i with
  | Ok c => Return (String c EmptyString)
  | Raise _ => Throw IndexError
  end.

(** [s[i:]] *)
Definition str_from (i : Z) (s : string) : string :=
  String.string_of_list_ascii (py_drop i (String.list_ascii_of_string s)).

(** [c.isspace()] for a code point below 256. *)
Definition isspace (c : Ascii.ascii) : bool :=
  let n := Ascii.nat_of_ascii c in
  ((9 <=? n) && (n <=? 13) || (28 <=? n) && (n <=? 32)
   || (n =? 133) || (n =? 160))%nat.

(** [s.split()]: the maximal runs of characters that are not spaces;
    [word] is the run being read, last character first. *)
Fixpoint split_from (s : list Ascii.ascii) (word : list Ascii.ascii) : list string :=
  match s with
  | [] =>
      match word with
      | [] => []
      | _ => [String.string_of_list_ascii (rev word)]
      end
  | c :: s' =>
      if isspace c
      then match word with
           | [] => split_from s' []
           | _ => String.string_of_list_ascii (rev word) :: split_from s' []
           end
      else split_from s' (c :: word)
  end.

Definition split (s : string) : list string :=
  split_from (String.list_ascii_of_string s) [].

(** [s.endswith(t)] and [t in s]. *)
Definition endswith (s t : string) : bool :=
  let n := String.length s in
  let m := String.length t in
  (m <=? n)%nat && String.eqb (String.substring (n - m) m s) t.

Fixpoint contains (t s : string) : bool :=
  String.prefix t s
  || match s with
     | EmptyString => false
     | String _ s' => contains t s'
     end.

(** ** Choosing the model (lines 151-164)

    [listing] is [listdir(models_path)] and [isfile] the test of the file
    system; the names of a listing hold no separator, so
    [join(models_path, g)] appends [g] to [models_path]. *)

Definition models_path : string := "../../data/models/".

Definition is_generator_file (isfile : string -> bool) (f : string) : bool :=
  isfile (models_path ++ f) && endswith f ".pt"
  && match f with
     | String c _ => Ascii.eqb c "G"%char
     | EmptyString => false
     end.

Fixpoint first_containing (model : string) (g_models : list string) : string :=
  match g_models with
  | [] => ""
  | g :: more =>
      if contains model g then models_path ++ g
      else first_containing model more
  end.

Definition find_model (listing : list string) (isfile : string -> bool)
    (model : string) : outcome string :=
  let g_models := List.filter (is_generator_file isfile) listing in
  let g_path := first_containing model g_models in
  if String.eqb g_path "" then Throw ModelNotFound else Return g_path.

(** ** The request handler *)

Class Helpers : Type := {
  Style : Type;
  Gen : Type;
  generate_optimized_from_string : Gen -> string -> Style -> list ndarray * Gen;
  stitch : ndarray -> ndarray -> ndarray;
  ndarray_to_base64 : ndarray -> string
}.

Section Server.
Context {V : GlobalVars} {H : Helpers}.

(** Lines 26-27: the keys of the mapping and the space. *)
Definition characters_set : gset string :=
  list_to_set (keys character_to_index_mapping) ∪ {[ " " ]}.

(** Lines 29-33. *)
Record state : Type := State {
  words : list ndarray;
  current_line : option ndarray;
  text : string
}.

Definition initial_state : state := State [] None "".

(** The JSON body of a request. *)
Record request : Type := Request {
  param_text : string;
  param_index : Z;
  param_style : Style
}.

(** Lines 85-89: the characters of the text that are in the set, read
    one by one onto the end of [input_text]. *)
Fixpoint clean_onto (input_text : string) (chars : string) : string :=
  match chars with
  | EmptyString => input_text
  | String char chars' =>
      clean_onto
        (if bool_decide (String char EmptyString ∈ characters_set)
         then input_text ++ String char EmptyString
         else input_text)
        chars'
  end.

Definition clean (t : string) : string := clean_onto "" t.

(** Lines 93-96: the new words, each between two spaces. *)
Definition new_words (s : state) (index : Z) (input_text : string) : list string :=
  let input_text :=
    match current_line s with
    | None => " " ++ input_text
    | Some _ => input_text
    end in
  let input_text := input_text ++ " " in
  map (fun word => " " ++ word ++ " ") (split (str_from index input_text)).

(** A word that starts and ends with a space, as those of [new_words]. *)
Definition spaced (word : string) : Prop := exists u, word = " " ++ u ++ " ".

(** Lines 99-103: the image of a word, its characters stitched from left
    to right. *)
Definition word_image (st : Style) (word : string) (g : Gen)
    : outcome ndarray * Gen :=
  let (word_characters, g) := generate_optimized_from_string g word st in
  match word_characters with
  | [] => (Throw IndexError, g)
  | first :: others => (Return (fold_left stitch others first), g)
  end.

(** Lines 97-103. *)
Fixpoint word_images (st : Style) (ws : list string) (g : Gen)
    : outcome (list ndarray) * Gen :=
  match ws with
  | [] => (Return [], g)
  | word :: more =>
      match word_image st word g with
      | (Throw e, g) => (Throw e, g)
      | (Return image, g) =>
          match word_images st more g with
          | (Throw e, g) => (Throw e, g)
          | (Return images, g) => (Return (image :: images), g)
          end
      end
  end.

(** Lines 107-112: the words joined by the image of a space. *)
Fixpoint stitch_words (st : Style) (new_portion : ndarray) (prev_word : string)
    (next : list (string * ndarray)) (g : Gen) : outcome ndarray * Gen :=
  match next with
  | [] => (Return new_portion, g)
  | (next_word, next_image) :: more =>
      match str_at prev_word (-1), str_at next_word 0 with
      | Return a, Return b =>
          let (space, g) :=
            generate_optimized_from_string g (a ++ " " ++ b) st in
          match space with
          | [] => (Throw IndexError, g)
          | space_image :: _ =>
              stitch_words st
                (stitch (stitch new_portion space_image) next_image)
                next_word more g
          end
      | _, _ => (Throw IndexError, g)
      end
  end.

(** Lines 114-121: the new portion attached to the current line. *)
Definition attach (st : Style) (index : Z) (new_portion : ndarray)
    (s : state) (g : Gen) : outcome unit * state * Gen :=
  match current_line s with
  | Some line =>
      match str_at (text s) (index - 1) with
      | Throw e => (Throw e, s, g)
      | Return last_char =>
          match str_at (text s) (index + 1) with
          | Throw e => (Throw e, s, g)
          | Return first_new_char =>
              let (space, g) :=
                generate_optimized_from_string g
                  (last_char ++ " " ++ first_new_char) st in
              match space with
              | [] => (Throw IndexError, s, g)
              | space_image :: _ =>
                  (Return tt,
                   State (words s)
                         (Some (stitch (stitch line space_image) new_portion))
                         (text s),
                   g)
              end
          end
      end
  | None => (Return tt, State (words s) (Some new_portion) (text s), g)
  end.

(** Lines 91-124: the insertion at the end. *)
Definition insert_at_end (st : Style) (index : Z) (input_text : string)
    (s : state) (g : Gen) : outcome unit * state * Gen :=
  let ws := new_words s index input_text in
  let s := State (words s) (current_line s) input_text in
  match word_images st ws g with
  | (Throw e, g) => (Throw e, s, g)
  | (Return new_words_images, g) =>
      let s := State (words s ++ new_words_images) (current_line s) (text s) in
      match new_words_images with
      | [] => (Throw IndexError, s, g)
      | first :: images =>
          match stitch_words st first (hd "" ws) (combine (tl ws) images) g with
          | (Throw e, g) => (Throw e, s, g)
          | (Return new_portion, g) => attach st index new_portion s g
          end
      end
  end.

(** Lines 129-134: the response. *)
Definition respond (s : state) : outcome string :=
  match current_line s with
  | None => Throw AttributeError
  | Some line =>
      match black_pad line with
      | Throw e => Throw e
      | Return padded => Return (ndarray_to_base64 padded)
      end
  end.

(** Lines 79-134. *)
Definition insert (req : request) (s : state) (g : Gen)
    : outcome string * state * Gen :=
  let input_text := clean (param_text req) in
  let index := param_index req in
  if index =? Z.of_nat (String.length (text s))
  then
    match insert_at_end (param_style req) index input_text s g with
    | (Throw e, s, g) => (Throw e, s, g)
    | (Return _, s, g) => (respond s, s, g)
    end
  else (respond s, s, g).

End Server.

End Backend.

(** A concrete instance of the backend's collaborators: a character is a
    one-cell image, stitching puts two images side by side. *)
Definition toy_helpers : Backend.Helpers := {|
  Backend.Style := Z;
  Backend.Gen := nat;
  Backend.generate_optimized_from_string := fun g word st =>
    (map (fun _ => Backend.Array 1 1 [[inject_Z st]])
         (String.list_ascii_of_string word), S g);
  Backend.stitch := Backend.concatenate1;
  Backend.ndarray_to_base64 := fun a => str_of_nat (Backend.shape1 a)
|}.

(** A server holding the line of the text ["a"]. *)
Definition toy_server : Backend.state :=
  Backend.State [] (Some (Backend.Array 1 1 [[0%Q]])) "a".

(** * Properties *)

(** The first batch of the loader, and the local variables with which
    [train] enters its first epoch when the next letter is ["a"]. *)
Definition toy_X : list (@Image toy_collaborators) := [10; 20].
Definition toy_labels : list (list string) := [[" "; " "]; ["a"; "a"]; [" "; " "]].
Definition toy_style : list Q := [0%Q; 1%Q].

(** The traces of a trainer whose two networks are in training mode. *)
Definition toy_traced : traced := Traced true true.

Definition toy_locals : @locals toy_collaborators :=
  @Locals toy_collaborators 1 0 [" "; "a"; "b"] O [] toy_traced.

(** Locals with six rows of conditioning, and the three images the
    generator of [toy_trainer] returns for each style. *)
Definition toy_grid_locals : @locals toy_collaborators :=
  @Locals toy_collaborators 1 0 [" "; "a"; "b"] O (repeat [0%Q] 6)
          toy_traced.
Definition toy_grid_images : list (@Image toy_collaborators) := [107; 107; 107].

Section Properties.
Context {C : Collaborators} {V : GlobalVars}.

Ltac state_simpl :=
  cbn [calls _G _D _G_optim _D_optim _dataset_loader _dataset _current_datetime
       numpy_random files log with_G with_D with_G_optim with_D_optim
       with_loader with_dataset with_random with_files
       params grads training set_mode zero_grad accumulate set_params
       val via_G via_D leaf detach fst snd] in *.

Lemma Qgtb_lt (a b : Q) : Qgtb a b = true <-> (b < a)%Q.
Proof.
  unfold Qgtb. rewrite negb_true_iff, <- not_true_iff_false, Qle_bool_iff.
  split; [apply Qnot_le_lt | apply Qlt_not_le].
Qed.

Lemma Qgtb_le (a b : Q) : Qgtb a b = false <-> (a <= b)%Q.
Proof.
  unfold Qgtb. rewrite negb_false_iff. apply Qle_bool_iff.
Qed.

(** *** The two half-steps *)

Ltac half_step_simpl :=
  unfold discriminator_half_step, generator_half_step, D_half_calls,
    G_half_calls, next_noise, randn, draw, generator_loss,
    discriminator_pass, average, criterion, G_call, D_call in *;
  cbn [D_loss D_real D_fake D_loss_real D_loss_fake G_sample] in *;
  state_simpl.

Ltac run_step :=
  unfold D_step, G_step, backward; state_simpl; cbn [orb]; state_simpl;
  repeat match goal with
  | |- context [D_optim_step ?o ?p ?g] => destruct (D_optim_step o p g)
  | |- context [G_optim_step ?o ?p ?g] => destruct (G_optim_step o p g)
  end; state_simpl.

Lemma discriminator_half_step_calls {t : traced} use_soft_labels X c n w :
  calls (discriminator_half_step t use_soft_labels X c n w)
  = (calls w ++ D_half_calls t use_soft_labels X c n w)%list.
Proof.
  half_step_simpl.
  match goal with |- context [Qgtb ?a ?b] => destruct (Qgtb a b) end;
    run_step; now rewrite <- !app_assoc.
Qed.

Lemma generator_half_step_calls {t : traced} X c n w :
  calls (generator_half_step t X c n w)
  = (calls w ++ G_half_calls t X c n w)%list.
Proof.
  half_step_simpl.
  match goal with |- context [Qgtb ?a ?b] => destruct (Qgtb a b) end;
    run_step; now rewrite <- !app_assoc.
Qed.

(** The discriminator half-step touches neither the generator nor its
    optimizer. *)
Lemma discriminator_half_step_G {t : traced} use_soft_labels X c n w :
  _G (discriminator_half_step t use_soft_labels X c n w) = _G w /\
  _G_optim (discriminator_half_step t use_soft_labels X c n w) = _G_optim w.
Proof.
  half_step_simpl.
  match goal with |- context [Qgtb ?a ?b] => destruct (Qgtb a b) end;
    run_step; now split.
Qed.

(** The discriminator after its half-step: stepped when the gate is open,
    only its gradients reset otherwise. *)
Lemma discriminator_half_step_D {t : traced} use_soft_labels X c n w :
  let w' := discriminator_half_step t use_soft_labels X c n w in
  let p := discriminator_pass t use_soft_labels w X c (next_noise X w) in
  training (_D w') = training (_D w) /\
  (Qgtb (val (D_loss p)) D_loss_threshold = false ->
     params (_D w') = params (_D w) /\ _D_optim w' = _D_optim w).
Proof.
  half_step_simpl.
  match goal with |- context [Qgtb ?a ?b] => destruct (Qgtb a b) end;
    run_step; split; try reflexivity; intros; try discriminate; now split.
Qed.

(** The generator half-step steps the generator when its gate is open and
    never changes the parameters of the discriminator. *)
Lemma generator_half_step_modules {t : traced} X c n w :
  let w' := generator_half_step t X c n w in
  training (_G w') = training (_G w) /\
  training (_D w') = training (_D w) /\
  params (_D w') = params (_D w) /\ _D_optim w' = _D_optim w /\
  (Qgtb (val (generator_loss t w X c (next_noise X w))) G_loss_threshold = false ->
     params (_G w') = params (_G w) /\ _G_optim w' = _G_optim w).
Proof.
  half_step_simpl.
  match goal with |- context [Qgtb ?a ?b] => destruct (Qgtb a b) end;
    run_step; repeat split; try reflexivity; intros; try discriminate.
Qed.

(** A batch that is not skipped runs the two half-steps on the advanced
    step counter. *)
Lemma train_batch_run {t : traced} use_soft_labels X labels style w n :
  List.length X <> 1%nat ->
  train_batch t use_soft_labels (X, labels, style) (w, n)
  = (generator_half_step t X (batch_condition (X, labels, style)) (n + 1)
       (discriminator_half_step t use_soft_labels X
          (batch_condition (X, labels, style)) (n + 1) w),
     n + 1).
Proof.
  intros HX. unfold train_batch.
  now destruct (Nat.eqb_spec (List.length X) 1).
Qed.

Lemma train_batch_calls {t : traced} use_soft_labels X labels style w n :
  List.length X <> 1%nat ->
  let c := batch_condition (X, labels, style) in
  calls (fst (train_batch t use_soft_labels (X, labels, style) (w, n)))
  = (calls w
     ++ D_half_calls t use_soft_labels X c (n + 1) w
     ++ G_half_calls t X c (n + 1)
          (discriminator_half_step t use_soft_labels X c (n + 1) w))%list.
Proof.
  intros HX c. rewrite train_batch_run by assumption. cbn [fst].
  rewrite generator_half_step_calls, discriminator_half_step_calls.
  now rewrite <- app_assoc.
Qed.

Lemma D_half_calls_scalar {t : traced} use_soft_labels X c n w tag v s :
  In (add_scalar tag v s) (D_half_calls t use_soft_labels X c n w) -> s = n.
Proof.
  unfold D_half_calls.
  destruct (Qgtb _ _); cbn [app In]; intros H;
    repeat (destruct H as [H|H]; [try discriminate; now inversion H|]);
    contradiction.
Qed.

Lemma G_half_calls_scalar {t : traced} X c n w tag v s :
  In (add_scalar tag v s) (G_half_calls t X c n w) -> s = n.
Proof.
  unfold G_half_calls.
  destruct (Qgtb _ _); cbn [app In]; intros H;
    repeat (destruct H as [H|H]; [try discriminate; now inversion H|]);
    contradiction.
Qed.

Lemma D_half_calls_step {t : traced} use_soft_labels X c n w s :
  In (optim_step s) (D_half_calls t use_soft_labels X c n w) <->
  s = Discriminator /\
  Qgtb (val (D_loss (discriminator_pass t use_soft_labels w X c (next_noise X w))))
       D_loss_threshold = true.
Proof.
  unfold D_half_calls.
  destruct (Qgtb _ _); cbn [app In]; split.
  - intros H;
      repeat (destruct H as [H|H]; [try discriminate; inversion H; now split|]);
      contradiction.
  - intros [-> _]. do 5 right. now left.
  - intros H;
      repeat (destruct H as [H|H]; [try discriminate|]); contradiction.
  - intros [_ H]. discriminate.
Qed.

Lemma G_half_calls_step {t : traced} X c n w s :
  In (optim_step s) (G_half_calls t X c n w) <->
  s = Generator /\
  Qgtb (val (generator_loss t w X c (next_noise X w))) G_loss_threshold = true.
Proof.
  unfold G_half_calls.
  destruct (Qgtb _ _); cbn [app In]; split.
  - intros H;
      repeat (destruct H as [H|H]; [try discriminate; inversion H; now split|]);
      contradiction.
  - intros [-> _]. do 4 right. now left.
  - intros H;
      repeat (destruct H as [H|H]; [try discriminate|]); contradiction.
  - intros [_ H]. discriminate.
Qed.

Lemma D_half_calls_loss {t : traced} use_soft_labels X c n w :
  In (add_scalar "Loss/Discriminator"
        (val (D_loss (discriminator_pass t use_soft_labels w X c (next_noise X w)))) n)
     (D_half_calls t use_soft_labels X c n w).
Proof.
  unfold D_half_calls. apply in_or_app. right. apply in_or_app. right.
  now left.
Qed.

Lemma G_half_calls_loss {t : traced} X c n w :
  In (add_scalar "Loss/Generator"
        (val (generator_loss t w X c (next_noise X w))) n)
     (G_half_calls t X c n w).
Proof.
  unfold G_half_calls. apply in_or_app. right. apply in_or_app. right.
  now left.
Qed.

(** C3: a batch of one example leaves the state and the step counter as
    they were (no call is recorded, so no gradient step, no optimizer
    update and no metric); a batch of more than one example advances the
    step counter by one, and every scalar it reports, for the discriminator
    and for the generator, carries that one new value. *)
Theorem degenerate_batch_skipped (t : traced) (use_soft_labels : bool) (X : list Image)
    (labels : list (list string)) (style : list Q) (w : state) (n : Z) :
  (List.length X = 1%nat ->
     train_batch t use_soft_labels (X, labels, style) (w, n) = (w, n)) /\
  ((List.length X > 1)%nat ->
     exists evs vD vG,
       snd (train_batch t use_soft_labels (X, labels, style) (w, n)) = n + 1 /\
       calls (fst (train_batch t use_soft_labels (X, labels, style) (w, n)))
         = (calls w ++ evs)%list /\
       In (add_scalar "Loss/Discriminator" vD (n + 1)) evs /\
       In (add_scalar "Loss/Generator" vG (n + 1)) evs /\
       forall tag v s, In (add_scalar tag v s) evs -> s = n + 1).
Proof.
  split; intros HX.
  - unfold train_batch. now rewrite HX.
  - assert (HX' : List.length X <> 1%nat) by lia.
    eexists _, _, _. split; [|split; [|split; [|split]]].
    + now rewrite train_batch_run.
    + now apply train_batch_calls.
    + apply in_or_app. left. apply D_half_calls_loss.
    + apply in_or_app. right. apply G_half_calls_loss.
    + intros tag v s [H|H]%in_app_or.
      * now apply D_half_calls_scalar in H.
      * now apply G_half_calls_scalar in H.
Qed.

(** With its gate open, a half-step replaces the parameters and the
    optimizer state of its side by what the optimizer's [step] returns on
    the one gradient accumulated since [zero_grad]. *)
Lemma discriminator_half_step_open {t : traced} use_soft_labels X c n w :
  let w' := discriminator_half_step t use_soft_labels X c n w in
  let p := discriminator_pass t use_soft_labels w X c (next_noise X w) in
  Qgtb (val (D_loss p)) D_loss_threshold = true ->
  exists g, (_D_optim w', params (_D w'))
            = D_optim_step (_D_optim w) (params (_D w)) [g].
Proof.
  half_step_simpl.
  match goal with |- context [Qgtb ?a ?b] => destruct (Qgtb a b) end;
    intros H; [|discriminate].
  eexists. unfold D_step, backward. state_simpl. cbn [orb]. state_simpl.
  match goal with
  | |- context [D_optim_step ?o ?p ?g] => destruct (D_optim_step o p g) eqn:E
  end. state_simpl. symmetry. exact E.
Qed.

Lemma generator_half_step_open {t : traced} X c n w :
  let w' := generator_half_step t X c n w in
  Qgtb (val (generator_loss t w X c (next_noise X w))) G_loss_threshold = true ->
  exists g, (_G_optim w', params (_G w'))
            = G_optim_step (_G_optim w) (params (_G w)) [g].
Proof.
  half_step_simpl.
  match goal with |- context [Qgtb ?a ?b] => destruct (Qgtb a b) end;
    intros H; [|discriminate].
  eexists. unfold G_step, backward. state_simpl. cbn [orb]. state_simpl.
  match goal with
  | |- context [G_optim_step ?o ?p ?g] => destruct (G_optim_step o p g) eqn:E
  end. state_simpl. symmetry. exact E.
Qed.

(** C1: in a batch that is not skipped, each side's optimizer is stepped
    iff that side's loss is strictly above its threshold; with the loss at
    or below the threshold the side's parameters (and optimizer state) after
    the batch are those before it, above the threshold they are what the
    optimizer's step returns; both loss values are reported to the sink
    whatever the gates decide. *)
Theorem stability_gate (t : traced) (use_soft_labels : bool) (X : list Image)
    (labels : list (list string)) (style : list Q) (w : state) (n : Z) :
  List.length X <> 1%nat ->
  let b : batch := (X, labels, style) in
  let w' := fst (train_batch t use_soft_labels b (w, n)) in
  let dl := val (D_loss (batch_D_pass t use_soft_labels b w)) in
  let gl := val (batch_G_loss t use_soft_labels b (n + 1) w) in
  exists evs,
    calls w' = (calls w ++ evs)%list /\
    (In (optim_step Discriminator) evs <-> (D_loss_threshold < dl)%Q) /\
    (In (optim_step Generator) evs <-> (G_loss_threshold < gl)%Q) /\
    ((dl <= D_loss_threshold)%Q ->
       params (_D w') = params (_D w) /\ _D_optim w' = _D_optim w) /\
    ((gl <= G_loss_threshold)%Q ->
       params (_G w') = params (_G w) /\ _G_optim w' = _G_optim w) /\
    ((D_loss_threshold < dl)%Q ->
       exists g, (_D_optim w', params (_D w'))
                 = D_optim_step (_D_optim w) (params (_D w)) [g]) /\
    ((G_loss_threshold < gl)%Q ->
       exists g, (_G_optim w', params (_G w'))
                 = G_optim_step (_G_optim w) (params (_G w)) [g]) /\
    In (add_scalar "Loss/Discriminator" dl (n + 1)) evs /\
    In (add_scalar "Loss/Generator" gl (n + 1)) evs /\
    In (add_scalar "Loss/Discriminator" dl (n + 1)) (_writer w') /\
    In (add_scalar "Loss/Generator" gl (n + 1)) (_writer w').
Proof.
  intros HX b w' dl gl. subst b w' dl gl.
  cbn [batch_D_pass batch_G_loss].
  set (c := batch_condition (X, labels, style)).
  rewrite train_batch_run by assumption. cbn [fst]. fold c.
  set (w1 := discriminator_half_step t use_soft_labels X c (n + 1) w).
  destruct (discriminator_half_step_G (t:=t) use_soft_labels X c (n + 1) w) as [HG HGo].
  destruct (discriminator_half_step_D (t:=t) use_soft_labels X c (n + 1) w) as [_ HD].
  destruct (generator_half_step_modules (t:=t) X c (n + 1) w1)
    as (_ & _ & HDp & HDo & HGclosed).
  fold w1 in HG, HGo, HD.
  exists (D_half_calls t use_soft_labels X c (n + 1) w
          ++ G_half_calls t X c (n + 1) w1)%list.
  assert (Hcalls : calls (generator_half_step t X c (n + 1) w1)
                   = (calls w ++ D_half_calls t use_soft_labels X c (n + 1) w
                      ++ G_half_calls t X c (n + 1) w1)%list).
  { rewrite generator_half_step_calls. unfold w1.
    rewrite discriminator_half_step_calls. now rewrite <- app_assoc. }
  split; [|split; [|split; [|split; [|split; [|split; [|split; [|split;
    [|split; [|split]]]]]]]]].
  - exact Hcalls.
  - rewrite in_app_iff, D_half_calls_step, G_half_calls_step, !Qgtb_lt.
    split; [intros [[_ H]|[H _]]; [exact H|discriminate]
           | intros H; left; split; [reflexivity|exact H]].
  - rewrite in_app_iff, D_half_calls_step, G_half_calls_step, !Qgtb_lt.
    split; [intros [[H _]|[_ H]]; [discriminate|exact H]
           | intros H; right; split; [reflexivity|exact H]].
  - intros H%Qgtb_le. rewrite HDp, HDo. now apply HD.
  - intros H%Qgtb_le. destruct (HGclosed H) as [-> ->]. now rewrite HG, HGo.
  - intros H%Qgtb_lt. rewrite HDp, HDo.
    now apply (discriminator_half_step_open use_soft_labels X c (n + 1) w).
  - intros H%Qgtb_lt. rewrite <- HG, <- HGo.
    now apply (generator_half_step_open X c (n + 1) w1).
  - apply in_or_app. left. apply D_half_calls_loss.
  - apply in_or_app. right. apply G_half_calls_loss.
  - unfold _writer. apply List.filter_In. split; [|reflexivity].
    rewrite Hcalls. apply in_or_app. right. apply in_or_app. left.
    apply D_half_calls_loss.
  - unfold _writer. apply List.filter_In. split; [|reflexivity].
    rewrite Hcalls. apply in_or_app. right. apply in_or_app. right.
    apply G_half_calls_loss.
Qed.

(** C5: for a batch of more than one example the discriminator loss is
    [(loss_real + loss_fake) / 2], the mean of the loss on the real images
    against the real target and the loss on the generated images against
    the zero target, and this is the value reported as the discriminator's
    loss. *)
Theorem discriminator_loss_is_mean (t : traced) (use_soft_labels : bool) (X : list Image)
    (labels : list (list string)) (style : list Q) (w : state) (n : Z) :
  (List.length X > 1)%nat ->
  let b : batch := (X, labels, style) in
  let p := batch_D_pass t use_soft_labels b w in
  let loss_real :=
    D_loss_fn (val (D_real p)) (real_target use_soft_labels (List.length X)) in
  let loss_fake := D_loss_fn (val (D_fake p)) (zero_label (List.length X)) in
  val (D_loss_real p) = loss_real /\
  val (D_loss_fake p) = loss_fake /\
  val (D_loss p) = ((loss_real + loss_fake) / 2)%Q /\
  (val (D_loss p) == mean [loss_real; loss_fake])%Q /\
  exists evs,
    calls (fst (train_batch t use_soft_labels b (w, n))) = (calls w ++ evs)%list /\
    In (add_scalar "Loss/Discriminator" ((loss_real + loss_fake) / 2)%Q (n + 1)) evs.
Proof.
  intros HX b p loss_real loss_fake.
  assert (HX' : List.length X <> 1%nat) by lia.
  split; [reflexivity|]. split; [reflexivity|]. split; [reflexivity|].
  split.
  - change (val (D_loss p)) with ((loss_real + loss_fake) / 2)%Q.
    unfold mean. cbn [fold_right List.length].
    now rewrite Qplus_0_r.
  - eexists. split; [now apply train_batch_calls|].
    apply in_or_app. left.
    apply (D_half_calls_loss use_soft_labels X
             (batch_condition (X, labels, style)) (n + 1) w).
Qed.

(** *** The label targets *)





(** *** The discriminator half-step and the generator *)

(** C10: the discriminator half-step of a batch that is not skipped scores
    the generated images after detaching them, so neither the scores of the
    generated images nor the discriminator loss reach the generator's
    parameters (although the generated images themselves do); the half-step
    leaves the generator module (parameters, gradients, mode) and the
    generator's optimizer as they were, and the only optimizer it can step
    is the discriminator's. *)
Theorem discriminator_half_step_frames_generator (t : traced) (use_soft_labels : bool)
    (X : list Image) (labels : list (list string)) (style : list Q)
    (w : state) (n : Z) :
  let b : batch := (X, labels, style) in
  let c := batch_condition b in
  let p := batch_D_pass t use_soft_labels b w in
  let w1 := discriminator_half_step t use_soft_labels X c (n + 1) w in
  (List.length X <> 1%nat ->
     fst (train_batch t use_soft_labels b (w, n))
     = generator_half_step t X c (n + 1) w1) /\
  via_G (G_sample p) = true /\
  val (D_fake p)
  = D_traced (params (_D w)) (D_traced_mode t) (val (G_sample p)) c /\
  via_G (D_fake p) = false /\
  via_G (D_loss p) = false /\
  _G w1 = _G w /\
  _G_optim w1 = _G_optim w /\
  exists evs,
    calls w1 = (calls w ++ evs)%list /\
    forall s, In (optim_step s) evs -> s = Discriminator.
Proof.
  intros b c p w1.
  split; [|split; [|split; [|split; [|split; [|split; [|split]]]]]];
    try reflexivity.
  - intros HX. subst b. now rewrite train_batch_run.
  - apply discriminator_half_step_G.
  - apply discriminator_half_step_G.
  - eexists. split; [apply discriminator_half_step_calls|].
    intros s H. now apply D_half_calls_step in H.
Qed.

(** *** What a batch leaves alone *)

Lemma fixtures_eq w w' :
  fixtures w' = fixtures w ->
  _current_datetime w' = _current_datetime w /\ files w' = files w /\
  training (_G w') = training (_G w) /\ training (_D w') = training (_D w).
Proof. unfold fixtures. intros H. now inversion H. Qed.

Lemma discriminator_half_step_fixtures {t : traced} use_soft_labels X c n w :
  fixtures (discriminator_half_step t use_soft_labels X c n w) = fixtures w.
Proof.
  unfold fixtures. half_step_simpl.
  match goal with |- context [Qgtb ?a ?b] => destruct (Qgtb a b) end;
    run_step; reflexivity.
Qed.

Lemma generator_half_step_fixtures {t : traced} X c n w :
  fixtures (generator_half_step t X c n w) = fixtures w.
Proof.
  unfold fixtures. half_step_simpl.
  match goal with |- context [Qgtb ?a ?b] => destruct (Qgtb a b) end;
    run_step; reflexivity.
Qed.

Lemma train_batch_batch_calls {t : traced} use_soft_labels b w n :
  calls (fst (train_batch t use_soft_labels b (w, n)))
  = (calls w ++ batch_calls t use_soft_labels b n w)%list.
Proof.
  destruct b as [[X labels] style]. unfold batch_calls.
  destruct (Nat.eqb_spec (List.length X) 1) as [E|E].
  - unfold train_batch. rewrite E. cbn [Nat.eqb fst]. now rewrite app_nil_r.
  - now apply train_batch_calls.
Qed.

Lemma train_batch_fixtures {t : traced} use_soft_labels b w n :
  fixtures (fst (train_batch t use_soft_labels b (w, n))) = fixtures w.
Proof.
  destruct b as [[X labels] style].
  destruct (Nat.eqb_spec (List.length X) 1) as [E|E].
  - unfold train_batch. now rewrite E.
  - rewrite train_batch_run by assumption. cbn [fst].
    now rewrite generator_half_step_fixtures, discriminator_half_step_fixtures.
Qed.

Lemma train_batches_fixtures {t : traced} use_soft_labels batches w n :
  fixtures (fst (train_batches t use_soft_labels batches (w, n))) = fixtures w.
Proof.
  unfold train_batches. revert w n.
  induction batches as [|b batches IH]; intros w n; [reflexivity|].
  cbn [fold_left].
  destruct (train_batch t use_soft_labels b (w, n)) as [w1 n1] eqn:E.
  rewrite IH. change w1 with (fst (w1, n1)). rewrite <- E.
  apply train_batch_fixtures.
Qed.

(** Every forward pass of a batch runs in the mode of the trace; a batch
    switches no mode and saves no file. *)
Lemma batch_calls_kinds {t : traced} use_soft_labels b n w e :
  In e (batch_calls t use_soft_labels b n w) ->
  match e with
  | forward Generator m => m = G_traced_mode t
  | forward Discriminator m => m = D_traced_mode t
  | set_train _ | set_eval _ | jit_trace _ | torch_save _
  | call_generate _ _ _ | add_image _ _ _ | add_figure _ _ _
  | add_character _ => False
  | _ => True
  end.
Proof.
  destruct b as [[X labels] style]. unfold batch_calls.
  destruct (Nat.eqb (List.length X) 1); [contradiction|].
  intros [H|H]%in_app_or.
  - unfold D_half_calls in H.
    destruct (Qgtb _ _); cbn [app In] in H;
      repeat (destruct H as [H|H]; [subst e; try reflexivity; exact I|]);
      contradiction.
  - unfold G_half_calls in H.
    destruct (Qgtb _ _); cbn [app In] in H;
      repeat (destruct H as [H|H]; [subst e; try reflexivity; exact I|]);
      contradiction.
Qed.

(** *** The curriculum *)

Lemma py_mod_ok a b : b <> 0 -> py_mod a b = Ok (a mod b).
Proof. intros H. unfold py_mod. now destruct (Z.eqb_spec b 0). Qed.

Lemma py_index_ok {A} (l : list A) i :
  0 <= i < Z.of_nat (List.length l) -> exists a, py_index l i = Ok a.
Proof.
  intros H. unfold py_index.
  destruct (Z.ltb_spec i 0); [lia|].
  destruct (Z.leb_spec 0 i); [|lia].
  destruct (Z.ltb_spec i (Z.of_nat (List.length l))); [|lia].
  cbn [andb].
  destruct (nth_error l (Z.to_nat i)) as [a|] eqn:E; [now exists a|].
  apply nth_error_None in E. lia.
Qed.

(** The checkpoint: both saves succeed, or the first that cannot open its
    path raises. *)
Lemma checkpoint_ok w : can_save w -> checkpoint w = Ok (written w).
Proof.
  intros [HG HD]. unfold checkpoint, save. rewrite HG. cbn [bind].
  change (D_path (log _ (with_files _ w))) with (D_path w).
  now rewrite HD.
Qed.

Lemma checkpoint_inv w w' :
  checkpoint w = Ok w' -> can_save w /\ w' = written w.
Proof.
  unfold checkpoint, save.
  destruct (writable (G_path w)) eqn:HG; cbn [bind]; [|discriminate].
  change (D_path (log _ (with_files _ w))) with (D_path w).
  destruct (writable (D_path w)) eqn:HD; [|discriminate].
  intros E. injection E as <-. now repeat split.
Qed.

Lemma checkpoint_raises w x : checkpoint w = Raise x -> x = RuntimeError.
Proof.
  unfold checkpoint, save.
  destruct (writable (G_path w)); cbn [bind];
    [|intros E; now injection E].
  destruct (writable _); [discriminate | intros E; now injection E].
Qed.

Lemma can_save_same w w' :
  _current_datetime w' = _current_datetime w -> can_save w -> can_save w'.
Proof.
  intros E [HG HD]. unfold can_save, G_path, D_path in *. rewrite E.
  now split.
Qed.

(** The end of an epoch that returns: the state [w1] after the save
    cadence and the state after the visualisation cadence. *)
Lemma end_epoch_cases e w l w' :
  end_epoch e w l = Ok w' ->
  save_every <> 0 /\ produce_every <> 0 /\
  exists w1,
    ((e mod save_every <> 0 /\ w1 = w) \/
     (e mod save_every = 0 /\ can_save w /\ w1 = written w)) /\
    ((e mod produce_every <> 0 /\ w' = w1) \/
     (e mod produce_every = 0 /\ w' = visualize e w1 l)).
Proof.
  unfold end_epoch, py_mod.
  destruct (Z.eqb_spec save_every 0) as [|Hs]; cbn [bind]; [discriminate|].
  destruct (Z.eqb_spec (e mod save_every) 0) as [Es|Es].
  - destruct (checkpoint w) as [w1|] eqn:HC; cbn [bind]; [|discriminate].
    apply checkpoint_inv in HC as [Hw ->].
    destruct (Z.eqb_spec produce_every 0) as [|Hp]; cbn [bind]; [discriminate|].
    intros E. injection E as <-. split; [exact Hs|]. split; [exact Hp|].
    exists (written w).
    split; [right; split; [exact Es | split; [exact Hw | reflexivity]]|].
    destruct (Z.eqb_spec (e mod produce_every) 0); [right | left]; now split.
  - cbn [bind].
    destruct (Z.eqb_spec produce_every 0) as [|Hp]; cbn [bind]; [discriminate|].
    intros E. injection E as <-. split; [exact Hs|]. split; [exact Hp|].
    exists w. split; [left; now split|].
    destruct (Z.eqb_spec (e mod produce_every) 0); [right | left]; now split.
Qed.

Lemma end_epoch_ok e w l :
  save_every <> 0 -> produce_every <> 0 -> can_save w ->
  exists w', end_epoch e w l = Ok w'.
Proof.
  intros Hs Hp Hw. unfold end_epoch.
  rewrite (py_mod_ok _ _ Hs), (py_mod_ok _ _ Hp). cbn [bind].
  destruct (e mod save_every =? 0); cbn [bind]; [|eauto].
  rewrite (checkpoint_ok _ Hw). cbn [bind]. eauto.
Qed.

(** The check at the top of an epoch, when nothing raises. *)
Lemma unlock_spec e w l :
  add_character_every <> 0 ->
  NUM_CHARS <= Z.of_nat (List.length (keys character_to_index_mapping)) ->
  0 <= current_char_index l ->
  (e mod add_character_every = 0 /\ current_char_index l < NUM_CHARS /\
   exists ch,
     py_index (keys character_to_index_mapping) (current_char_index l) = Ok ch /\
     unlock e w l
     = Ok (log (add_character ch)
             (with_dataset (add_character_to_training (_dataset w) ch) w),
           with_cursor (current_char_index l + 1) l)) \/
  (~ (e mod add_character_every = 0 /\ current_char_index l < NUM_CHARS) /\
   unlock e w l = Ok (w, l)).
Proof.
  intros HK HN Hc. unfold unlock. rewrite (py_mod_ok _ _ HK). cbn [bind].
  destruct (Z.eqb_spec (e mod add_character_every) 0) as [E|E];
    destruct (Z.ltb_spec (current_char_index l) NUM_CHARS) as [L|L];
    cbn [andb]; try (right; split; [lia|reflexivity]).
  left. split; [assumption|]. split; [assumption|].
  destruct (py_index_ok (keys character_to_index_mapping) (current_char_index l))
    as [ch Hch]; [lia|].
  exists ch. split; [assumption|]. now rewrite Hch.
Qed.

Lemma run_batches_fixtures {t : traced} use_soft_labels w n :
  fixtures (fst (run_batches t use_soft_labels w n)) = fixtures w.
Proof.
  unfold run_batches.
  destruct (iterate (_dataset_loader w) (_dataset w)) as [batches ld].
  now rewrite train_batches_fixtures.
Qed.

Lemma unlock_datetime e w l w1 l1 :
  unlock e w l = Ok (w1, l1) -> _current_datetime w1 = _current_datetime w.
Proof.
  unfold unlock.
  destruct (py_mod e add_character_every) as [r|]; cbn [bind]; [|discriminate].
  destruct ((r =? 0) && (current_char_index l <? NUM_CHARS)).
  - destruct (py_index _ _) as [ch|]; cbn [bind]; [|discriminate].
    intros H. injection H as <- _. reflexivity.
  - intros H. injection H as <- _. reflexivity.
Qed.

Lemma train_epoch_after_unlock use_soft_labels e w l w1 l1 :
  save_every <> 0 -> produce_every <> 0 -> can_save w ->
  unlock e w l = Ok (w1, l1) ->
  exists w' n,
    train_epoch use_soft_labels e (w, l) = Ok (w', with_step n l1).
Proof.
  intros Hs Hp Hw0 HU.
  assert (Hw : can_save w1)
    by exact (can_save_same _ _ (unlock_datetime _ _ _ _ _ HU) Hw0).
  unfold train_epoch. cbn [fst snd]. rewrite HU.
  cbn [bind fst snd].
  destruct (end_epoch_ok e
              (fst (run_batches (jit l1) use_soft_labels (begin_epoch w1) (step l1)))
              (with_step
                 (snd (run_batches (jit l1) use_soft_labels (begin_epoch w1)
                         (step l1))) l1)
              Hs Hp) as [w' Hw'].
  { apply (can_save_same w1); [|exact Hw].
    now destruct (fixtures_eq _ _ (run_batches_fixtures (t:=jit l1)
                    use_soft_labels (begin_epoch w1) (step l1))) as [-> _]. }
  rewrite Hw'. cbn [bind]. eauto.
Qed.

(** One epoch moves the cursor as its curriculum check does. *)
Lemma train_epoch_cursor use_soft_labels e w l :
  add_character_every <> 0 -> save_every <> 0 -> produce_every <> 0 ->
  NUM_CHARS <= Z.of_nat (List.length (keys character_to_index_mapping)) ->
  0 <= current_char_index l -> can_save w ->
  exists w' l',
    train_epoch use_soft_labels e (w, l) = Ok (w', l') /\
    (current_char_index l' = current_char_index l + 1 <->
       e mod add_character_every = 0 /\ current_char_index l < NUM_CHARS) /\
    (current_char_index l' = current_char_index l \/
     current_char_index l' = current_char_index l + 1).
Proof.
  intros HK Hs Hp HN Hc Hw.
  destruct (unlock_spec e w l HK HN Hc) as [(E & L & ch & _ & HU)|[NE HU]];
    destruct (train_epoch_after_unlock use_soft_labels e w l _ _ Hs Hp Hw HU)
      as (w' & n & HT);
    eexists _, _; (split; [exact HT|]); cbn [current_char_index with_step with_cursor].
  - split; [|now right]. split; [now intros _|reflexivity].
  - split; [|now left]. split; [lia|]. intros H. now destruct NE.
Qed.

(** An epoch keeps the timestamp. *)
Lemma fold_left_datetime {A} (f : state -> A -> state) (xs : list A) :
  (forall w a, _current_datetime (f w a) = _current_datetime w) ->
  forall w, _current_datetime (fold_left f xs w) = _current_datetime w.
Proof.
  intros Hf. induction xs as [|x xs IH]; intros w; [reflexivity|].
  cbn [fold_left]. now rewrite IH, Hf.
Qed.

Lemma visualize_datetime e w l :
  _current_datetime (visualize e w l) = _current_datetime w.
Proof.
  assert (Hs : forall pop w,
            _current_datetime
              (fold_left (fun w i => random_sample e pop i w)
                 (seq 0 (Z.to_nat num_characters_to_generate)) w)
            = _current_datetime w).
  { intros pop. apply fold_left_datetime. intros w0 i. unfold random_sample.
    destruct (choice " " pop (numpy_random w0)) as [ch r].
    destruct (choice 0 [0; 1] r) as [st r']. state_simpl.
    destruct (generate _ _ _ _ _) as [image r'']. reflexivity. }
  unfold visualize, random_samples.
  assert (Hg : _current_datetime (fixed_grid e (G_eval w) l)
               = _current_datetime w).
  { unfold fixed_grid, log_fixed.
    rewrite !fold_left_datetime by (intros; reflexivity). reflexivity. }
  destruct (random_characters_to_generate _); [exact Hg|].
  now rewrite Hs.
Qed.

Lemma end_epoch_datetime e w l w' :
  end_epoch e w l = Ok w' -> _current_datetime w' = _current_datetime w.
Proof.
  unfold end_epoch.
  destruct (py_mod e save_every) as [r|]; cbn [bind]; [|discriminate].
  assert (H : forall w1, (if r =? 0 then checkpoint w else Ok w) = Ok w1 ->
                         _current_datetime w1 = _current_datetime w).
  { intros w1. destruct (r =? 0).
    - intros [_ ->]%checkpoint_inv. reflexivity.
    - intros E. now injection E as <-. }
  destruct (if r =? 0 then checkpoint w else Ok w) as [w1|]; cbn [bind];
    [|discriminate].
  specialize (H w1 eq_refl).
  destruct (py_mod e produce_every) as [r'|]; cbn [bind]; [|discriminate].
  intros E. injection E as <-.
  destruct (r' =? 0); [now rewrite visualize_datetime | exact H].
Qed.

Lemma train_epoch_datetime use_soft_labels e w l w' l' :
  train_epoch use_soft_labels e (w, l) = Ok (w', l') ->
  _current_datetime w' = _current_datetime w.
Proof.
  unfold train_epoch. cbn [fst snd].
  destruct (unlock e w l) as [[w1 l1]|] eqn:HU; cbn [bind fst snd];
    [|discriminate].
  destruct (end_epoch _ _ _) as [w2|] eqn:HE; cbn [bind]; [|discriminate].
  intros E. injection E as <- _.
  rewrite (end_epoch_datetime _ _ _ _ HE).
  destruct (fixtures_eq _ _ (run_batches_fixtures (t:=jit l1)
              use_soft_labels (begin_epoch w1) (step l1))) as [-> _].
  exact (unlock_datetime _ _ _ _ _ HU).
Qed.

Lemma epochs_cursor use_soft_labels es :
  add_character_every <> 0 -> save_every <> 0 -> produce_every <> 0 ->
  NUM_CHARS <= Z.of_nat (List.length (keys character_to_index_mapping)) ->
  forall w l,
    0 <= current_char_index l -> can_save w ->
    exists w' l',
      epochs use_soft_labels es (w, l) = Ok (w', l') /\
      current_char_index l <= current_char_index l' /\
      (current_char_index l <= NUM_CHARS -> current_char_index l' <= NUM_CHARS).
Proof.
  intros HK Hs Hp HN.
  induction es as [|e es IH]; intros w l Hc Hw.
  - exists w, l. cbn [epochs]. split; [reflexivity|]. split; [lia|auto].
  - destruct (train_epoch_cursor use_soft_labels e w l HK Hs Hp HN Hc Hw)
      as (w1 & l1 & HT & Hiff & Hor).
    destruct (IH w1 l1) as (w' & l' & HE & Hle & Hbound); [lia| |].
    { exact (can_save_same _ _ (train_epoch_datetime _ _ _ _ _ _ HT) Hw). }
    exists w', l'. cbn [epochs]. rewrite HT. cbn [bind].
    split; [exact HE|]. split; [lia|].
    intros Hb. apply Hbound.
    destruct Hor as [->| Hplus]; [assumption|].
    apply Hiff in Hplus. lia.
Qed.

(** C2: when nothing raises (the cadences are non-zero, the key list has
    [NUM_CHARS] entries or more and the two paths of the checkpoint can be
    written), an epoch returns, and its curriculum
    check leaves the cursor where it was or advances it by one; it advances
    iff the epoch number is divisible by [add_character_every] and the
    cursor is below [NUM_CHARS], and it then hands the newly unlocked key to
    the dataset; with the cursor at [NUM_CHARS] or beyond the check changes
    nothing; over any sequence of epochs a cursor that starts at or below
    [NUM_CHARS] never exceeds it. *)
Theorem curriculum_cursor (use_soft_labels : bool) (e : Z) (w : state)
    (l : locals) :
  add_character_every <> 0 -> save_every <> 0 -> produce_every <> 0 ->
  NUM_CHARS <= Z.of_nat (List.length (keys character_to_index_mapping)) ->
  0 <= current_char_index l -> can_save w ->
  (exists w1 l1 w' l',
     unlock e w l = Ok (w1, l1) /\
     train_epoch use_soft_labels e (w, l) = Ok (w', l') /\
     current_char_index l' = current_char_index l1 /\
     (current_char_index l' = current_char_index l \/
      current_char_index l' = current_char_index l + 1) /\
     (current_char_index l' = current_char_index l + 1 <->
        e mod add_character_every = 0 /\ current_char_index l < NUM_CHARS) /\
     (current_char_index l' = current_char_index l + 1 ->
        exists ch,
          py_index (keys character_to_index_mapping) (current_char_index l) = Ok ch /\
          _dataset w1 = add_character_to_training (_dataset w) ch /\
          calls w1 = (calls w ++ [add_character ch])%list) /\
     (NUM_CHARS <= current_char_index l -> (w1, l1) = (w, l)) /\
     (current_char_index l <= NUM_CHARS -> current_char_index l' <= NUM_CHARS)) /\
  (forall es, exists w' l',
     epochs use_soft_labels es (w, l) = Ok (w', l') /\
     (current_char_index l <= NUM_CHARS -> current_char_index l' <= NUM_CHARS)).
Proof.
  intros HK Hs Hp HN Hc Hw. split.
  - destruct (unlock_spec e w l HK HN Hc) as [(E & L & ch & Hch & HU)|[NE HU]];
      destruct (train_epoch_after_unlock use_soft_labels e w l _ _ Hs Hp Hw HU)
        as (w' & n & HT);
      eexists _, _, _, _; (split; [exact HU|]); (split; [exact HT|]);
      cbn [current_char_index with_step with_cursor].
    + split; [reflexivity|]. split; [now right|].
      split; [split; [now intros _|reflexivity]|].
      split; [intros _; exists ch; now repeat split|].
      split; [lia|lia].
    + split; [reflexivity|]. split; [now left|].
      split; [split; [lia|intros H; now destruct NE]|].
      split; [lia|]. split; [reflexivity|auto].
  - intros es.
    destruct (epochs_cursor use_soft_labels es HK Hs Hp HN w l Hc Hw)
      as (w' & l' & HE & _ & Hb).
    now exists w', l'.
Qed.

(** *** Calls recorded between two states *)

Lemma emits_refl P w : emits P w w.
Proof. exists []. split; [now rewrite app_nil_r | contradiction]. Qed.

Lemma emits_trans P w1 w2 w3 :
  emits P w1 w2 -> emits P w2 w3 -> emits P w1 w3.
Proof.
  intros (e1 & H1 & P1) (e2 & H2 & P2). exists (e1 ++ e2)%list. split.
  - now rewrite H2, H1, <- app_assoc.
  - intros c [H|H]%in_app_or; auto.
Qed.

Lemma emits_log (P : call -> Prop) c w : P c -> emits P w (log c w).
Proof.
  intros H. exists [c]. split; [reflexivity|].
  intros c' [<-|[]]. exact H.
Qed.

Lemma emits_same P w w' : calls w' = calls w -> emits P w w'.
Proof.
  intros H. exists []. split; [now rewrite app_nil_r | contradiction].
Qed.

Lemma emits_list (P : call -> Prop) w w' evs :
  calls w' = (calls w ++ evs)%list -> (forall c, In c evs -> P c) ->
  emits P w w'.
Proof. intros H HP. now exists evs. Qed.

Lemma emits_weaken (P Q : call -> Prop) w w' :
  (forall c, P c -> Q c) -> emits P w w' -> emits Q w w'.
Proof. intros H (evs & E & HP). exists evs. split; auto. Qed.

(** A loop whose body records [P]-calls and keeps [Inv] records
    [P]-calls and keeps [Inv]. *)
Lemma fold_left_emits {A} (P : call -> Prop) (Inv : state -> Prop)
    (f : state -> A -> state) (xs : list A) :
  (forall w x, Inv w -> emits P w (f w x) /\ Inv (f w x)) ->
  forall w, Inv w -> emits P w (fold_left f xs w) /\ Inv (fold_left f xs w).
Proof.
  intros Hf. induction xs as [|x xs IH]; intros w HI; cbn [fold_left].
  - split; [apply emits_refl | assumption].
  - destruct (Hf w x HI) as [E1 I1]. destruct (IH _ I1) as [E2 I2].
    split; [eapply emits_trans; eassumption | assumption].
Qed.

Lemma train_batches_emits {t : traced} use_soft_labels (P : call -> Prop)
    (Inv : state -> Prop) batches :
  (forall b w n, Inv w ->
     emits P w (fst (train_batch t use_soft_labels b (w, n))) /\
     Inv (fst (train_batch t use_soft_labels b (w, n)))) ->
  forall w n, Inv w ->
    emits P w (fst (train_batches t use_soft_labels batches (w, n))) /\
    Inv (fst (train_batches t use_soft_labels batches (w, n))).
Proof.
  intros Hf. unfold train_batches.
  induction batches as [|b batches IH]; intros w n HI; cbn [fold_left].
  - split; [apply emits_refl | assumption].
  - destruct (Hf b w n HI) as [E1 I1].
    destruct (train_batch t use_soft_labels b (w, n)) as [w1 n1].
    cbn [fst] in E1, I1. destruct (IH w1 n1 I1) as [E2 I2].
    split; [eapply emits_trans; eassumption | assumption].
Qed.

(** *** The visualisation *)

Lemma log_fixed_calls suffix e images letters w :
  calls (log_fixed suffix e images letters w)
  = (calls w
     ++ map (fun il : Image * string =>
               add_image ("Fixed latent points/" ++ snd il ++ suffix)
                 (finalizing_transform (fst il)) e)
            (combine images letters))%list.
Proof.
  unfold log_fixed. revert w.
  induction (combine images letters) as [|il ils IH]; intros w;
    cbn [fold_left map].
  - now rewrite app_nil_r.
  - rewrite IH. cbn [calls log]. now rewrite <- app_assoc.
Qed.

Lemma rest_fixtures w w' : rest w' = rest w -> fixtures w' = fixtures w.
Proof. unfold rest, fixtures. intros H. now inversion H. Qed.

Lemma log_fixed_rest suffix e images letters w :
  rest (log_fixed suffix e images letters w) = rest w.
Proof.
  unfold log_fixed. revert w.
  induction (combine images letters) as [|il ils IH]; intros w;
    cbn [fold_left]; [reflexivity|].
  now rewrite IH.
Qed.

Lemma fixed_grid_calls e w l :
  calls (fixed_grid e w l)
  = (calls w ++ forward Generator (G_traced_mode (jit l))
       :: grid_records e (fixed_images w l) (letters_to_watch l))%list.
Proof.
  unfold fixed_grid, grid_records.
  rewrite !log_fixed_calls. cbn [calls log].
  now rewrite <- !app_assoc.
Qed.

Lemma fixed_grid_rest e w l : rest (fixed_grid e w l) = rest w.
Proof. unfold fixed_grid. now rewrite !log_fixed_rest. Qed.

Lemma choice_In {A} (d : A) (l : list A) (r : Rng) :
  l <> [] -> In (fst (choice d l r)) l.
Proof.
  intros Hl. unfold choice, draw. cbn [fst].
  apply nth_In. apply Nat.mod_upper_bound.
  destruct l; [contradiction | discriminate].
Qed.

Lemma choice_possible {A} (d : A) (l : list A) (a : A) :
  In a l -> exists r, fst (choice d l r) = a.
Proof.
  intros H. destruct (In_nth l a d H) as (i & Hi & Hnth).
  exists (mkRng (fun _ => i) 0). unfold choice, draw. cbn [fst source position].
  now rewrite Nat.mod_small.
Qed.

(** One random sample: a character of the population, a style in
    [{0, 1}], a call to [generate] and one figure. *)
Lemma random_sample_spec e population i w :
  population <> [] ->
  let ch := fst (choice " " population (numpy_random w)) in
  exists st fig,
    In ch population /\ (st = 0 \/ st = 1) /\
    calls (random_sample e population i w)
    = (calls w
       ++ [call_generate (training (_G w)) (" ", ch, " ") st;
           add_figure ("Random characters/" ++ str_of_nat i) fig e])%list /\
    fixtures (random_sample e population i w) = fixtures w.
Proof.
  intros Hp ch. pose proof (choice_In " " population (numpy_random w) Hp) as Hin.
  fold ch in Hin. unfold random_sample.
  destruct (choice " " population (numpy_random w)) as [ch' r] eqn:E.
  cbn [fst] in ch, Hin. subst ch.
  pose proof (choice_In 0 [0; 1] r ltac:(discriminate)) as Hst.
  destruct (choice 0 [0; 1] r) as [st r'].
  cbn [fst] in Hst. state_simpl.
  destruct (generate (params (_G w)) (training (_G w)) (" ", ch', " ") st r')
    as [image r''].
  state_simpl. eexists st, _. split; [assumption|]. split.
  - destruct Hst as [<-|[<-|[]]]; [now left | now right].
  - split; [now rewrite <- app_assoc | reflexivity].
Qed.

Lemma random_samples_emits (P : call -> Prop) e w l :
  (forall ch st,
     In ch (random_characters_to_generate (current_char_index l)) ->
     st = 0 \/ st = 1 ->
     P (call_generate (training (_G w)) (" ", ch, " ") st)) ->
  (forall tag fig, P (add_figure tag fig e)) ->
  emits P w (random_samples e w l) /\
  fixtures (random_samples e w l) = fixtures w.
Proof.
  intros Hgen Hfig. unfold random_samples.
  destruct (random_characters_to_generate (current_char_index l))
    as [|c0 pop] eqn:E; [split; [apply emits_refl | reflexivity]|].
  apply (fold_left_emits P (fun w' => fixtures w' = fixtures w)); [|reflexivity].
  intros w' i Hw'.
  destruct (random_sample_spec e (c0 :: pop) i w' ltac:(discriminate))
    as (st & fig & Hin & Hst & Hcalls & Hfix).
  split; [|now rewrite Hfix].
  eapply emits_list; [exact Hcalls|].
  destruct (fixtures_eq _ _ Hw') as (_ & _ & HG & _).
  intros c [<-|[<-|[]]]; [|apply Hfig].
  rewrite HG. now apply Hgen.
Qed.

Lemma random_characters_spec cursor ch :
  In ch (random_characters_to_generate cursor) <->
  ch = " " \/
  exists idx, In (ch, idx) character_to_index_mapping /\ idx < cursor - 1.
Proof.
  unfold random_characters_to_generate.
  rewrite in_app_iff, in_map_iff. split.
  - intros [([k v] & <- & [Hin Hlt]%List.filter_In)|[<-|[]]]; [right|now left].
    exists v. split; [assumption|]. cbn [snd] in Hlt. lia.
  - intros [->|(idx & Hin & Hlt)]; [right; now left|left].
    exists (ch, idx). split; [reflexivity|].
    apply List.filter_In. split; [assumption|]. cbn [snd]. lia.
Qed.

Lemma G_eval_fixtures w :
  _current_datetime (G_eval w) = _current_datetime w /\
  files (G_eval w) = files w /\
  training (_G (G_eval w)) = false /\
  params (_G (G_eval w)) = params (_G w) /\
  calls (G_eval w) = (calls w ++ [set_eval Generator])%list.
Proof. now repeat split. Qed.

(** The calls of a visualisation: the switch to evaluation mode, then the
    fixed grid, computed by the traced generator, then the random samples,
    for which [generate] reads the generator in evaluation mode; [P] holds
    of each. *)
Lemma visualize_emits (P : call -> Prop) e w l :
  P (set_eval Generator) ->
  P (forward Generator (G_traced_mode (jit l))) ->
  (forall tag img, P (add_image tag img e)) ->
  (forall ch st,
     In ch (random_characters_to_generate (current_char_index l)) ->
     st = 0 \/ st = 1 ->
     P (call_generate false (" ", ch, " ") st)) ->
  (forall tag fig, P (add_figure tag fig e)) ->
  emits P w (visualize e w l) /\
  training (_G (visualize e w l)) = false /\
  _current_datetime (visualize e w l) = _current_datetime w /\
  files (visualize e w l) = files w.
Proof.
  intros Heval Hfwd Himg Hgen Hfig. unfold visualize.
  destruct (fixtures_eq _ _ (rest_fixtures _ _ (fixed_grid_rest e (G_eval w) l)))
    as (Hdt & Hfiles & HG & _).
  assert (HG' : training (_G (fixed_grid e (G_eval w) l)) = false) by exact HG.
  destruct (random_samples_emits P e (fixed_grid e (G_eval w) l) l)
    as [HE HF]; [rewrite HG'; exact Hgen | exact Hfig |].
  destruct (fixtures_eq _ _ HF) as (Hdt' & Hfiles' & HG'' & _).
  split; [|split; [now rewrite HG''|split; [now rewrite Hdt', Hdt|now rewrite Hfiles', Hfiles]]].
  eapply emits_trans; [|exact HE].
  eapply emits_trans; [apply (emits_log P (set_eval Generator)); exact Heval|].
  eapply emits_list; [apply (fixed_grid_calls e (G_eval w) l)|].
  intros c [<-|Hc]; [exact Hfwd|].
  unfold grid_records in Hc.
  apply in_app_or in Hc as [Hc|Hc]; apply in_map_iff in Hc as (il & <- & _);
    apply Himg.
Qed.

(** C6 (as amended): at a visualisation, each random sample is generated
    for the triple (blank, character, blank) whose character is taken from
    the list made of the keys whose index is below the cursor minus one,
    followed by the blank; the blank is always in that list, and every
    member of the list is the character of a sample for some state of the
    random generator. *)
Theorem random_sample_population (e : Z) (w : state) (l : locals) :
  let population := random_characters_to_generate (current_char_index l) in
  (forall ch,
     In ch population <->
     ch = " " \/
     exists idx, In (ch, idx) character_to_index_mapping /\
                 idx < current_char_index l - 1) /\
  emits (fun c =>
           match c with
           | call_generate _ (prev, ch, next) _ =>
               prev = " " /\ next = " " /\ In ch population
           | _ => True
           end) w (visualize e w l) /\
  (forall ch i,
     In ch population ->
     exists r st,
       In (call_generate (training (_G w)) (" ", ch, " ") st)
          (calls (random_sample e population i (with_random r w)))).
Proof.
  intros population. split; [|split].
  - intros ch. apply random_characters_spec.
  - apply visualize_emits; try (intros; exact I); try exact I.
    intros ch st Hin _. now repeat split.
  - intros ch i Hin.
    destruct (choice_possible " " population ch Hin) as [r Hr].
    assert (Hne : population <> []) by (intros E; rewrite E in Hin; contradiction).
    destruct (random_sample_spec e population i (with_random r w) Hne)
      as (st & fig & _ & _ & Hcalls & _).
    exists r, st. rewrite Hcalls. apply in_or_app. right. left.
    cbn [numpy_random with_random _G]. now rewrite Hr.
Qed.

(** *** Modes *)

Lemma run_batches_emits {t : traced} use_soft_labels (P : call -> Prop) w n :
  (forall c, match c with
             | forward Generator m => m = G_traced_mode t
             | forward Discriminator m => m = D_traced_mode t
             | set_train _ | set_eval _ | jit_trace _ | torch_save _
             | call_generate _ _ _ | add_image _ _ _ | add_figure _ _ _
             | add_character _ => False
             | _ => True
             end -> P c) ->
  emits P w (fst (run_batches t use_soft_labels w n)) /\
  fixtures (fst (run_batches t use_soft_labels w n)) = fixtures w.
Proof.
  intros HP. unfold run_batches.
  destruct (iterate (_dataset_loader w) (_dataset w)) as [batches ld].
  destruct (train_batches_emits (t:=t) use_soft_labels P
              (fun w' => fixtures w' = fixtures w) batches) with
    (w := with_loader ld w) (n := n) as [HE HI]; [|reflexivity|].
  - intros b w' n' Hw'. split; [|now rewrite train_batch_fixtures].
    eapply emits_list; [apply train_batch_batch_calls|].
    intros c Hc. apply HP.
    apply batch_calls_kinds in Hc. exact Hc.
  - split; [|exact HI].
    eapply emits_trans; [apply emits_same; reflexivity | exact HE].
Qed.

(** The generator's mode after an epoch. *)
Lemma train_epoch_mode use_soft_labels e w l w' l' :
  train_epoch use_soft_labels e (w, l) = Ok (w', l') ->
  training (_G w') = negb (e mod produce_every =? 0).
Proof.
  unfold train_epoch. cbn [fst snd].
  destruct (unlock e w l) as [[w1 l1]|] eqn:HU; cbn [bind fst snd]; [|discriminate].
  set (wn := run_batches (jit l1) use_soft_labels (begin_epoch w1) (step l1)).
  pose proof (run_batches_fixtures (t:=jit l1) use_soft_labels (begin_epoch w1)
                (step l1)) as HF.
  fold wn in HF. destruct (fixtures_eq _ _ HF) as (_ & _ & HG & _).
  destruct (end_epoch _ _ _) as [w2|] eqn:HE; cbn [bind]; [|discriminate].
  intros H. injection H as <- _.
  apply end_epoch_cases in HE as (_ & _ & w3 & Hsave & Hshow).
  assert (HG3 : training (_G w3) = true).
  { destruct Hsave as [[_ ->]|(_ & _ & ->)]; exact HG. }
  destruct Hshow as [[Ep ->]|[Ep ->]].
  - apply Z.eqb_neq in Ep. now rewrite Ep.
  - rewrite Ep. cbn [Z.eqb negb].
    apply (visualize_emits (fun _ => True)); auto.
Qed.

(** The calls of the end of an epoch: saves, then the visualisation. *)
Lemma end_epoch_emits e w l w' :
  end_epoch e w l = Ok w' ->
  emits (fun c =>
           match c with
           | torch_save _ | set_eval Generator | forward Generator _
           | add_image _ _ _ | add_figure _ _ _
           | call_generate false _ _ => True
           | _ => False
           end) w w'.
Proof.
  intros (_ & _ & w1 & Hsave & Hshow)%end_epoch_cases.
  eapply emits_trans.
  - destruct Hsave as [[_ ->]|(_ & _ & ->)]; [apply emits_refl|].
    eapply emits_list.
    + unfold written. cbn [calls log with_files].
      rewrite <- app_assoc. reflexivity.
    + intros c [<-|[<-|[]]]; exact I.
  - destruct Hshow as [[_ ->]|[_ ->]]; [apply emits_refl|].
    apply visualize_emits; intros; exact I.
Qed.

(** C9 (as amended): a visualisation first switches the generator to
    evaluation mode and then, producing the fixed grid and the random
    samples, switches no mode: [generate] reads the generator in evaluation
    mode; nothing in the visualisation switches the generator back, so an
    epoch returns with the generator in evaluation mode iff it ends with a
    visualisation; the switch back to training mode is made at the start of
    the next epoch, after its curriculum check (which may first hand a
    character to the dataset) and before all the calls of its batches, and
    no mode is switched between that switch and the end of the batches. *)
Theorem visualization_modes (use_soft_labels : bool) (e : Z) (w : state)
    (l : locals) :
  (exists evs,
     calls (visualize e w l) = (calls w ++ set_eval Generator :: evs)%list /\
     forall c, In c evs ->
       match c with
       | call_generate m _ _ => m = false
       | forward Generator _ | add_image _ _ _ | add_figure _ _ _ => True
       | _ => False
       end) /\
  training (_G (visualize e w l)) = false /\
  (forall w' l',
     train_epoch use_soft_labels e (w, l) = Ok (w', l') ->
     training (_G w') = negb (e mod produce_every =? 0) /\
     exists pre batches_evs end_evs,
       calls w'
       = (calls w ++ pre ++ [set_train Generator; set_train Discriminator]
          ++ batches_evs ++ end_evs)%list /\
       (pre = [] \/ exists ch, pre = [add_character ch]) /\
       (forall c, In c batches_evs ->
          match c with
          | optim_zero_grad _ | forward _ _ | loss_backward _ | optim_step _
          | add_scalar _ _ _ => True
          | _ => False
          end) /\
       (forall c, In c end_evs ->
          match c with
          | torch_save _ | set_eval Generator | forward Generator _
          | add_image _ _ _ | add_figure _ _ _
          | call_generate false _ _ => True
          | _ => False
          end)).
Proof.
  split; [|split].
  - unfold visualize.
    destruct (fixtures_eq _ _ (rest_fixtures _ _ (fixed_grid_rest e (G_eval w) l)))
      as (_ & _ & HG & _).
    assert (HG' : training (_G (fixed_grid e (G_eval w) l)) = false) by exact HG.
    destruct (random_samples_emits
                (fun c => match c with
                          | call_generate m _ _ => m = false
                          | forward Generator _ | add_image _ _ _
                          | add_figure _ _ _ => True
                          | _ => False
                          end)
                e (fixed_grid e (G_eval w) l) l)
      as [(evs & Hevs & HP) _]; [now rewrite HG' | intros; exact I |].
    exists (forward Generator (G_traced_mode (jit l))
              :: grid_records e (fixed_images (G_eval w) l) (letters_to_watch l)
              ++ evs)%list.
    split.
    + rewrite Hevs, fixed_grid_calls. cbn [calls G_eval log].
      rewrite <- !app_assoc. reflexivity.
    + intros c [<-|[Hc|Hc]%in_app_or]; [exact I| |now apply HP].
      unfold grid_records in Hc.
      apply in_app_or in Hc as [Hc|Hc];
        apply in_map_iff in Hc as (il & <- & _); exact I.
  - apply (visualize_emits (fun _ => True)); auto.
  - intros w' l' HT. split; [exact (train_epoch_mode _ _ _ _ _ _ HT)|].
    revert HT. unfold train_epoch. cbn [fst snd].
    destruct (unlock e w l) as [[w1 l1]|] eqn:HU; cbn [bind fst snd];
      [|discriminate].
    destruct (end_epoch _ _ _) as [w2|] eqn:HE; cbn [bind]; [|discriminate].
    intros H. injection H as <- _.
    apply end_epoch_emits in HE as (end_evs & Hend & Pend).
    destruct (run_batches_emits (t:=jit l1) use_soft_labels
                (fun c => match c with
                          | optim_zero_grad _ | forward _ _ | loss_backward _
                          | optim_step _ | add_scalar _ _ _ => True
                          | _ => False
                          end) (begin_epoch w1) (step l1))
      as [(batches_evs & Hbatches & Pbatches) _].
    { intros [] H; try exact I; contradiction. }
    assert (Hpre : exists pre, calls w1 = (calls w ++ pre)%list /\
                               (pre = [] \/ exists ch, pre = [add_character ch])).
    { revert HU. unfold unlock.
      destruct (py_mod e add_character_every) as [r|]; cbn [bind]; [|discriminate].
      destruct ((r =? 0) && (current_char_index l <? NUM_CHARS)).
      - destruct (py_index _ _) as [ch|]; cbn [bind]; [|discriminate].
        intros H. injection H as <- _. exists [add_character ch].
        split; [reflexivity | right; now exists ch].
      - intros H. injection H as <- _. exists [].
        split; [now rewrite app_nil_r | now left]. }
    destruct Hpre as (pre & Hpre & Hcases).
    exists pre, batches_evs, end_evs.
    split; [|split; [exact Hcases | split; [exact Pbatches | exact Pend]]].
    rewrite Hend, Hbatches. unfold begin_epoch. cbn [calls log with_G with_D].
    rewrite Hpre, <- !app_assoc. reflexivity.
Qed.

(** *** Checkpoints *)

Lemma unlock_cases e w l w1 l1 :
  unlock e w l = Ok (w1, l1) ->
  (w1 = w /\ l1 = l) \/
  exists ch,
    w1 = log (add_character ch)
           (with_dataset (add_character_to_training (_dataset w) ch) w) /\
    l1 = with_cursor (current_char_index l + 1) l.
Proof.
  unfold unlock.
  destruct (py_mod e add_character_every) as [r|]; cbn [bind]; [|discriminate].
  destruct ((r =? 0) && (current_char_index l <? NUM_CHARS)).
  - destruct (py_index _ _) as [ch|]; cbn [bind]; [|discriminate].
    intros H. injection H as <- <-. right. now exists ch.
  - intros H. injection H as <- <-. now left.
Qed.

Lemma scoped_refl w : scoped w w.
Proof. split; [reflexivity|]. split; [apply emits_refl|reflexivity]. Qed.

Lemma paths_eq w w' :
  _current_datetime w' = _current_datetime w ->
  G_path w' = G_path w /\ D_path w' = D_path w.
Proof.
  intros H. split; [exact (f_equal (model_path "G") H)
                   | exact (f_equal (model_path "D") H)].
Qed.

Lemma scoped_trans w1 w2 w3 : scoped w1 w2 -> scoped w2 w3 -> scoped w1 w3.
Proof.
  intros (D1 & E1 & F1) (D2 & E2 & F2).
  destruct (paths_eq _ _ D1) as [PG PD].
  split; [exact (eq_trans D2 D1)|]. split.
  - eapply emits_trans; [exact E1|].
    exact (eq_ind _ (fun d => emits (saves_under d) w2 w3) E2 _ D1).
  - intros path HG HD.
    rewrite <- PG in HG. rewrite <- PD in HD.
    exact (eq_trans (F2 path HG HD) (F1 path ltac:(now rewrite <- PG) ltac:(now rewrite <- PD))).
Qed.

Lemma scoped_quiet w w' :
  _current_datetime w' = _current_datetime w -> files w' = files w ->
  emits (saves_under (_current_datetime w)) w w' -> scoped w w'.
Proof. intros Hd Hf He. split; [|split]; auto. intros. now rewrite Hf. Qed.

Lemma written_files w :
  files (written w)
  = <[D_path w := pickled_D (params (_D w)) (training (_D w))]>
      (<[G_path w := pickled_G (params (_G w)) (training (_G w))]> (files w)).
Proof. reflexivity. Qed.

Lemma written_calls w :
  calls (written w)
  = (calls w ++ [torch_save (G_path w); torch_save (D_path w)])%list.
Proof.
  unfold written. cbn [calls log with_files]. now rewrite <- app_assoc.
Qed.

Lemma written_scoped w : scoped w (written w).
Proof.
  split; [reflexivity|]. split.
  - exists [torch_save (G_path w); torch_save (D_path w)]. split.
    + apply written_calls.
    + intros c [<-|[<-|[]]]; [now left | now right].
  - intros path HG HD. rewrite written_files.
    rewrite lookup_insert_ne by congruence.
    now rewrite lookup_insert_ne by congruence.
Qed.

Lemma end_epoch_scoped e w l w' : end_epoch e w l = Ok w' -> scoped w w'.
Proof.
  intros (_ & _ & w1 & Hsave & Hshow)%end_epoch_cases.
  assert (S1 : scoped w w1).
  { destruct Hsave as [[_ ->]|(_ & _ & ->)];
      [apply scoped_refl | apply written_scoped]. }
  apply (scoped_trans _ _ _ S1).
  destruct Hshow as [[_ ->]|[_ ->]]; [apply scoped_refl|].
  destruct (visualize_emits (saves_under (_current_datetime w1)) e w1 l)
    as (HE & _ & Hd & Hf); try (intros; exact I); try exact I.
  now apply scoped_quiet.
Qed.

Lemma train_epoch_scoped use_soft_labels e w l w' l' :
  train_epoch use_soft_labels e (w, l) = Ok (w', l') -> scoped w w'.
Proof.
  unfold train_epoch. cbn [fst snd].
  destruct (unlock e w l) as [[w1 l1]|] eqn:HU; cbn [bind fst snd]; [|discriminate].
  assert (S1 : scoped w w1).
  { apply unlock_cases in HU as [[-> _]|(ch & -> & _)]; [apply scoped_refl|].
    apply scoped_quiet; try reflexivity.
    eapply emits_list; [reflexivity|]. intros c [<-|[]]. exact I. }
  assert (S2 : scoped w1 (begin_epoch w1)).
  { apply scoped_quiet; try reflexivity.
    apply (emits_list _ _ _ [set_train Generator; set_train Discriminator]).
    - unfold begin_epoch. cbn [calls log with_G with_D].
      now rewrite <- app_assoc.
    - intros c [<-|[<-|[]]]; exact I. }
  set (w2 := begin_epoch w1) in *.
  assert (S3 : scoped w2 (fst (run_batches (jit l1) use_soft_labels w2 (step l1)))).
  { destruct (run_batches_emits (t:=jit l1) use_soft_labels
                (saves_under (_current_datetime w2)) w2 (step l1)) as [HE HF].
    - intros c Hc. destruct c; try exact I. contradiction.
    - destruct (fixtures_eq _ _ HF) as (Hd & Hf & _).
      now apply scoped_quiet. }
  set (w3 := fst (run_batches (jit l1) use_soft_labels w2 (step l1))) in *.
  set (l3 := with_step _ l1).
  destruct (end_epoch e w3 l3) as [w4|] eqn:HE; cbn [bind]; [|discriminate].
  intros H. injection H as <- _.
  apply (scoped_trans _ _ _ S1). apply (scoped_trans _ _ _ S2).
  apply (scoped_trans _ _ _ S3).
  exact (end_epoch_scoped _ _ _ _ HE).
Qed.

Lemma epochs_scoped use_soft_labels es :
  forall w l w' l',
    epochs use_soft_labels es (w, l) = Ok (w', l') -> scoped w w'.
Proof.
  induction es as [|e es IH]; intros w l w' l'; cbn [epochs].
  - intros H. injection H as <- _. apply scoped_refl.
  - destruct (train_epoch use_soft_labels e (w, l)) as [[w1 l1]|] eqn:HT;
      cbn [bind]; [|discriminate].
    intros HE. eapply scoped_trans.
    + eapply train_epoch_scoped. exact HT.
    + eapply IH. exact HE.
Qed.

Lemma prepare_cases next_letter_to_add w w0 l0 :
  prepare next_letter_to_add w = Ok (w0, l0) ->
  exists i m,
    dict_get character_to_index_mapping next_letter_to_add = Ok i /\
    cuda_memory_allocated = Ok m /\ snd rectangle_shape <> 0 /\
    (w0, l0) = prepared i w.
Proof.
  unfold prepare, py_floordiv.
  destruct (dict_get _ _) as [i|]; cbn [bind]; [|discriminate].
  destruct cuda_memory_allocated as [m|]; cbn [bind]; [|discriminate].
  destruct (Z.eqb_spec (snd rectangle_shape) 0) as [|Hr]; cbn [bind];
    [discriminate|].
  unfold randn, draw. cbn [fst snd]. intros H. injection H as <- <-.
  now exists i, m.
Qed.

Lemma prepare_ok next_letter_to_add w i m :
  dict_get character_to_index_mapping next_letter_to_add = Ok i ->
  cuda_memory_allocated = Ok m -> snd rectangle_shape <> 0 ->
  prepare next_letter_to_add w = Ok (prepared i w).
Proof.
  intros Hget Hcuda Hr. unfold prepare, py_floordiv.
  rewrite Hget, Hcuda. cbn [bind].
  destruct (Z.eqb_spec (snd rectangle_shape) 0); [contradiction|].
  reflexivity.
Qed.

Lemma train_scoped n_epochs next_letter_to_add use_soft_labels w w' l' :
  train n_epochs next_letter_to_add use_soft_labels w = Ok (w', l') ->
  scoped w w'.
Proof.
  unfold train.
  destruct (prepare next_letter_to_add w) as [[w0 l0]|] eqn:HP;
    cbn [bind]; [|discriminate].
  intros HE. apply prepare_cases in HP as (i & m & _ & _ & _ & HP).
  injection HP as -> ->.
  eapply scoped_trans; [|eapply epochs_scoped; exact HE].
  apply scoped_quiet; try reflexivity.
  apply (emits_list _ _ _ [jit_trace Generator; jit_trace Discriminator]).
  - cbn [calls log with_random]. now rewrite <- app_assoc.
  - intros c [<-|[<-|[]]]; exact I.
Qed.

(** [train] returns when the next letter is a key of non-negative index,
    the CUDA runtime answers, the divisor of line 60 and the cadences are
    non-zero, the key list has [NUM_CHARS] entries or more and the two
    paths of the checkpoint can be written. *)
Lemma train_returns n_epochs next_letter_to_add use_soft_labels w i m :
  dict_get character_to_index_mapping next_letter_to_add = Ok i -> 0 <= i ->
  cuda_memory_allocated = Ok m -> snd rectangle_shape <> 0 ->
  add_character_every <> 0 -> save_every <> 0 -> produce_every <> 0 ->
  NUM_CHARS <= Z.of_nat (List.length (keys character_to_index_mapping)) ->
  can_save w ->
  exists w' l',
    train n_epochs next_letter_to_add use_soft_labels w = Ok (w', l').
Proof.
  intros Hget Hi Hcuda Hr HK Hs Hp HN Hw. unfold train.
  rewrite (prepare_ok _ w i m Hget Hcuda Hr). cbn [bind]. unfold prepared.
  match goal with
  | |- context [epochs _ _ (?w0, ?l0)] =>
      destruct (epochs_cursor use_soft_labels (py_range 1 (n_epochs + 1))
                  HK Hs Hp HN w0 l0 Hi Hw) as (w' & l' & HE & _)
  end.
  now exists w', l'.
Qed.

(** *** The fixed latent grid *)

Lemma train_epoch_locals use_soft_labels e w l w' l' :
  train_epoch use_soft_labels e (w, l) = Ok (w', l') ->
  letters_to_watch l' = letters_to_watch l /\
  fixed_latent_points l' = fixed_latent_points l /\
  fixed_conditioning_inputs l' = fixed_conditioning_inputs l /\
  jit l' = jit l.
Proof.
  unfold train_epoch. cbn [fst snd].
  destruct (unlock e w l) as [[w1 l1]|] eqn:HU; cbn [bind fst snd]; [|discriminate].
  destruct (end_epoch _ _ _) as [w2|]; cbn [bind]; [|discriminate].
  intros H. injection H as _ <-.
  apply unlock_cases in HU as [[_ ->]|(ch & _ & ->)]; now repeat split.
Qed.

Lemma epochs_locals use_soft_labels es :
  forall w l w' l',
    epochs use_soft_labels es (w, l) = Ok (w', l') ->
    letters_to_watch l' = letters_to_watch l /\
    fixed_latent_points l' = fixed_latent_points l /\
    fixed_conditioning_inputs l' = fixed_conditioning_inputs l /\
    jit l' = jit l.
Proof.
  induction es as [|e es IH]; intros w l w' l'; cbn [epochs].
  - intros H. injection H as _ <-. now repeat split.
  - destruct (train_epoch use_soft_labels e (w, l)) as [[w1 l1]|] eqn:HT;
      cbn [bind]; [|discriminate].
    intros HE. apply train_epoch_locals in HT as (H1 & H2 & H3 & H4).
    apply IH in HE as (H5 & H6 & H7 & H8).
    repeat split; etransitivity; eassumption.
Qed.

Lemma combine_repeat {A B} (l : list A) (b : B) :
  combine l (repeat b (List.length l)) = map (fun a => (a, b)) l.
Proof. induction l as [|a l IH]; cbn; [reflexivity | now rewrite IH]. Qed.

Lemma combine_app_same {A B} (l1 l2 : list A) (r1 r2 : list B) :
  List.length l1 = List.length r1 ->
  combine (l1 ++ l2) (r1 ++ r2) = (combine l1 r1 ++ combine l2 r2)%list.
Proof.
  revert r1. induction l1 as [|a l1 IH]; intros [|b r1] H; try discriminate.
  - reflexivity.
  - cbn. f_equal. apply IH. now injection H.
Qed.

(** The rows of the fixed grid: every letter under style 0, then every
    letter under style 1. *)
Lemma fixed_grid_rows (letters : list string) :
  combine (current_char_conditioning letters) (styles (List.length letters))
  = (map (fun ch => (ch, 0%Q)) letters ++ map (fun ch => (ch, 1%Q)) letters)%list.
Proof.
  unfold current_char_conditioning, styles.
  rewrite combine_app_same by now rewrite repeat_length.
  now rewrite !combine_repeat.
Qed.

(** C7 (as amended): the constructor reads nothing from the random
    generator; the latent points of the fixed grid are the first draw of
    each call of [train], made before its first epoch, and no epoch of that
    call changes them, their conditioning or the traced generator; the
    conditioning pairs every key of the vocabulary with style 0 and with
    style 1; so within a call of [train], two visualisations of the fixed
    grid at the same epoch number, made at two points of the run where the
    generator has the same parameters, produce the same images and the same
    records. *)
Theorem fixed_latent_grid (use_soft_labels : bool)
    (next_letter_to_add : string) (es es' : list Z) (e : Z) (w : state) :
  (forall G D G_optim D_optim loader dataset given now random disk,
     numpy_random
       (init G D G_optim D_optim loader dataset given now random disk)
     = random) /\
  (forall w0 l0,
     prepare next_letter_to_add w = Ok (w0, l0) ->
     fixed_latent_points l0
     = gaussian (source (numpy_random w) (position (numpy_random w)))
         (2 * Z.of_nat (List.length (keys character_to_index_mapping)))
         NOISE_LENGTH /\
     position (numpy_random w0) = S (position (numpy_random w)) /\
     letters_to_watch l0 = keys character_to_index_mapping /\
     fixed_conditioning_inputs l0
     = fixed_conditioning (keys character_to_index_mapping) /\
     jit l0 = Traced (training (_G w)) (training (_D w)) /\
     forall w1 l1,
       epochs use_soft_labels es (w0, l0) = Ok (w1, l1) ->
       letters_to_watch l1 = letters_to_watch l0 /\
       fixed_latent_points l1 = fixed_latent_points l0 /\
       fixed_conditioning_inputs l1 = fixed_conditioning_inputs l0 /\
       jit l1 = jit l0 /\
       forall w2 l2,
         epochs use_soft_labels es' (w1, l1) = Ok (w2, l2) ->
         params (_G w1) = params (_G w2) ->
         fixed_images (G_eval w1) l1 = fixed_images (G_eval w2) l2 /\
         exists evs,
           calls (fixed_grid e (G_eval w1) l1)
           = (calls w1 ++ set_eval Generator :: evs)%list /\
           calls (fixed_grid e (G_eval w2) l2)
           = (calls w2 ++ set_eval Generator :: evs)%list) /\
  (forall letters ch,
     In ch letters ->
     In (ch, 0%Q)
        (combine (current_char_conditioning letters)
                 (styles (List.length letters))) /\
     In (ch, 1%Q)
        (combine (current_char_conditioning letters)
                 (styles (List.length letters)))).
Proof.
  split; [reflexivity|]. split.
  - intros w0 l0 HP. apply prepare_cases in HP as (i & m & _ & _ & _ & HP).
    injection HP as -> ->.
    do 5 (split; [reflexivity|]).
    intros w1 l1 HE1. apply epochs_locals in HE1 as (L1 & L2 & L3 & L4).
    do 4 (split; [assumption|]).
    intros w2 l2 HE2 Hp. apply epochs_locals in HE2 as (M1 & M2 & M3 & M4).
    assert (Himg : fixed_images (G_eval w1) l1 = fixed_images (G_eval w2) l2).
    { unfold fixed_images, G_call.
      cbn [G_eval _G log with_G set_mode params val].
      now rewrite Hp, M2, M3, M4. }
    split; [exact Himg|].
    exists (forward Generator (G_traced_mode (jit l1))
              :: grid_records e (fixed_images (G_eval w1) l1)
                   (letters_to_watch l1)).
    rewrite !fixed_grid_calls, <- Himg, M1, M4. cbn [calls G_eval log with_G].
    now rewrite <- !app_assoc.
  - intros letters ch Hin. rewrite fixed_grid_rows.
    split; apply in_or_app; [left|right]; apply in_map_iff; now exists ch.
Qed.

(** * Further properties of the training loop *)

(** *** The generator half-step and the discriminator *)

(** X1 (lines 141-154): the generator half-step never changes the
    parameters, the mode or the optimizer state of the discriminator; but
    with its gate open, [G_loss.backward()] leaves the gradient of the
    generator loss in the discriminator's gradients, which the next
    discriminator half-step discards ([zero_grad]) before its own
    [backward]. *)
Theorem generator_half_step_and_discriminator (t : traced) (use_soft_labels : bool)
    (X X' : list Image) (c c' : cond) (n n' : Z) (w : state) :
  let w' := generator_half_step t X c n w in
  let z := next_noise X w in
  let gate := Qgtb (val (generator_loss t w X c z)) G_loss_threshold in
  params (_D w') = params (_D w) /\
  training (_D w') = training (_D w) /\
  _D_optim w' = _D_optim w /\
  grads (_D w')
  = (if gate
     then dD Generator (params (_G w)) (G_traced_mode t)
             (params (_D w)) (D_traced_mode t) X c z 1%Q :: grads (_D w)
     else grads (_D w)) /\
  grads (_G w')
  = (if gate
     then [dG Generator (params (_G w)) (G_traced_mode t)
              (params (_D w)) (D_traced_mode t) X c z 1%Q]
     else []) /\
  forall g,
    In g (grads (_D (discriminator_half_step t use_soft_labels X' c' n' w'))) ->
    g = dD Discriminator (params (_G w')) (G_traced_mode t)
           (params (_D w')) (D_traced_mode t) X' c' (next_noise X' w')
           (one_label_coefficient use_soft_labels).
Proof.
  intros w' z gate. subst w' z gate.
  split; [|split; [|split; [|split; [|split]]]].
  1-5: half_step_simpl;
    match goal with |- context [Qgtb ?a ?b] => destruct (Qgtb a b) end;
    run_step; reflexivity.
  set (w' := generator_half_step t X c n w). clearbody w'.
  intros g. half_step_simpl.
  match goal with |- context [Qgtb ?a ?b] => destruct (Qgtb a b) end;
    run_step; cbn [In]; intros H; [|contradiction].
  destruct H as [<-|[]]. reflexivity.
Qed.

(** *** The step counter and the noise *)

Lemma half_step_random {t : traced} use_soft_labels X c n w :
  numpy_random (discriminator_half_step t use_soft_labels X c n w)
  = snd (draw (numpy_random w)) /\
  numpy_random (generator_half_step t X c n w) = snd (draw (numpy_random w)).
Proof.
  split; half_step_simpl;
    match goal with |- context [Qgtb ?a ?b] => destruct (Qgtb a b) end;
    run_step; reflexivity.
Qed.

Lemma half_step_data_source {t : traced} use_soft_labels X c n w :
  data_source (discriminator_half_step t use_soft_labels X c n w) = data_source w /\
  data_source (generator_half_step t X c n w) = data_source w.
Proof.
  unfold data_source. split; half_step_simpl;
    match goal with |- context [Qgtb ?a ?b] => destruct (Qgtb a b) end;
    run_step; reflexivity.
Qed.

(** X2 (lines 95-101): over the batches of an epoch the step counter
    advances by the number of batches that are not of size one. *)
Theorem step_counts_processed_batches (t : traced) (use_soft_labels : bool)
    (batches : list batch) (w : state) (n : Z) :
  snd (train_batches t use_soft_labels batches (w, n))
  = n + Z.of_nat (List.length (List.filter processed batches)) /\
  snd (run_batches t use_soft_labels w n)
  = n + Z.of_nat (List.length
                    (List.filter processed
                       (fst (iterate (_dataset_loader w) (_dataset w))))).
Proof.
  assert (H : forall bs w n,
             snd (train_batches t use_soft_labels bs (w, n))
             = n + Z.of_nat (List.length (List.filter processed bs))).
  { unfold train_batches. induction bs as [|b bs IH]; intros w0 n0;
      cbn [fold_left List.filter List.length].
    - cbn [snd]. lia.
    - destruct b as [[X labels] style]. unfold train_batch at 2, processed at 1.
      destruct (Nat.eqb (List.length X) 1); cbn [negb]; rewrite IH.
      + reflexivity.
      + cbn [List.length]. lia. }
  split; [apply H|].
  unfold run_batches.
  destruct (iterate (_dataset_loader w) (_dataset w)) as [bs ld].
  cbn [fst]. apply H.
Qed.

(** X3 (lines 120, 146): a processed batch reads two numbers from the
    random generator, the first for the noise of the discriminator
    half-step and the second for the noise of the generator half-step; a
    skipped batch reads none. *)
Theorem batch_noise_is_fresh (t : traced) (use_soft_labels : bool) (X : list Image)
    (labels : list (list string)) (style : list Q) (w : state) (n : Z) :
  let b : batch := (X, labels, style) in
  let r := numpy_random w in
  let w1 := discriminator_half_step t use_soft_labels X (batch_condition b) (n + 1) w in
  numpy_random (fst (train_batch t use_soft_labels b (w, n)))
  = (if processed b then mkRng (source r) (S (S (position r))) else r) /\
  next_noise X w
  = gaussian (source r (position r)) (Z.of_nat (List.length X)) NOISE_LENGTH /\
  next_noise X w1
  = gaussian (source r (S (position r))) (Z.of_nat (List.length X)) NOISE_LENGTH.
Proof.
  intros b r w1. subst b r w1.
  destruct (half_step_random (t:=t) use_soft_labels X
              (batch_condition (X, labels, style)) (n + 1) w) as [HD _].
  split; [|split].
  - unfold processed.
    destruct (Nat.eqb_spec (List.length X) 1) as [E|E]; cbn [negb].
    + unfold train_batch. rewrite E. reflexivity.
    + rewrite train_batch_run by assumption. cbn [fst].
      destruct (half_step_random (t:=t) use_soft_labels X
                  (batch_condition (X, labels, style)) (n + 1)
                  (discriminator_half_step t use_soft_labels X
                     (batch_condition (X, labels, style)) (n + 1) w))
        as [_ HG].
      rewrite HG, HD. reflexivity.
  - reflexivity.
  - unfold next_noise, randn. rewrite HD. reflexivity.
Qed.

(** *** What the end of an epoch leaves alone *)

Lemma random_sample_trained e population i w :
  trained (random_sample e population i w) = trained w /\
  training (_G (random_sample e population i w)) = training (_G w).
Proof.
  unfold random_sample.
  destruct (choice " " population (numpy_random w)) as [ch r].
  destruct (choice 0 [0; 1] r) as [st r']. state_simpl.
  destruct (generate (params (_G w)) (training (_G w)) (" ", ch, " ") st r')
    as [image r''].
  now split.
Qed.

Lemma random_samples_trained e w l :
  trained (random_samples e w l) = trained w.
Proof.
  unfold random_samples.
  destruct (random_characters_to_generate (current_char_index l));
    [reflexivity|].
  generalize (seq 0 (Z.to_nat num_characters_to_generate)). intros js.
  revert w. induction js as [|i js IH]; intros w; cbn [fold_left];
    [reflexivity|].
  rewrite IH. apply random_sample_trained.
Qed.

Lemma rest_trained w w' : rest w' = rest w -> trained w' = trained w.
Proof. unfold rest, trained. intros H. now inversion H. Qed.

Lemma visualize_trained e w l : trained (visualize e w l) = trained w.
Proof.
  unfold visualize. rewrite random_samples_trained.
  now rewrite (rest_trained _ _ (fixed_grid_rest e (G_eval w) l)).
Qed.

Lemma end_epoch_frame e w l w' :
  end_epoch e w l = Ok w' ->
  params (_G w') = params (_G w) /\ grads (_G w') = grads (_G w) /\
  _D w' = _D w /\ _G_optim w' = _G_optim w /\ _D_optim w' = _D_optim w /\
  data_source w' = data_source w.
Proof.
  intros (_ & _ & w1 & Hsave & Hshow)%end_epoch_cases.
  assert (HC : trained w1
               = (params (_G w), grads (_G w), _D w, _G_optim w, _D_optim w,
                  _dataset_loader w, _dataset w, _current_datetime w,
                  files w1)).
  { destruct Hsave as [[_ ->]|(_ & _ & ->)]; reflexivity. }
  assert (HT : trained w' = trained w1).
  { destruct Hshow as [[_ ->]|[_ ->]]; [reflexivity | apply visualize_trained]. }
  rewrite HC in HT. unfold trained in HT. unfold data_source.
  inversion HT. now repeat split.
Qed.

(** X4 (lines 170-204): the end of an epoch only reads the networks: a
    checkpoint returns when its two paths can be written and has then
    changed nothing but the files (and the recorded calls), a
    visualisation changes nothing but the generator's
    mode and the random generator; neither changes a parameter, a gradient,
    an optimizer state, the dataset or its loader. *)
Theorem epoch_end_reads_only (e : Z) (w : state) (l : locals) :
  (can_save w -> exists w', checkpoint w = Ok w') /\
  (forall w',
     checkpoint w = Ok w' ->
     (_G w', _D w', _G_optim w', _D_optim w', _dataset_loader w',
      _dataset w', _current_datetime w', numpy_random w')
     = (_G w, _D w, _G_optim w, _D_optim w, _dataset_loader w, _dataset w,
        _current_datetime w, numpy_random w)) /\
  trained (visualize e w l) = trained w /\
  (forall w',
     end_epoch e w l = Ok w' ->
     params (_G w') = params (_G w) /\ grads (_G w') = grads (_G w) /\
     _D w' = _D w /\ _G_optim w' = _G_optim w /\ _D_optim w' = _D_optim w /\
     data_source w' = data_source w).
Proof.
  split; [|split; [|split; [apply visualize_trained|]]].
  - intros Hw. exists (written w). now apply checkpoint_ok.
  - intros w' [_ ->]%checkpoint_inv. reflexivity.
  - intros w'. apply end_epoch_frame.
Qed.

(** *** The calls of an epoch *)

Lemma since_app w w' evs :
  calls w' = (calls w ++ evs)%list -> since w w' = evs.
Proof.
  intros H. unfold since. rewrite H. clear H.
  induction (calls w) as [|c cs IH]; [reflexivity | exact IH].
Qed.

Lemma train_batch_data_source {t : traced} use_soft_labels b w n :
  data_source (fst (train_batch t use_soft_labels b (w, n))) = data_source w.
Proof.
  destruct b as [[X labels] style].
  destruct (Nat.eqb_spec (List.length X) 1) as [E|E].
  - unfold train_batch. now rewrite E.
  - rewrite train_batch_run by assumption. cbn [fst].
    destruct (half_step_data_source (t:=t) use_soft_labels X
                (batch_condition (X, labels, style)) (n + 1) w) as [HD _].
    destruct (half_step_data_source (t:=t) use_soft_labels X
                (batch_condition (X, labels, style)) (n + 1)
                (discriminator_half_step t use_soft_labels X
                   (batch_condition (X, labels, style)) (n + 1) w)) as [_ HG].
    now rewrite HG, HD.
Qed.

Lemma run_batches_dataset {t : traced} use_soft_labels w n :
  _dataset (fst (run_batches t use_soft_labels w n)) = _dataset w.
Proof.
  unfold run_batches.
  destruct (iterate (_dataset_loader w) (_dataset w)) as [batches ld].
  change (_dataset w) with (_dataset (with_loader ld w)).
  generalize (with_loader ld w). intros w0. unfold train_batches.
  revert w0 n. induction batches as [|b bs IH]; intros w0 n;
    cbn [fold_left]; [reflexivity|].
  destruct (train_batch t use_soft_labels b (w0, n)) as [w1 n1] eqn:E.
  rewrite IH.
  pose proof (train_batch_data_source (t:=t) use_soft_labels b w0 n) as H.
  rewrite E in H. unfold data_source in H. cbn [fst] in H. now inversion H.
Qed.

(** The calls of an epoch after its curriculum check. *)
Lemma epoch_body_emits {t : traced} (P : call -> Prop) use_soft_labels e w l n w' :
  (forall c, body_call c -> P c) ->
  end_epoch e (fst (run_batches t use_soft_labels (begin_epoch w) n)) l = Ok w' ->
  emits P w w' /\ _dataset w' = _dataset w /\ training (_D w') = true.
Proof.
  intros HP HE.
  assert (E1 : emits P w (begin_epoch w)).
  { apply (emits_list _ _ _ [set_train Generator; set_train Discriminator]).
    - unfold begin_epoch. cbn [calls log with_G with_D].
      now rewrite <- app_assoc.
    - intros c [<-|[<-|[]]]; apply HP; exact I. }
  destruct (run_batches_emits (t:=t) use_soft_labels P (begin_epoch w) n) as [E2 F2].
  { intros c Hc. apply HP. destruct c; try exact I; try contradiction. }
  destruct (fixtures_eq _ _ F2) as (_ & _ & _ & HD2).
  pose proof (run_batches_dataset (t:=t) use_soft_labels (begin_epoch w) n) as D2.
  set (w2 := fst (run_batches t use_soft_labels (begin_epoch w) n)) in *.
  destruct (end_epoch_frame _ _ _ _ HE) as (_ & _ & HD3 & _ & _ & HS3).
  split; [|split].
  - eapply emits_trans; [exact E1|]. eapply emits_trans; [exact E2|].
    eapply emits_weaken; [|exact (end_epoch_emits _ _ _ _ HE)].
    intros c Hc. apply HP. destruct c; try exact I; try contradiction;
      repeat match goal with
             | s : side |- _ => destruct s
             | b : bool |- _ => destruct b
             end; try exact I; contradiction.
  - unfold data_source in HS3. inversion HS3 as [[HL HDS]].
    rewrite HDS. exact D2.
  - rewrite HD3. exact HD2.
Qed.

(** *** The characters unlocked by a run *)

Lemma py_index_nonneg {A} (l : list A) i a :
  0 <= i -> py_index l i = Ok a -> nth_error l (Z.to_nat i) = Some a.
Proof.
  intros Hi. unfold py_index.
  destruct (Z.ltb_spec i 0) as [Hneg|_]; [lia|].
  destruct ((0 <=? i) && (i <? Z.of_nat (List.length l))); [|discriminate].
  destruct (nth_error l (Z.to_nat i)); [|discriminate].
  intros Heq. now injection Heq as ->.
Qed.

Lemma skipn_nth_error {A} (l : list A) n a :
  nth_error l n = Some a -> skipn n l = a :: skipn (S n) l.
Proof.
  revert l. induction n as [|n IH]; intros [|x l] H; try discriminate.
  - cbn in H. injection H as ->. reflexivity.
  - cbn in H. apply IH in H. exact H.
Qed.

Lemma py_slice_same {A} (l : list A) a : py_slice a a l = [].
Proof. unfold py_slice. now rewrite Z.sub_diag. Qed.

Lemma py_slice_cons {A} (l : list A) a b x :
  0 <= a -> a + 1 <= b -> nth_error l (Z.to_nat a) = Some x ->
  py_slice a b l = x :: py_slice (a + 1) b l.
Proof.
  intros Ha Hb Hx. unfold py_slice.
  rewrite (skipn_nth_error _ _ _ Hx).
  replace (Z.to_nat (b - a)) with (S (Z.to_nat (b - (a + 1)))) by lia.
  replace (Z.to_nat (a + 1)) with (S (Z.to_nat a)) by lia.
  reflexivity.
Qed.

Lemma unlock_cases_index e w l w1 l1 :
  unlock e w l = Ok (w1, l1) ->
  (w1 = w /\ l1 = l) \/
  exists ch,
    py_index (keys character_to_index_mapping) (current_char_index l) = Ok ch /\
    w1 = log (add_character ch)
           (with_dataset (add_character_to_training (_dataset w) ch) w) /\
    l1 = with_cursor (current_char_index l + 1) l.
Proof.
  unfold unlock.
  destruct (py_mod e add_character_every) as [r|]; cbn [bind]; [|discriminate].
  destruct ((r =? 0) && (current_char_index l <? NUM_CHARS)).
  - destruct (py_index _ _) as [ch|]; cbn [bind]; [|discriminate].
    intros H. injection H as <- <-. right. now exists ch.
  - intros H. injection H as <- <-. now left.
Qed.

Lemma characters_added_body evs :
  (forall c, In c evs -> body_call c) -> characters_added evs = [].
Proof.
  induction evs as [|c evs IH]; intros H; [reflexivity|].
  unfold characters_added in *. cbn [flat_map].
  rewrite IH by (intros c' Hc'; apply H; now right).
  specialize (H c (or_introl eq_refl)).
  destruct c; try reflexivity; contradiction.
Qed.

(** What one epoch does to the curriculum, the dataset and the recorded
    calls. *)
Lemma train_epoch_summary use_soft_labels e w l w' l' :
  train_epoch use_soft_labels e (w, l) = Ok (w', l') ->
  0 <= current_char_index l ->
  exists evs,
    calls w' = (calls w ++ evs)%list /\
    current_char_index l <= current_char_index l' /\
    characters_added evs
    = py_slice (current_char_index l) (current_char_index l')
        (keys character_to_index_mapping) /\
    _dataset w'
    = fold_left add_character_to_training
        (py_slice (current_char_index l) (current_char_index l')
           (keys character_to_index_mapping)) (_dataset w) /\
    (forall c, In c evs ->
       (exists ch, c = add_character ch) \/ body_call c) /\
    training (_D w') = true.
Proof.
  unfold train_epoch. cbn [fst snd].
  destruct (unlock e w l) as [[w1 l1]|] eqn:HU; cbn [bind fst snd]; [|discriminate].
  destruct (end_epoch _ _ _) as [w2|] eqn:HE; cbn [bind]; [|discriminate].
  intros H Hc. injection H as <- <-.
  destruct (epoch_body_emits (t:=jit l1) body_call use_soft_labels e w1 _ _ _
              (fun c H => H) HE) as ((evs & Hevs & Hbody) & Hds & HD).
  cbn [current_char_index with_step].
  apply unlock_cases_index in HU as [[-> ->]|(ch & Hch & -> & ->)].
  - exists evs. split; [exact Hevs|]. split; [lia|].
    rewrite py_slice_same. split; [now apply characters_added_body|].
    split; [exact Hds|]. split; [|exact HD].
    intros c Hin. right. now apply Hbody.
  - apply (py_index_nonneg _ _ _ Hc) in Hch.
    exists (add_character ch :: evs). cbn [current_char_index with_cursor].
    rewrite (py_slice_cons _ (current_char_index l)
               (current_char_index l + 1) ch Hc ltac:(lia) Hch), py_slice_same.
    split; [|split; [lia|split; [|split; [|split]]]].
    + rewrite Hevs. cbn [calls log with_dataset].
      now rewrite <- app_assoc.
    + unfold characters_added in *. cbn [flat_map app].
      f_equal. now apply characters_added_body.
    + rewrite Hds. reflexivity.
    + intros c [<-|Hin]; [left; now exists ch | right; now apply Hbody].
    + exact HD.
Qed.

Lemma epochs_summary use_soft_labels es :
  forall w l w' l',
    epochs use_soft_labels es (w, l) = Ok (w', l') ->
    0 <= current_char_index l ->
    exists evs,
      calls w' = (calls w ++ evs)%list /\
      current_char_index l <= current_char_index l' /\
      characters_added evs
      = py_slice (current_char_index l) (current_char_index l')
          (keys character_to_index_mapping) /\
      _dataset w'
      = fold_left add_character_to_training
          (py_slice (current_char_index l) (current_char_index l')
             (keys character_to_index_mapping)) (_dataset w) /\
      (forall c, In c evs ->
         (exists ch, c = add_character ch) \/ body_call c) /\
      (es <> [] -> training (_D w') = true).
Proof.
  induction es as [|e es IH]; intros w l w' l'; cbn [epochs].
  - intros H Hc. injection H as <- <-. exists [].
    rewrite app_nil_r, py_slice_same. repeat split; try reflexivity; try lia.
    + contradiction.
    + intros H. now destruct H.
  - destruct (train_epoch use_soft_labels e (w, l)) as [[w1 l1]|] eqn:HT;
      cbn [bind]; [|discriminate].
    intros HE Hc.
    destruct (train_epoch_summary _ _ _ _ _ _ HT Hc)
      as (evs1 & Hc1 & Hle1 & Hch1 & Hds1 & Hk1 & HD1).
    destruct (IH _ _ _ _ HE ltac:(lia))
      as (evs2 & Hc2 & Hle2 & Hch2 & Hds2 & Hk2 & HD2).
    assert (Hslice :
              (py_slice (current_char_index l) (current_char_index l1)
                 (keys character_to_index_mapping)
               ++ py_slice (current_char_index l1) (current_char_index l')
                    (keys character_to_index_mapping))%list
              = py_slice (current_char_index l) (current_char_index l')
                  (keys character_to_index_mapping)).
    { pose proof (train_epoch_locals _ _ _ _ _ _ HT) as _.
      unfold train_epoch in HT. cbn [fst snd] in HT.
      destruct (unlock e w l) as [[wu lu]|] eqn:HU; cbn [bind fst snd] in HT;
        [|discriminate].
      destruct (end_epoch _ _ _) as [w2|]; cbn [bind] in HT; [|discriminate].
      injection HT as _ <-. cbn [current_char_index with_step] in *.
      apply unlock_cases_index in HU as [[_ ->]|(ch & Hch & _ & ->)].
      - now rewrite py_slice_same.
      - cbn [current_char_index with_cursor] in *.
        apply (py_index_nonneg _ _ _ Hc) in Hch.
        rewrite (py_slice_cons _ (current_char_index l)
                   (current_char_index l + 1) ch Hc ltac:(lia) Hch).
        rewrite py_slice_same.
        now rewrite (py_slice_cons _ (current_char_index l)
                       (current_char_index l') ch Hc ltac:(lia) Hch). }
    exists (evs1 ++ evs2)%list.
    split; [now rewrite Hc2, Hc1, <- app_assoc|].
    split; [lia|]. split; [|split; [|split]].
    + unfold characters_added in *. rewrite flat_map_app.
      now rewrite Hch1, Hch2.
    + rewrite Hds2, Hds1, <- Hslice. now rewrite fold_left_app.
    + intros c [H|H]%in_app_or; auto.
    + intros _. destruct es as [|e' es'].
      * cbn [epochs] in HE. injection HE as <- _. exact HD1.
      * apply HD2. discriminate.
Qed.

Lemma train_summary n_epochs next_letter_to_add use_soft_labels w w' l' c0 :
  train n_epochs next_letter_to_add use_soft_labels w = Ok (w', l') ->
  dict_get character_to_index_mapping next_letter_to_add = Ok c0 ->
  0 <= c0 ->
  c0 <= current_char_index l' /\
  characters_added (since w w')
  = py_slice c0 (current_char_index l') (keys character_to_index_mapping) /\
  _dataset w'
  = fold_left add_character_to_training
      (py_slice c0 (current_char_index l') (keys character_to_index_mapping))
      (_dataset w) /\
  (forall c, In c (since w w') ->
     (exists s, c = jit_trace s) \/ (exists ch, c = add_character ch) \/
     body_call c) /\
  (1 <= n_epochs -> training (_D w') = true).
Proof.
  unfold train. intros HT Hget Hc0.
  destruct (prepare next_letter_to_add w) as [[w0 l0]|] eqn:HP;
    cbn [bind] in HT; [|discriminate].
  apply prepare_cases in HP as (i & m & Hi & _ & _ & HP).
  injection HP as -> ->.
  rewrite Hget in Hi. injection Hi as <-.
  destruct (epochs_summary _ _ _ _ _ _ HT Hc0)
    as (evs & Hc & Hle & Hch & Hds & Hk & HD).
  cbn [current_char_index] in *.
  assert (Hsince : since w w'
                   = (jit_trace Generator :: jit_trace Discriminator :: evs)%list).
  { apply since_app. rewrite Hc. cbn [calls log with_random].
    now rewrite <- !app_assoc. }
  rewrite Hsince. split; [exact Hle|]. split; [exact Hch|].
  split; [exact Hds|]. split.
  - intros c [<-|[<-|Hin]]; [left; eauto | left; eauto |].
    right. now apply Hk.
  - intros Hn. apply HD. unfold py_range.
    replace (Z.to_nat (n_epochs + 1 - 1)) with (S (Z.to_nat (n_epochs - 1))) by lia.
    discriminate.
Qed.

(** X5 (lines 54, 86-88): when the run starts at a non-negative index,
    the characters handed to the dataset by a run are the keys from the
    index of the next letter to add up to the final cursor, in key order,
    and the dataset is the initial one with these characters added in that
    order; nothing else of the run touches the dataset. *)
Theorem characters_unlocked_in_key_order (n_epochs : Z)
    (next_letter_to_add : string) (use_soft_labels : bool)
    (w w' : state) (l' : locals) (c0 : Z) :
  train n_epochs next_letter_to_add use_soft_labels w = Ok (w', l') ->
  dict_get character_to_index_mapping next_letter_to_add = Ok c0 ->
  0 <= c0 ->
  c0 <= current_char_index l' /\
  characters_added (since w w')
  = py_slice c0 (current_char_index l') (keys character_to_index_mapping) /\
  _dataset w'
  = fold_left add_character_to_training
      (py_slice c0 (current_char_index l') (keys character_to_index_mapping))
      (_dataset w).
Proof.
  intros HT Hget Hc0.
  destruct (train_summary _ _ _ _ _ _ _ HT Hget Hc0) as (H1 & H2 & H3 & _).
  now repeat split.
Qed.

(** X6 (lines 90-91, 180): [train] never puts the discriminator in
    evaluation mode and never calls [generate] on a generator in training
    mode: its calls are the two traces, the additions to the dataset and
    the calls of the epoch bodies; after a run of one epoch or more the
    discriminator is in training mode. *)
Theorem discriminator_never_in_eval_mode (n_epochs : Z)
    (next_letter_to_add : string) (use_soft_labels : bool)
    (w w' : state) (l' : locals) (c0 : Z) :
  train n_epochs next_letter_to_add use_soft_labels w = Ok (w', l') ->
  dict_get character_to_index_mapping next_letter_to_add = Ok c0 ->
  0 <= c0 ->
  ~ In (set_eval Discriminator) (since w w') /\
  (forall cc st, ~ In (call_generate true cc st) (since w w')) /\
  (1 <= n_epochs -> training (_D w') = true).
Proof.
  intros HT Hget Hc0.
  destruct (train_summary _ _ _ _ _ _ _ HT Hget Hc0) as (_ & _ & _ & Hk & HD).
  split; [|split; [|exact HD]].
  - intros [[s H]|[[ch H]|H]]%Hk; try discriminate. exact H.
  - intros cc st [[s H]|[[ch H]|H]]%Hk; try discriminate. exact H.
Qed.

(** *** The cursor after a run *)

Lemma div_succ K a :
  0 < K -> (a + 1) / K = a / K + (if (a + 1) mod K =? 0 then 1 else 0).
Proof.
  intros HK.
  pose proof (Z.div_mod (a + 1) K ltac:(lia)) as H1.
  pose proof (Z.div_mod a K ltac:(lia)) as H2.
  pose proof (Z.mod_pos_bound (a + 1) K HK) as B1.
  pose proof (Z.mod_pos_bound a K HK) as B2.
  destruct (Z.eqb_spec ((a + 1) mod K) 0) as [E|E]; nia.
Qed.

Lemma epochs_closed_form use_soft_labels :
  0 < add_character_every -> save_every <> 0 -> produce_every <> 0 ->
  NUM_CHARS <= Z.of_nat (List.length (keys character_to_index_mapping)) ->
  forall m a w l,
    0 <= current_char_index l <= NUM_CHARS -> can_save w ->
    exists w' l',
      epochs use_soft_labels
        (map (fun i => a + 1 + Z.of_nat i) (seq 0 m)) (w, l) = Ok (w', l') /\
      current_char_index l'
      = Z.min NUM_CHARS
          (current_char_index l
           + ((a + Z.of_nat m) / add_character_every - a / add_character_every)).
Proof.
  intros HK Hs Hp HN. induction m as [|m IH]; intros a w l Hc Hw.
  - exists w, l. cbn [seq map epochs]. split; [reflexivity|].
    rewrite Z.add_0_r, Z.sub_diag. lia.
  - destruct (train_epoch_cursor use_soft_labels (a + 1) w l
                ltac:(lia) Hs Hp HN ltac:(lia) Hw)
      as (w1 & l1 & HT & Hiff & Hor).
    assert (Hc1 : 0 <= current_char_index l1 <= NUM_CHARS).
    { destruct Hor as [->|Hplus]; [lia|]. apply Hiff in Hplus. lia. }
    destruct (IH (a + 1) w1 l1 Hc1
                (can_save_same _ _ (train_epoch_datetime _ _ _ _ _ _ HT) Hw))
      as (w' & l' & HE & Hval).
    exists w', l'. split.
    + cbn [seq map epochs]. rewrite Z.add_0_r, HT. cbn [bind].
      rewrite <- seq_shift, map_map.
      erewrite map_ext; [exact HE|]. intros i. cbn beta. lia.
    + rewrite Hval.
      replace (a + 1 + Z.of_nat m) with (a + Z.of_nat (S m)) by lia.
      pose proof (div_succ add_character_every a HK) as Hdiv.
      assert (Hmono : (a + 1) / add_character_every
                      <= (a + Z.of_nat (S m)) / add_character_every)
        by (apply Z.div_le_mono; lia).
      destruct (Z.eqb_spec ((a + 1) mod add_character_every) 0) as [E|E].
      * destruct (Z_lt_le_dec (current_char_index l) NUM_CHARS) as [L|L].
        -- assert (Hplus : current_char_index l1 = current_char_index l + 1)
             by (apply Hiff; now split).
           lia.
        -- destruct Hor as [Heq|Hplus]; [|apply Hiff in Hplus; lia]. lia.
      * destruct Hor as [Heq|Hplus]; [|apply Hiff in Hplus; tauto].
        rewrite Heq. lia.
Qed.

(** X7 (lines 54-60, 84-88, 170-173): with a positive unlock interval
    and a start at or below [NUM_CHARS] (and when nothing raises: the CUDA
    runtime answers, the divisor of line 60 and the cadences are non-zero,
    the two paths of the checkpoint can be written), a run of [n_epochs]
    epochs returns with the cursor at the start index plus one per
    completed interval, capped at [NUM_CHARS]:
    [min(NUM_CHARS, start + n_epochs // add_character_every)]. *)
Theorem cursor_after_training (n_epochs : Z) (next_letter_to_add : string)
    (use_soft_labels : bool) (w : state) (c0 : Z) (m : Q) :
  dict_get character_to_index_mapping next_letter_to_add = Ok c0 ->
  0 <= c0 <= NUM_CHARS ->
  0 < add_character_every -> save_every <> 0 -> produce_every <> 0 ->
  NUM_CHARS <= Z.of_nat (List.length (keys character_to_index_mapping)) ->
  0 <= n_epochs ->
  cuda_memory_allocated = Ok m -> snd rectangle_shape <> 0 -> can_save w ->
  exists w' l',
    train n_epochs next_letter_to_add use_soft_labels w = Ok (w', l') /\
    current_char_index l'
    = Z.min NUM_CHARS (c0 + n_epochs / add_character_every).
Proof.
  intros Hget Hc0 HK Hs Hp HN Hn Hcuda Hr Hw. unfold train.
  rewrite (prepare_ok _ w c0 m Hget Hcuda Hr). cbn [bind]. unfold prepared.
  match goal with
  | |- context [epochs _ _ (?w0, ?l0)] =>
      destruct (epochs_closed_form use_soft_labels HK Hs Hp HN
                  (Z.to_nat n_epochs) 0 w0 l0 Hc0 Hw) as (w' & l' & HE & Hval)
  end.
  exists w', l'. split.
  - unfold py_range. replace (n_epochs + 1 - 1) with n_epochs by lia.
    erewrite map_ext; [exact HE|]. intros i. cbn beta. lia.
  - rewrite Hval. cbn [current_char_index].
    rewrite Z2Nat.id by lia. rewrite Z.add_0_l, Zdiv_0_l. f_equal. lia.
Qed.

(** *** Exceptions *)

Lemma dict_get_key_error (d : dict) k :
  dict_get d k = Raise KeyError <-> ~ In k (keys d).
Proof.
  induction d as [|[k' v] d IH]; cbn [dict_get keys map fst In].
  - split; [intros _ []|reflexivity].
  - destruct (String.eqb_spec k k') as [->|Hne].
    + split; [discriminate | intros H; destruct H; now left].
    + rewrite IH. unfold keys. split.
      * intros H [E|E]; [congruence|now apply H].
      * intros H E. apply H. now right.
Qed.

(** X8 (lines 54-60, 84-88, 170-177): the error paths of [train], in
    program order.  Before the first epoch: a letter that is not a key
    raises [KeyError] whatever else holds; otherwise what the CUDA runtime
    raises at line 57 is raised; otherwise a zero divisor at line 60 raises
    [ZeroDivisionError], even when no epoch is asked for; otherwise a run of
    no epoch returns having only traced the two networks.  In an epoch: a
    zero unlock interval raises [ZeroDivisionError]; an unlock at a cursor
    beyond the keys raises [IndexError]; after the curriculum check, a zero
    save cadence raises [ZeroDivisionError], a save cadence hit with a path
    that cannot be written raises [RuntimeError], and otherwise a zero
    visualisation cadence raises [ZeroDivisionError]; an epoch that raises
    ends the run with its exception. *)
Theorem train_error_paths (n_epochs : Z) (next_letter_to_add : string)
    (use_soft_labels : bool) (w : state) :
  (~ In next_letter_to_add (keys character_to_index_mapping) ->
   train n_epochs next_letter_to_add use_soft_labels w = Raise KeyError) /\
  (forall c0,
     dict_get character_to_index_mapping next_letter_to_add = Ok c0 ->
     (forall x,
        cuda_memory_allocated = Raise x ->
        train n_epochs next_letter_to_add use_soft_labels w = Raise x) /\
     (forall m,
        cuda_memory_allocated = Ok m ->
        (snd rectangle_shape = 0 ->
         train n_epochs next_letter_to_add use_soft_labels w
         = Raise ZeroDivisionError) /\
        (snd rectangle_shape <> 0 ->
         prepare next_letter_to_add w = Ok (prepared c0 w) /\
         (n_epochs <= 0 ->
          train n_epochs next_letter_to_add use_soft_labels w
          = Ok (prepared c0 w)) /\
         (1 <= n_epochs ->
          forall x,
            train_epoch use_soft_labels 1 (prepared c0 w) = Raise x ->
            train n_epochs next_letter_to_add use_soft_labels w = Raise x)))) /\
  (forall e w0 l0,
     (add_character_every = 0 ->
      train_epoch use_soft_labels e (w0, l0) = Raise ZeroDivisionError) /\
     (add_character_every <> 0 -> e mod add_character_every = 0 ->
      0 <= current_char_index l0 < NUM_CHARS ->
      Z.of_nat (List.length (keys character_to_index_mapping))
      <= current_char_index l0 ->
      train_epoch use_soft_labels e (w0, l0) = Raise IndexError) /\
     (forall w1 l1,
        unlock e w0 l0 = Ok (w1, l1) ->
        (save_every = 0 ->
         train_epoch use_soft_labels e (w0, l0) = Raise ZeroDivisionError) /\
        (save_every <> 0 -> e mod save_every = 0 -> ~ can_save w0 ->
         train_epoch use_soft_labels e (w0, l0) = Raise RuntimeError) /\
        (save_every <> 0 -> e mod save_every <> 0 \/ can_save w0 ->
         produce_every = 0 ->
         train_epoch use_soft_labels e (w0, l0) = Raise ZeroDivisionError)) /\
     (forall es x,
        train_epoch use_soft_labels e (w0, l0) = Raise x ->
        epochs use_soft_labels (e :: es) (w0, l0) = Raise x)).
Proof.
  split; [|split].
  - intros Hkey. apply dict_get_key_error in Hkey.
    unfold train, prepare. now rewrite Hkey.
  - intros c0 Hget. split.
    + intros x Hcuda. unfold train, prepare. now rewrite Hget, Hcuda.
    + intros m Hcuda. split.
      * intros Hr. unfold train, prepare, py_floordiv.
        rewrite Hget, Hcuda, Hr. reflexivity.
      * intros Hr. pose proof (prepare_ok _ w c0 m Hget Hcuda Hr) as HP.
        split; [exact HP|]. unfold train. rewrite HP. cbn [bind]. split.
        -- intros Hn. unfold py_range.
           replace (Z.to_nat (n_epochs + 1 - 1)) with O by lia. reflexivity.
        -- intros Hn x HT. unfold py_range.
           replace (Z.to_nat (n_epochs + 1 - 1))
             with (S (Z.to_nat (n_epochs - 1))) by lia.
           cbn [seq map epochs]. rewrite Z.add_0_r.
           destruct (prepared c0 w) as [w0 l0]. now rewrite HT.
  - intros e w0 l0. split; [|split; [|split]].
    + intros HK. unfold train_epoch, unlock, py_mod. now rewrite HK.
    + intros HK He Hc Hlen. unfold train_epoch, unlock, py_mod, py_index.
      cbn [fst snd].
      destruct (Z.eqb_spec add_character_every 0); [contradiction|].
      cbn [bind]. rewrite He.
      destruct (Z.ltb_spec (current_char_index l0) NUM_CHARS); [|lia].
      cbn [Z.eqb andb].
      destruct (Z.ltb_spec (current_char_index l0) 0); [lia|].
      destruct (Z.ltb_spec (current_char_index l0)
                  (Z.of_nat (List.length (keys character_to_index_mapping))));
        [lia|].
      rewrite andb_false_r. reflexivity.
    + intros w1 l1 HU.
      assert (Hdt : _current_datetime
                      (fst (run_batches (jit l1) use_soft_labels
                              (begin_epoch w1) (step l1)))
                    = _current_datetime w0).
      { destruct (fixtures_eq _ _ (run_batches_fixtures (t:=jit l1)
                    use_soft_labels (begin_epoch w1) (step l1))) as [-> _].
        exact (unlock_datetime _ _ _ _ _ HU). }
      unfold train_epoch. cbn [fst snd]. rewrite HU. cbn [bind fst snd].
      unfold end_epoch, py_mod.
      split; [|split].
      * intros ->. reflexivity.
      * intros Hs Es Hw.
        destruct (Z.eqb_spec save_every 0); [contradiction|]. cbn [bind].
        rewrite Es. cbn [Z.eqb].
        destruct (checkpoint _) as [w2|x] eqn:HC; cbn [bind].
        -- apply checkpoint_inv in HC as [HC _]. exfalso. apply Hw.
           exact (can_save_same _ _ (eq_sym Hdt) HC).
        -- now apply checkpoint_raises in HC as ->.
      * intros Hs Hor ->.
        destruct (Z.eqb_spec save_every 0); [contradiction|]. cbn [bind].
        destruct (Z.eqb_spec (e mod save_every) 0) as [Es|Es];
          [|reflexivity].
        destruct Hor as [Hor|Hw]; [contradiction|].
        rewrite (checkpoint_ok _ (can_save_same _ _ Hdt Hw)). reflexivity.
    + intros es x HT. cbn [epochs]. now rewrite HT.
Qed.

(** *** The contents of a checkpoint *)

Lemma paths_differ w : G_path w <> D_path w.
Proof.
  unfold G_path, D_path, model_path. intros H.
  repeat (injection H as _ H). discriminate.
Qed.

(** The files and the saves of an epoch: on the save cadence the two
    files hold the networks as the batches left them, in training mode;
    off the cadence nothing is saved. *)
Lemma train_epoch_files use_soft_labels e w l w' l' :
  train_epoch use_soft_labels e (w, l) = Ok (w', l') ->
  (e mod save_every = 0 ->
   files w'
   = <[D_path w := pickled_D (params (_D w')) true]>
       (<[G_path w := pickled_G (params (_G w')) true]> (files w)) /\
   In (torch_save (G_path w)) (since w w') /\
   In (torch_save (D_path w)) (since w w')) /\
  (e mod save_every <> 0 ->
   files w' = files w /\ forall path, ~ In (torch_save path) (since w w')).
Proof.
  unfold train_epoch. cbn [fst snd].
  destruct (unlock e w l) as [[w1 l1]|] eqn:HU; cbn [bind fst snd]; [|discriminate].
  set (quiet := fun c : call => forall path, c <> torch_save path).
  assert (H1 : _current_datetime w1 = _current_datetime w /\
               files w1 = files w /\ emits quiet w w1).
  { apply unlock_cases in HU as [[-> _]|(ch & -> & _)].
    - split; [reflexivity|]. split; [reflexivity | apply emits_refl].
    - split; [reflexivity|]. split; [reflexivity|].
      eapply emits_list; [reflexivity|].
      intros c [<-|[]] path. discriminate. }
  destruct H1 as (Hdt & Hf1 & E1).
  assert (E2 : emits quiet w1 (begin_epoch w1)).
  { apply (emits_list _ _ _ [set_train Generator; set_train Discriminator]).
    - unfold begin_epoch. cbn [calls log with_G with_D].
      now rewrite <- app_assoc.
    - intros c [<-|[<-|[]]] path; discriminate. }
  destruct (run_batches_emits (t:=jit l1) use_soft_labels quiet (begin_epoch w1)
              (step l1)) as [E3 HF].
  { intros c Hc path ->. exact Hc. }
  destruct (fixtures_eq _ _ HF) as (Hd2 & Hf2 & HG2 & HD2).
  set (w2 := fst (run_batches (jit l1) use_soft_labels (begin_epoch w1) (step l1))) in *.
  set (l2 := with_step _ l1).
  destruct (end_epoch e w2 l2) as [w3|] eqn:HE; cbn [bind]; [|discriminate].
  intros H. injection H as <- _.
  destruct (end_epoch_frame _ _ _ _ HE) as (HpG & _ & HDm & _).
  assert (E12 : emits quiet w w2).
  { eapply emits_trans; [exact E1|]. eapply emits_trans; [exact E2 | exact E3]. }
  assert (Hdt2 : _current_datetime w2 = _current_datetime w)
    by exact (eq_trans Hd2 Hdt).
  destruct (paths_eq _ _ Hdt2) as [PG PD].
  apply end_epoch_cases in HE as (_ & _ & w4 & Hsave & Hshow).
  assert (E4 : emits quiet w4 w3 /\ files w3 = files w4).
  { destruct Hshow as [[_ ->]|[_ ->]]; [split; [apply emits_refl|reflexivity]|].
    destruct (visualize_emits quiet e w4 l2) as (HE4 & _ & _ & Hf4);
      try (intros; intros path; discriminate).
    now split. }
  destruct E4 as [E4 Hf4].
  split.
  - intros Es. destruct Hsave as [[Ns _]|(_ & _ & ->)]; [contradiction|].
    split.
    + rewrite Hf4, written_files, PG, PD, HpG, HDm, HG2, HD2.
      cbn [files begin_epoch log with_G with_D] in Hf2.
      now rewrite Hf2, Hf1.
    + destruct E12 as (evs & Hevs & _). destruct E4 as (evs' & Hevs' & _).
      rewrite written_calls, PG, PD, Hevs, <- !app_assoc in Hevs'.
      rewrite (since_app _ _ _ Hevs').
      split; apply in_or_app; right; apply in_or_app; left;
        [now left | right; now left].
  - intros Ns. destruct Hsave as [[_ ->]|(Es & _)]; [|contradiction].
    split.
    + rewrite Hf4. cbn [files begin_epoch log with_G with_D] in Hf2.
      now rewrite Hf2, Hf1.
    + destruct (emits_trans _ _ _ _ E12 E4) as (evs & Hevs & Hquiet).
      rewrite (since_app _ _ _ Hevs). intros path Hin.
      exact (Hquiet _ Hin path eq_refl).
Qed.

(** X9 (lines 90-91, 170-180): an epoch on the checkpoint cadence
    returns with the generator file and the discriminator file of the run
    holding the parameters the two networks have when the epoch ends, both
    pickled in training mode (the generator is switched to evaluation mode
    only after the save). *)
Theorem checkpoint_holds_epoch_parameters (use_soft_labels : bool) (e : Z)
    (w w' : state) (l l' : locals) :
  train_epoch use_soft_labels e (w, l) = Ok (w', l') ->
  e mod save_every = 0 ->
  files w' !! G_path w = Some (pickled_G (params (_G w')) true) /\
  files w' !! D_path w = Some (pickled_D (params (_D w')) true).
Proof.
  intros HT Hsave.
  destruct (train_epoch_files _ _ _ _ _ _ HT) as [Hhit _].
  destruct (Hhit Hsave) as (Hfiles & _). rewrite Hfiles.
  pose proof (paths_differ w) as Hne.
  split.
  - rewrite lookup_insert_ne by congruence. apply lookup_insert_eq.
  - apply lookup_insert_eq.
Qed.

(** *** The checkpoints of a run *)

Lemma py_range_In a b e : In e (py_range a b) <-> a <= e < b.
Proof.
  unfold py_range. rewrite in_map_iff. split.
  - intros (i & <- & Hi%in_seq). lia.
  - intros He. exists (Z.to_nat (e - a)). split; [lia|].
    apply in_seq. lia.
Qed.

Lemma epochs_files_kept use_soft_labels es :
  forall w l w' l',
    epochs use_soft_labels es (w, l) = Ok (w', l') ->
    (forall e, In e es -> e mod save_every <> 0) ->
    files w' = files w.
Proof.
  induction es as [|e es IH]; intros w l w' l'; cbn [epochs].
  - intros H _. now injection H as <- _.
  - destruct (train_epoch use_soft_labels e (w, l)) as [[w1 l1]|] eqn:HT;
      cbn [bind]; [|discriminate].
    intros HE Hoff.
    rewrite (IH _ _ _ _ HE) by (intros e' He'; apply Hoff; now right).
    destruct (train_epoch_files _ _ _ _ _ _ HT) as [_ Hkeep].
    now apply Hkeep, Hoff; left.
Qed.

Lemma epochs_files_written use_soft_labels es :
  forall w l w' l',
    epochs use_soft_labels es (w, l) = Ok (w', l') ->
    (exists e, In e es /\ e mod save_every = 0) ->
    exists pG pD,
      files w' !! G_path w = Some (pickled_G pG true) /\
      files w' !! D_path w = Some (pickled_D pD true).
Proof.
  induction es as [|e es IH]; intros w l w' l'; cbn [epochs].
  - intros _ (e & [] & _).
  - destruct (train_epoch use_soft_labels e (w, l)) as [[w1 l1]|] eqn:HT;
      cbn [bind]; [|discriminate].
    intros HE Hhit.
    destruct (paths_eq _ _ (train_epoch_datetime _ _ _ _ _ _ HT)) as [PG PD].
    destruct (List.Exists_dec (fun e => e mod save_every = 0) es
                (fun e => Z.eq_dec (e mod save_every) 0)) as [Hlater|Hnone].
    + apply List.Exists_exists in Hlater.
      destruct (IH _ _ _ _ HE Hlater) as (pG & pD & HG & HD).
      exists pG, pD. now rewrite <- PG, <- PD.
    + assert (Hoff : forall e', In e' es -> e' mod save_every <> 0).
      { intros e' He' E. apply Hnone, List.Exists_exists. now exists e'. }
      destruct Hhit as (e0 & [<-|Hin] & E0); [|now apply Hoff in Hin].
      destruct (train_epoch_files _ _ _ _ _ _ HT) as [Hwrite _].
      destruct (Hwrite E0) as (Hfiles & _).
      rewrite (epochs_files_kept _ _ _ _ _ _ HE Hoff), Hfiles.
      pose proof (paths_differ w) as Hne.
      eexists _, _. split.
      * rewrite lookup_insert_ne by congruence. apply lookup_insert_eq.
      * apply lookup_insert_eq.
Qed.

(** C8: the timestamp of a trainer is set by the constructor (the given
    one, or the clock reading when none is given), the two paths of the
    checkpoint are made of it and differ, and [train] never changes it;
    every save of a run goes to one of these two paths and the run changes
    no other file; every epoch on the save cadence saves the two networks
    under these two paths, over what was there, an epoch off the cadence
    saves nothing, and a run with an epoch on the cadence leaves the two
    files; a checkpoint writes the two modules under the two paths, so a
    second checkpoint taken with the same modules and timestamp on the
    files left by the first leaves the files exactly as they are. *)
Theorem checkpoints_run_scoped (n_epochs : Z) (next_letter_to_add : string)
    (use_soft_labels : bool) (w : state) :
  (forall G D G_optim D_optim loader dataset given now random disk,
     _current_datetime
       (init G D G_optim D_optim loader dataset given now random disk)
     = match given with
       | Some s => if String.eqb s "" then now else s
       | None => now
       end) /\
  G_path w = "./data/models/G_" ++ _current_datetime w ++ ".pt" /\
  D_path w = "./data/models/D_" ++ _current_datetime w ++ ".pt" /\
  G_path w <> D_path w /\
  (forall w' l',
     train n_epochs next_letter_to_add use_soft_labels w = Ok (w', l') ->
     _current_datetime w' = _current_datetime w /\
     (exists evs,
        calls w' = (calls w ++ evs)%list /\
        forall path, In (torch_save path) evs ->
                     path = G_path w \/ path = D_path w) /\
     (forall path : string,
        path <> G_path w -> path <> D_path w ->
        files w' !! path = files w !! path) /\
     ((exists e, 1 <= e <= n_epochs /\ e mod save_every = 0) ->
      exists pG pD,
        files w' !! G_path w = Some (pickled_G pG true) /\
        files w' !! D_path w = Some (pickled_D pD true))) /\
  (forall e w0 l0 w' l',
     train_epoch use_soft_labels e (w0, l0) = Ok (w', l') ->
     _current_datetime w' = _current_datetime w0 /\
     (e mod save_every = 0 ->
      files w'
      = <[D_path w0 := pickled_D (params (_D w')) true]>
          (<[G_path w0 := pickled_G (params (_G w')) true]> (files w0)) /\
      In (torch_save (G_path w0)) (since w0 w') /\
      In (torch_save (D_path w0)) (since w0 w')) /\
     (e mod save_every <> 0 ->
      files w' = files w0 /\
      forall path, ~ In (torch_save path) (since w0 w'))) /\
  (can_save w -> exists w1, checkpoint w = Ok w1) /\
  (forall w1,
     checkpoint w = Ok w1 ->
     files w1
     = <[D_path w := pickled_D (params (_D w)) (training (_D w))]>
         (<[G_path w := pickled_G (params (_G w)) (training (_G w))]>
            (files w)) /\
     calls w1 = (calls w ++ [torch_save (G_path w); torch_save (D_path w)])%list /\
     (forall w2 w3,
        _current_datetime w2 = _current_datetime w ->
        params (_G w2) = params (_G w) -> training (_G w2) = training (_G w) ->
        params (_D w2) = params (_D w) -> training (_D w2) = training (_D w) ->
        files w2 = files w1 ->
        checkpoint w2 = Ok w3 ->
        files w3 = files w1) /\
     exists w3, checkpoint w1 = Ok w3 /\ files w3 = files w1).
Proof.
  assert (Hidem : forall w2,
     _current_datetime w2 = _current_datetime w ->
     params (_G w2) = params (_G w) -> training (_G w2) = training (_G w) ->
     params (_D w2) = params (_D w) -> training (_D w2) = training (_D w) ->
     files w2 = files (written w) ->
     files (written w2) = files (written w)).
  { intros w2 Hd HGp HGt HDp HDt Hf.
    destruct (paths_eq _ _ Hd) as [PG PD].
    rewrite (written_files w2), Hf, written_files.
    rewrite PG, PD, HGp, HGt, HDp, HDt.
    apply map_eq. intros path.
    rewrite !lookup_insert. repeat case_decide; congruence. }
  split; [reflexivity|]. split; [reflexivity|]. split; [reflexivity|].
  split; [apply paths_differ|]. split; [|split; [|split]].
  - intros w' l' HT.
    pose proof HT as (Hd & (evs & Hc & HP) & Hf)%train_scoped.
    split; [exact Hd|]. split; [|split; [exact Hf|]].
    + exists evs. split; [exact Hc|]. intros path Hin. exact (HP _ Hin).
    + intros (e & He & Ehit). revert HT. unfold train.
      destruct (prepare next_letter_to_add w) as [[w0 l0]|] eqn:HPrep;
        cbn [bind]; [|discriminate].
      apply prepare_cases in HPrep as (i & m & _ & _ & _ & HPrep).
      injection HPrep as -> ->. intros HE.
      destruct (epochs_files_written _ _ _ _ _ _ HE) as (pG & pD & HG & HD).
      { exists e. split; [apply py_range_In; lia | exact Ehit]. }
      now exists pG, pD.
  - intros e w0 l0 w' l' HT.
    split; [exact (train_epoch_datetime _ _ _ _ _ _ HT)|].
    exact (train_epoch_files _ _ _ _ _ _ HT).
  - intros Hw. exists (written w). now apply checkpoint_ok.
  - intros w1 [Hw ->]%checkpoint_inv.
    split; [apply written_files|]. split; [apply written_calls|]. split.
    + intros w2 w3 Hd HGp HGt HDp HDt Hf [_ ->]%checkpoint_inv.
      now apply Hidem.
    + exists (written (written w)). split.
      * apply checkpoint_ok. exact (can_save_same w _ eq_refl Hw).
      * now apply Hidem.
Qed.

(** *** The records of a visualisation *)

Lemma py_take_app_exact {A} (l1 l2 : list A) :
  py_take (Z.of_nat (List.length l1)) (l1 ++ l2) = l1 /\
  py_drop (Z.of_nat (List.length l1)) (l1 ++ l2) = l2.
Proof.
  unfold py_take, py_drop, py_bound.
  destruct (Z.ltb_spec (Z.of_nat (List.length l1)) 0) as [Hneg|_]; [lia|].
  rewrite length_app.
  replace (Z.to_nat (Z.min (Z.of_nat (List.length l1))
                       (Z.of_nat (List.length l1 + List.length l2))))
    with (List.length l1) by lia.
  split.
  - rewrite firstn_app, Nat.sub_diag, firstn_all. cbn [firstn].
    now rewrite app_nil_r.
  - rewrite skipn_app, Nat.sub_diag, skipn_all. reflexivity.
Qed.

Lemma py_take_all {A} (l : list A) n :
  Z.of_nat (List.length l) <= n -> py_take n l = l /\ py_drop n l = [].
Proof.
  intros H. unfold py_take, py_drop, py_bound.
  destruct (Z.ltb_spec n 0) as [Hneg|_]; [lia|].
  replace (Z.to_nat (Z.min n (Z.of_nat (List.length l))))
    with (List.length l) by lia.
  now rewrite firstn_all, skipn_all.
Qed.

(** X10 (lines 183-189): the two loops of the fixed grid pair images
    with letters as [zip] does, in order and up to the shorter of the two
    lists.  When the traced generator returns [imagesP] followed by
    [imagesG] and [NUM_CHARS] is the length of [imagesP], the grid records,
    after the forward pass, the pairs of [imagesP] and the letters under
    [<letter>_P] and then the pairs of [imagesG] and the letters under
    [<letter>_G]; when [NUM_CHARS] is at least the number of images, the
    records are the pairs of all the images and the letters under
    [<letter>_P] (the images beyond the number of letters are not
    recorded), and no [_G] record is written; in every case the number of
    records is that of the forward pass and of the two zips. *)
Theorem fixed_grid_labels (e : Z) (w : state) (l : locals)
    (imagesP imagesG : list Image) :
  fixed_images w l = (imagesP ++ imagesG)%list ->
  (NUM_CHARS = Z.of_nat (List.length imagesP) ->
   since w (fixed_grid e w l)
   = (forward Generator (G_traced_mode (jit l))
      :: map (fun il : Image * string =>
                add_image ("Fixed latent points/" ++ snd il ++ "_P")
                  (finalizing_transform (fst il)) e)
             (combine imagesP (letters_to_watch l))
      ++ map (fun il : Image * string =>
                add_image ("Fixed latent points/" ++ snd il ++ "_G")
                  (finalizing_transform (fst il)) e)
             (combine imagesG (letters_to_watch l)))%list) /\
  (Z.of_nat (List.length (imagesP ++ imagesG)) <= NUM_CHARS ->
   since w (fixed_grid e w l)
   = (forward Generator (G_traced_mode (jit l))
      :: map (fun il : Image * string =>
                add_image ("Fixed latent points/" ++ snd il ++ "_P")
                  (finalizing_transform (fst il)) e)
             (combine (imagesP ++ imagesG) (letters_to_watch l)))%list) /\
  List.length (since w (fixed_grid e w l))
  = S (Nat.min (List.length (py_take NUM_CHARS (imagesP ++ imagesG)))
               (List.length (letters_to_watch l))
       + Nat.min (List.length (py_drop NUM_CHARS (imagesP ++ imagesG)))
                 (List.length (letters_to_watch l))).
Proof.
  intros Himg. split; [|split]; [intros HN | intros HN |];
    rewrite (since_app _ _ _ (fixed_grid_calls e w l));
    unfold grid_records; rewrite Himg.
  - rewrite HN. destruct (py_take_app_exact imagesP imagesG) as [-> ->].
    reflexivity.
  - destruct (py_take_all (imagesP ++ imagesG) NUM_CHARS HN) as [-> ->].
    cbn [combine map]. now rewrite app_nil_r.
  - cbn [List.length]. now rewrite length_app, !length_map, !length_combine.
Qed.

Lemma random_samples_figures e population js :
  population <> [] ->
  forall w,
    figure_tags
      (since w (fold_left (fun w i => random_sample e population i w) js w))
    = map (fun i => "Random characters/" ++ str_of_nat i) js /\
    exists evs,
      calls (fold_left (fun w i => random_sample e population i w) js w)
      = (calls w ++ evs)%list.
Proof.
  intros Hp. induction js as [|i js IH]; intros w; cbn [fold_left map].
  - split; [|exists []; now rewrite app_nil_r].
    rewrite (since_app w w []); [reflexivity | now rewrite app_nil_r].
  - destruct (random_sample_spec e population i w Hp)
      as (st & fig & _ & _ & Hcalls & _).
    destruct (IH (random_sample e population i w)) as [Htags [evs Hevs]].
    rewrite (since_app _ _ _ Hevs) in Htags.
    assert (Hall : calls (fold_left (fun w i => random_sample e population i w)
                            js (random_sample e population i w))
                   = (calls w
                      ++ [call_generate (training (_G w))
                            (" ", fst (choice " " population (numpy_random w)), " ") st;
                          add_figure ("Random characters/" ++ str_of_nat i) fig e]
                      ++ evs)%list).
    { rewrite Hevs, Hcalls. now rewrite <- app_assoc. }
    split; [|eexists; exact Hall].
    rewrite (since_app _ _ _ Hall). unfold figure_tags in *.
    cbn [flat_map app]. now rewrite Htags.
Qed.

(** X11 (lines 192-202): the list a random sample is drawn from is
    never empty, so the guard of line 194 never skips the samples: every
    visualisation records one figure per index below
    [num_characters_to_generate], under the tags [Random characters/0],
    [Random characters/1], ..., in that order, whatever the cursor. *)
Theorem random_figures_of_a_visualisation (e : Z) (w : state) (l : locals) :
  random_characters_to_generate (current_char_index l) <> [] /\
  figure_tags (since w (visualize e w l))
  = map (fun i => "Random characters/" ++ str_of_nat i)
        (seq 0 (Z.to_nat num_characters_to_generate)).
Proof.
  assert (Hne : random_characters_to_generate (current_char_index l) <> []).
  { unfold random_characters_to_generate. intros H.
    apply app_eq_nil in H as [_ H]. discriminate. }
  split; [exact Hne|].
  unfold visualize, random_samples.
  destruct (random_characters_to_generate (current_char_index l))
    as [|c0 pop] eqn:E; [contradiction|].
  destruct (random_samples_figures e (c0 :: pop)
              (seq 0 (Z.to_nat num_characters_to_generate)) Hne
              (fixed_grid e (G_eval w) l)) as [Htags [evs Hevs]].
  rewrite (since_app _ _ _ Hevs) in Htags.
  erewrite since_app.
  2:{ rewrite Hevs, fixed_grid_calls. cbn [calls G_eval log with_G].
      rewrite <- !app_assoc. reflexivity. }
  unfold figure_tags in *. rewrite flat_map_app, flat_map_app.
  cbn [flat_map app]. rewrite Htags.
  unfold grid_records. rewrite flat_map_app.
  assert (Hmap : forall sfx (ils : list (Image * string)),
            flat_map (fun c => match c with
                               | add_figure tag _ _ => [tag]
                               | _ => []
                               end)
              (map (fun il : Image * string =>
                      add_image ("Fixed latent points/" ++ snd il ++ sfx)
                        (finalizing_transform (fst il)) e) ils) = []).
  { intros sfx ils. induction ils as [|il ils IH]; [reflexivity|exact IH]. }
  now rewrite !Hmap.
Qed.

(** *** Checkpoints of two runs *)

Lemma string_length_app (a b : string) :
  String.length (a ++ b) = (String.length a + String.length b)%nat.
Proof.
  induction a as [|x a IH]; [reflexivity|].
  change (String x a ++ b) with (String x (a ++ b)).
  cbn [String.length]. now rewrite IH.
Qed.

Lemma string_app_inj_r (a b c : string) : a ++ c = b ++ c -> a = b.
Proof.
  revert b. induction a as [|x a IH]; intros [|y b] E.
  - reflexivity.
  - apply (f_equal String.length) in E.
    change (String y b ++ c) with (String y (b ++ c)) in E.
    change ("" ++ c) with c in E.
    cbn [String.length] in E. rewrite string_length_app in E. lia.
  - apply (f_equal String.length) in E.
    change (String x a ++ c) with (String x (a ++ c)) in E.
    change ("" ++ c) with c in E.
    cbn [String.length] in E. rewrite string_length_app in E. lia.
  - change (String x a ++ c) with (String x (a ++ c)) in E.
    change (String y b ++ c) with (String y (b ++ c)) in E.
    injection E as -> E. f_equal. now apply IH.
Qed.

Lemma model_path_inj (role run run' : string) :
  model_path role run = model_path role run' -> run = run'.
Proof.
  unfold model_path. intros E.
  apply (String.app_inj "./data/models/") in E.
  apply (String.app_inj role) in E.
  apply (String.app_inj "_") in E.
  now apply string_app_inj_r in E.
Qed.

Lemma G_path_not_D_path (w w' : state) : G_path w <> D_path w'.
Proof.
  unfold G_path, D_path, model_path. intros E.
  repeat (injection E as _ E). discriminate.
Qed.

(** X12 (lines 48-51, 170-174): the two files of a checkpoint are named
    by the timestamp alone: two trainers write the same generator file (or
    the same discriminator file) exactly when they have the same timestamp,
    and a generator file is never a discriminator file.  So on a shared
    directory (where the checkpoints return when the paths can be written)
    the checkpoint of a later run with another timestamp leaves the two
    files of the earlier run as they are, and the checkpoint of a run
    resumed under the same timestamp replaces both. *)
Theorem checkpoints_of_two_runs (w1 w2 : state) :
  (G_path w1 = G_path w2 <-> _current_datetime w1 = _current_datetime w2) /\
  (D_path w1 = D_path w2 <-> _current_datetime w1 = _current_datetime w2) /\
  G_path w1 <> D_path w2 /\
  (can_save w1 -> can_save w2 ->
   exists w1' w2',
     checkpoint w1 = Ok w1' /\
     checkpoint (with_files (files w1') w2) = Ok w2') /\
  (forall w1' w2',
     checkpoint w1 = Ok w1' ->
     checkpoint (with_files (files w1') w2) = Ok w2' ->
     (_current_datetime w1 <> _current_datetime w2 ->
      files w2' !! G_path w1
      = Some (pickled_G (params (_G w1)) (training (_G w1))) /\
      files w2' !! D_path w1
      = Some (pickled_D (params (_D w1)) (training (_D w1)))) /\
     (_current_datetime w1 = _current_datetime w2 ->
      files w2' !! G_path w1
      = Some (pickled_G (params (_G w2)) (training (_G w2))) /\
      files w2' !! D_path w1
      = Some (pickled_D (params (_D w2)) (training (_D w2))))).
Proof.
  assert (HG : G_path w1 = G_path w2 <-> _current_datetime w1 = _current_datetime w2).
  { split; [apply model_path_inj | intros E; exact (f_equal (model_path "G") E)]. }
  assert (HD : D_path w1 = D_path w2 <-> _current_datetime w1 = _current_datetime w2).
  { split; [apply model_path_inj | intros E; exact (f_equal (model_path "D") E)]. }
  split; [exact HG|]. split; [exact HD|].
  split; [apply G_path_not_D_path|]. split.
  { intros H1 H2. eexists _, _. split; [exact (checkpoint_ok _ H1)|].
    apply checkpoint_ok. exact (can_save_same w2 _ eq_refl H2). }
  intros w1' w2' [_ ->]%checkpoint_inv [_ ->]%checkpoint_inv.
  assert (Hfiles : files (written (with_files (files (written w1)) w2))
    = <[D_path w2 := pickled_D (params (_D w2)) (training (_D w2))]>
        (<[G_path w2 := pickled_G (params (_G w2)) (training (_G w2))]>
           (<[D_path w1 := pickled_D (params (_D w1)) (training (_D w1))]>
              (<[G_path w1 := pickled_G (params (_G w1)) (training (_G w1))]>
                 (files w1))))) by reflexivity.
  rewrite Hfiles.
  pose proof (G_path_not_D_path w1 w2) as N12.
  pose proof (G_path_not_D_path w2 w1) as N21.
  pose proof (G_path_not_D_path w1 w1) as N11.
  split.
  - intros Hne. split.
    + rewrite !lookup_insert. repeat case_decide; try congruence.
      all: exfalso; apply Hne; first [apply HG | apply HD]; congruence.
    + rewrite !lookup_insert. repeat case_decide; try congruence.
      all: exfalso; apply Hne; first [apply HD | apply HG]; congruence.
  - intros He. apply HG in He as EG. apply HD in He as ED. split.
    + rewrite !lookup_insert. repeat case_decide; try congruence.
    + rewrite !lookup_insert. repeat case_decide; try congruence.
Qed.

End Properties.

(** * The properties on the concrete instance *)

Lemma toy_can_save : can_save (C:=toy_collaborators) toy_trainer.
Proof. split; reflexivity. Qed.

Lemma stability_gate_witness :
  List.length toy_X <> 1%nat /\
  exists evs,
    calls (fst (train_batch (C:=toy_collaborators) (V:=toy_vars) toy_traced true
                  (toy_X, toy_labels, toy_style) (toy_trainer, 0)))
    = (calls toy_trainer ++ evs)%list /\
    In (optim_step Discriminator) evs /\
    ~ In (optim_step Generator) evs.
Proof.
  split; [discriminate|].
  destruct (stability_gate (C:=toy_collaborators) (V:=toy_vars) toy_traced true
              toy_X toy_labels toy_style toy_trainer 0 ltac:(discriminate))
    as (evs & Hc & HD & HG & _).
  exists evs. split; [exact Hc|]. split.
  - apply HD. vm_compute. reflexivity.
  - intros H. apply HG in H. vm_compute in H. discriminate.
Defined.

Lemma curriculum_cursor_witness :
  (@add_character_every toy_vars <> 0 /\ @save_every toy_vars <> 0 /\
   @produce_every toy_vars <> 0 /\
   @NUM_CHARS toy_vars
   <= Z.of_nat (List.length (keys (@character_to_index_mapping toy_vars))) /\
   0 <= current_char_index toy_locals /\
   can_save (C:=toy_collaborators) toy_trainer) /\
  exists w' l',
    train_epoch (C:=toy_collaborators) (V:=toy_vars) true 2
      (toy_trainer, toy_locals) = Ok (w', l') /\
    current_char_index l' = 2.
Proof.
  split; [repeat split; vm_compute; discriminate|].
  destruct (curriculum_cursor (C:=toy_collaborators) (V:=toy_vars) true 2
              toy_trainer toy_locals
              ltac:(discriminate) ltac:(discriminate) ltac:(discriminate)
              ltac:(vm_compute; discriminate) ltac:(vm_compute; discriminate)
              toy_can_save)
    as [(w1 & l1 & w' & l' & _ & HT & _ & _ & Hiff & _) _].
  exists w', l'. split; [exact HT|].
  apply Hiff. split; [reflexivity | vm_compute; reflexivity].
Defined.

Lemma degenerate_batch_skipped_witness :
  (List.length [30] = 1%nat /\ (List.length toy_X > 1)%nat) /\
  train_batch (C:=toy_collaborators) (V:=toy_vars) toy_traced true
    ([30], [[" "]; ["a"]; [" "]], [0%Q]) (toy_trainer, 5)
  = (toy_trainer, 5) /\
  snd (train_batch (C:=toy_collaborators) (V:=toy_vars) toy_traced true
         (toy_X, toy_labels, toy_style) (toy_trainer, 5)) = 6.
Proof.
  split; [split; [reflexivity | cbn; lia]|]. split.
  - apply (degenerate_batch_skipped (C:=toy_collaborators) (V:=toy_vars) toy_traced).
    reflexivity.
  - destruct (proj2 (degenerate_batch_skipped (C:=toy_collaborators)
                       (V:=toy_vars) toy_traced true toy_X toy_labels toy_style
                       toy_trainer 5) ltac:(cbn; lia))
      as (evs & vD & vG & Hn & _).
    exact Hn.
Defined.


Lemma discriminator_loss_is_mean_witness :
  (List.length toy_X > 1)%nat /\
  exists evs,
    calls (fst (train_batch (C:=toy_collaborators) (V:=toy_vars) toy_traced true
                  (toy_X, toy_labels, toy_style) (toy_trainer, 0)))
    = (calls toy_trainer ++ evs)%list /\
    exists v, In (add_scalar "Loss/Discriminator" v 1) evs /\ (v == 3 # 4)%Q.
Proof.
  split; [cbn; lia|].
  destruct (discriminator_loss_is_mean (C:=toy_collaborators) (V:=toy_vars) toy_traced
              true toy_X toy_labels toy_style toy_trainer 0 ltac:(cbn; lia))
    as (_ & _ & _ & _ & evs & Hc & Hin).
  exists evs. split; [exact Hc|].
  eexists. split; [exact Hin|]. vm_compute. reflexivity.
Defined.

Lemma discriminator_half_step_frames_generator_witness :
  List.length toy_X <> 1%nat /\
  _G (discriminator_half_step (C:=toy_collaborators) (V:=toy_vars) toy_traced true toy_X
        (batch_condition (C:=toy_collaborators) (toy_X, toy_labels, toy_style))
        1 toy_trainer)
  = _G toy_trainer.
Proof.
  split; [discriminate|].
  destruct (discriminator_half_step_frames_generator (C:=toy_collaborators)
              (V:=toy_vars) toy_traced true toy_X toy_labels toy_style toy_trainer 0)
    as (_ & _ & _ & _ & _ & HG & _).
  exact HG.
Defined.

Lemma checkpoints_run_scoped_witness :
  exists w' l',
    train (C:=toy_collaborators) (V:=toy_vars) 2 "a" true toy_trainer
    = Ok (w', l') /\
    _current_datetime w' = "2019-01-22 22:33:20.613720" /\
    files w' !! "./data/models/other.pt" = None /\
    exists pG,
      files w' !! "./data/models/G_2019-01-22 22:33:20.613720.pt"
      = Some (@pickled_G toy_collaborators pG true).
Proof.
  destruct (train_returns (C:=toy_collaborators) (V:=toy_vars) 2 "a" true
              toy_trainer 1 0%Q eq_refl ltac:(discriminate) eq_refl
              ltac:(discriminate) ltac:(discriminate) ltac:(discriminate)
              ltac:(discriminate) ltac:(vm_compute; discriminate)
              toy_can_save) as (w' & l' & HT).
  exists w', l'. split; [exact HT|].
  destruct (checkpoints_run_scoped (C:=toy_collaborators) (V:=toy_vars)
              2 "a" true toy_trainer) as (_ & _ & _ & _ & Hrun & _).
  destruct (Hrun w' l' HT) as (Hdt & _ & Hfiles & Hhit).
  split; [exact Hdt|]. split.
  - rewrite Hfiles; [reflexivity | vm_compute; discriminate | vm_compute; discriminate].
  - destruct Hhit as (pG & pD & HG & _).
    + exists 1. split; [lia | reflexivity].
    + exists pG. exact HG.
Defined.

(** With the cursor at 2 the key ["a"], of index 1, has been handed to the
    dataset, and yet it is not among the characters a random sample is
    drawn from. *)
Lemma newest_character_never_sampled :
  ~ (forall ch idx,
       In (ch, idx) (@character_to_index_mapping toy_vars) ->
       idx < 2 ->
       In ch (random_characters_to_generate (V:=toy_vars) 2)) /\
  match train (C:=toy_collaborators) (V:=toy_vars) 2 "a" true toy_trainer with
  | Ok (w', l') =>
      current_char_index l' = 2 /\
      characters_added (calls w') = ["a"] /\
      random_characters_to_generate (V:=toy_vars) (current_char_index l')
      = [" "; " "]
  | Raise _ => False
  end.
Proof.
  split.
  - intros H. specialize (H "a" 1 ltac:(right; now left) ltac:(lia)).
    vm_compute in H. destruct H as [H|[H|[]]]; discriminate.
  - vm_compute. repeat split.
Defined.

Lemma random_sample_population_witness :
  In " " (random_characters_to_generate (V:=toy_vars) 3) /\
  In "a" (random_characters_to_generate (V:=toy_vars) 3) /\
  ~ In "b" (random_characters_to_generate (V:=toy_vars) 3).
Proof.
  destruct (random_sample_population (C:=toy_collaborators) (V:=toy_vars) 1
              toy_trainer
              (@Locals toy_collaborators 3 0 [" "; "a"; "b"] O [] toy_traced))
    as (Hiff & _ & _).
  cbn [current_char_index] in Hiff. split; [|split].
  - apply Hiff. now left.
  - apply Hiff. right. exists 1. split; [right; now left | reflexivity].
  - intros [H|(idx & Hin & Hlt)]%Hiff; [discriminate|].
    destruct Hin as [H|[H|[H|[]]]]; inversion H; subst idx; lia.
Defined.

(** After a run whose last epoch ends with a visualisation, the generator
    is in evaluation mode: the last mode switch of the run is the
    generator's switch to evaluation mode. *)
Lemma generator_left_in_eval_mode :
  match train (C:=toy_collaborators) (V:=toy_vars) 1 "a" false toy_trainer with
  | Ok (w', _) =>
      training (_G w') = false /\
      mode_switches (calls w')
      = [(Generator, true); (Discriminator, true); (Generator, false)]
  | Raise _ => False
  end.
Proof. vm_compute. split; reflexivity. Defined.

Lemma visualization_modes_witness :
  exists w' l',
    train_epoch (C:=toy_collaborators) (V:=toy_vars) true 1
      (toy_trainer, toy_locals) = Ok (w', l') /\
    training (_G w') = false /\
    exists pre batches_evs end_evs,
      calls w'
      = (calls toy_trainer ++ pre
         ++ [set_train Generator; set_train Discriminator]
         ++ batches_evs ++ end_evs)%list /\
      ~ In (set_eval Generator) (pre ++ batches_evs).
Proof.
  destruct (train_epoch_cursor (C:=toy_collaborators) (V:=toy_vars) true 1
              toy_trainer toy_locals ltac:(discriminate) ltac:(discriminate)
              ltac:(discriminate) ltac:(vm_compute; discriminate)
              ltac:(vm_compute; discriminate) toy_can_save)
    as (w' & l' & HT & _).
  exists w', l'. split; [exact HT|].
  destruct (visualization_modes (C:=toy_collaborators) (V:=toy_vars) true 1
              toy_trainer toy_locals) as (_ & _ & Hepoch).
  destruct (Hepoch w' l' HT)
    as (Hmode & pre & batches_evs & end_evs & Hcalls & Hpre & Hbatches & _).
  split; [exact Hmode|].
  exists pre, batches_evs, end_evs. split; [exact Hcalls|].
  intros [Hin|Hin]%in_app_or; [|exact (Hbatches _ Hin)].
  destruct Hpre as [->|[ch ->]]; [exact Hin|].
  destruct Hin as [Hin|[]]. discriminate.
Defined.

(** Two calls of [train] on one trainer: the generator's parameters are
    the same throughout, yet the second call draws new latent points, and
    its fixed grid for epoch 1 shows another image than that of the first
    call for epoch 1. *)
Lemma latent_points_redrawn_by_train :
  match train (C:=toy_collaborators) (V:=toy_vars) 1 "a" false toy_trainer with
  | Ok (w1, l1) =>
      match train (C:=toy_collaborators) (V:=toy_vars) 1 "a" false w1 with
      | Ok (w2, l2) =>
          params (_G w1) = params (_G toy_trainer) /\
          params (_G w2) = params (_G toy_trainer) /\
          fixed_latent_points l1 = 0%nat /\
          fixed_latent_points l2 = 9%nat /\
          jit l1 = Traced true true /\
          jit l2 = Traced false true /\
          images_under "Fixed latent points/a_P" (calls w1) = [(107, 1)] /\
          images_under "Fixed latent points/a_P"
            (skipn (List.length (calls w1)) (calls w2)) = [(16, 1)]
      | Raise _ => False
      end
  | Raise _ => False
  end.
Proof. vm_compute. repeat split. Defined.

Lemma fixed_latent_grid_witness :
  exists w0 l0,
    prepare (C:=toy_collaborators) (V:=toy_vars) "a" toy_trainer = Ok (w0, l0) /\
    fixed_latent_points l0 = O /\
    forall w1 l1,
      epochs (C:=toy_collaborators) (V:=toy_vars) true [1] (w0, l0)
      = Ok (w1, l1) ->
      fixed_latent_points l1 = O /\
      forall w2 l2,
        epochs (C:=toy_collaborators) (V:=toy_vars) true [2] (w1, l1)
        = Ok (w2, l2) ->
        params (_G w1) = params (_G w2) ->
        fixed_images (G_eval w1) l1 = fixed_images (G_eval w2) l2.
Proof.
  eexists _, _. split; [reflexivity|].
  destruct (fixed_latent_grid (C:=toy_collaborators) (V:=toy_vars) true "a"
              [1] [2] 1 toy_trainer) as (_ & Hprep & _).
  destruct (Hprep _ _ eq_refl) as (Hz & _ & _ & _ & _ & Hkeep).
  split; [exact Hz|].
  intros w1 l1 HE1. destruct (Hkeep w1 l1 HE1) as (_ & Hl & _ & _ & Hsame).
  split; [exact (eq_trans Hl Hz)|].
  intros w2 l2 HE2 Hp. exact (proj1 (Hsame w2 l2 HE2 Hp)).
Defined.

(** A run of two epochs from the letter ["a"]: the second epoch hands ["a"]
    to the dataset. *)
Lemma characters_unlocked_in_key_order_witness :
  exists w' l',
    train (C:=toy_collaborators) (V:=toy_vars) 2 "a" true toy_trainer
    = Ok (w', l') /\
    characters_added (since toy_trainer w')
    = py_slice 1 (current_char_index l')
        (keys (@character_to_index_mapping toy_vars)) /\
    _dataset w'
    = fold_left (@add_character_to_training toy_collaborators)
        (py_slice 1 (current_char_index l')
           (keys (@character_to_index_mapping toy_vars)))
        (_dataset toy_trainer).
Proof.
  destruct (train_returns (C:=toy_collaborators) (V:=toy_vars) 2 "a" true
              toy_trainer 1 0%Q eq_refl ltac:(discriminate) eq_refl
              ltac:(discriminate) ltac:(discriminate) ltac:(discriminate)
              ltac:(discriminate) ltac:(vm_compute; discriminate)
              toy_can_save) as (w' & l' & HT).
  exists w', l'. split; [exact HT|].
  destruct (characters_unlocked_in_key_order (C:=toy_collaborators)
              (V:=toy_vars) 2 "a" true toy_trainer w' l' 1 HT eq_refl
              ltac:(discriminate)) as (_ & Hadded & Hdata).
  split; [exact Hadded | exact Hdata].
Defined.

Lemma discriminator_never_in_eval_mode_witness :
  exists w' l',
    train (C:=toy_collaborators) (V:=toy_vars) 2 "a" true toy_trainer
    = Ok (w', l') /\
    ~ In (set_eval Discriminator) (since toy_trainer w') /\
    training (_D w') = true.
Proof.
  destruct (train_returns (C:=toy_collaborators) (V:=toy_vars) 2 "a" true
              toy_trainer 1 0%Q eq_refl ltac:(discriminate) eq_refl
              ltac:(discriminate) ltac:(discriminate) ltac:(discriminate)
              ltac:(discriminate) ltac:(vm_compute; discriminate)
              toy_can_save) as (w' & l' & HT).
  exists w', l'. split; [exact HT|].
  destruct (discriminator_never_in_eval_mode (C:=toy_collaborators)
              (V:=toy_vars) 2 "a" true toy_trainer w' l' 1 HT eq_refl
              ltac:(discriminate)) as (Hnever & _ & Hmode).
  split; [exact Hnever | exact (Hmode ltac:(discriminate))].
Defined.

(** Five epochs from the space, one character every two epochs: the
    cursor ends at 2. *)
Lemma cursor_after_training_witness :
  exists w' l',
    train (C:=toy_collaborators) (V:=toy_vars) 5 " " true toy_trainer
    = Ok (w', l') /\
    current_char_index l' = 2.
Proof.
  destruct (cursor_after_training (C:=toy_collaborators) (V:=toy_vars) 5 " "
              true toy_trainer 0 0%Q eq_refl
              ltac:(split; vm_compute; discriminate) ltac:(reflexivity)
              ltac:(discriminate) ltac:(discriminate)
              ltac:(vm_compute; discriminate) ltac:(discriminate)
              eq_refl ltac:(discriminate) toy_can_save)
    as (w' & l' & HT & Hc).
  exists w', l'. split; [exact HT | exact Hc].
Defined.

Lemma checkpoint_holds_epoch_parameters_witness :
  exists w' l',
    train_epoch (C:=toy_collaborators) (V:=toy_vars) true 1
      (toy_trainer, toy_locals) = Ok (w', l') /\
    files w' !! G_path toy_trainer
    = Some (@pickled_G toy_collaborators (params (_G w')) true) /\
    files w' !! D_path toy_trainer
    = Some (@pickled_D toy_collaborators (params (_D w')) true).
Proof.
  destruct (train_epoch_cursor (C:=toy_collaborators) (V:=toy_vars) true 1
              toy_trainer toy_locals ltac:(discriminate) ltac:(discriminate)
              ltac:(discriminate) ltac:(vm_compute; discriminate)
              ltac:(vm_compute; discriminate) toy_can_save)
    as (w' & l' & HT & _).
  exists w', l'. split; [exact HT|].
  exact (checkpoint_holds_epoch_parameters (C:=toy_collaborators)
           (V:=toy_vars) true 1 toy_trainer w' toy_locals l' HT eq_refl).
Defined.

(** Three letters and six rows of conditioning: three images under [_P],
    then three under [_G]. *)
Lemma fixed_grid_labels_witness :
  fixed_images (C:=toy_collaborators) toy_trainer toy_grid_locals
  = (toy_grid_images ++ toy_grid_images)%list /\
  since toy_trainer
    (fixed_grid (C:=toy_collaborators) (V:=toy_vars) 1 toy_trainer
       toy_grid_locals)
  = [@forward toy_collaborators Generator true;
     @add_image toy_collaborators "Fixed latent points/ _P" 107 1;
     @add_image toy_collaborators "Fixed latent points/a_P" 107 1;
     @add_image toy_collaborators "Fixed latent points/b_P" 107 1;
     @add_image toy_collaborators "Fixed latent points/ _G" 107 1;
     @add_image toy_collaborators "Fixed latent points/a_G" 107 1;
     @add_image toy_collaborators "Fixed latent points/b_G" 107 1].
Proof.
  split; [reflexivity|].
  destruct (fixed_grid_labels (C:=toy_collaborators) (V:=toy_vars) 1
              toy_trainer toy_grid_locals toy_grid_images toy_grid_images
              eq_refl)
    as [Hsplit _].
  exact (Hsplit eq_refl).
Defined.

(** * Properties of the web backend *)

Module BackendFacts.
Import Backend.

(** ** Padding *)

Lemma combine_with_repeat {A B} (l : list A) (b : B) n :
  List.length l = n -> combine l (repeat b n) = map (fun a => (a, b)) l.
Proof. intros <-. apply combine_repeat. Qed.

Lemma black_pad_rows (line : ndarray) n :
  List.length (rows line) = shape0 line ->
  rows (concatenate1 line (zeros (shape0 line) n))
  = map (fun r => (r ++ repeat 0%Q n)%list) (rows line).
Proof.
  intros Hlen. unfold concatenate1, zeros. cbn [rows].
  rewrite (combine_with_repeat _ _ _ Hlen), map_map. reflexivity.
Qed.

Lemma black_pad_return (line padded : ndarray) :
  well_formed line ->
  black_pad line = Return padded ->
  well_formed padded /\
  shape0 padded = shape0 line /\
  shape1 padded = 1900%nat /\
  rows padded
  = map (fun r => (r ++ repeat 0%Q (1900 - shape1 line))%list) (rows line).
Proof.
  intros [Hlen Hrows]. unfold black_pad, display_width.
  destruct (Z.ltb_spec (1900 - Z.of_nat (shape1 line)) 0) as [Hlt|Hge];
    [discriminate|].
  intros Hp. injection Hp as <-.
  replace (Z.to_nat (1900 - Z.of_nat (shape1 line)))
    with (1900 - shape1 line)%nat by lia.
  rewrite black_pad_rows by assumption.
  split; [|split; [reflexivity|split; [cbn [shape1 concatenate1 zeros]; lia|reflexivity]]].
  unfold well_formed. rewrite black_pad_rows by assumption.
  cbn [shape0 shape1 concatenate1 zeros]. split.
  - now rewrite length_map.
  - intros r [r0 [<- Hin]]%in_map_iff.
    rewrite length_app, repeat_length, (Hrows _ Hin). lia.
Qed.

(** X13 (lines 64-69): on a rectangular array, [black_pad] raises
    [ValueError] exactly when the line is wider than the display (1900
    columns); otherwise it returns a rectangular array of the same height
    and of width 1900 whose rows are the rows of the line, each followed by
    zeros. *)
Theorem black_pad_pads_to_display_width (line : ndarray) :
  well_formed line ->
  (black_pad line = Throw ValueError <-> (1900 < shape1 line)%nat) /\
  ((shape1 line <= 1900)%nat -> exists padded, black_pad line = Return padded) /\
  (forall padded,
     black_pad line = Return padded ->
     well_formed padded /\
     shape0 padded = shape0 line /\
     shape1 padded = 1900%nat /\
     rows padded
     = map (fun r => (r ++ repeat 0%Q (1900 - shape1 line))%list) (rows line)).
Proof.
  intros Hwf. split; [|split].
  - unfold black_pad, display_width.
    destruct (Z.ltb_spec (1900 - Z.of_nat (shape1 line)) 0) as [Hlt|Hge].
    + split; [intros _; lia | reflexivity].
    + split; [discriminate | lia].
  - intros Hw. unfold black_pad, display_width.
    destruct (Z.ltb_spec (1900 - Z.of_nat (shape1 line)) 0) as [Hlt|Hge];
      [lia | eauto].
  - intros padded. now apply black_pad_return.
Qed.

(** X14 (lines 64-69): padding is idempotent: a padded line is padded
    to itself. *)
Theorem black_pad_idempotent (line padded : ndarray) :
  well_formed line ->
  black_pad line = Return padded ->
  black_pad padded = Return padded.
Proof.
  intros Hwf Hp.
  destruct (black_pad_return line padded Hwf Hp) as ([Hlen Hrows] & _ & Hw & _).
  unfold black_pad, display_width. rewrite Hw. cbn [Z.ltb Z.sub Z.of_nat].
  f_equal. destruct padded as [n m rs]. cbn [shape0 shape1 rows] in *.
  unfold concatenate1. cbn [shape0 shape1 rows zeros]. subst m.
  f_equal.
  rewrite (combine_with_repeat _ _ _ Hlen), map_map.
  rewrite <- (map_id rs) at 2. apply map_ext. intros r. cbn.
  apply app_nil_r.
Qed.

(** ** Choosing the model *)

Lemma append_cons (x : Ascii.ascii) (a b : string) :
  String x a ++ b = String x (a ++ b).
Proof. reflexivity. Qed.

(** X15 (lines 151-164): the model that is loaded is the first name of
    the listing that is a file, ends in [.pt], starts with [G] and holds the
    name asked for, under the models' directory; the start-up raises
    exactly when the listing has no such name.  A file of a discriminator
    is never loaded, whatever name is asked for. *)
Theorem find_model_first_match (listing : list string)
    (isfile : string -> bool) (model : string) :
  let wanted f := is_generator_file isfile f && contains model f in
  (find_model listing isfile model = Throw ModelNotFound <->
   forall f, In f listing -> wanted f = false) /\
  (forall g_path,
     find_model listing isfile model = Return g_path <->
     exists before f after,
       listing = (before ++ f :: after)%list /\
       (forall f', In f' before -> wanted f' = false) /\
       wanted f = true /\
       g_path = models_path ++ f) /\
  (forall g_path f,
     find_model listing isfile model = Return g_path ->
     g_path = models_path ++ f ->
     exists rest, f = String "G" rest).
Proof.
  intros wanted.
  assert (Hne : forall f, String.eqb (models_path ++ f) "" = false)
    by reflexivity.
  assert (Hinj : forall f f', models_path ++ f = models_path ++ f' -> f = f').
  { intros f f' E. unfold models_path in E.
    repeat (rewrite !append_cons in E; injection E as E). exact E. }
  assert (Hfirst : forall l,
    (first_containing model (List.filter (is_generator_file isfile) l) = "" /\
     forall f, In f l -> wanted f = false) \/
    (exists before f after,
       l = (before ++ f :: after)%list /\
       (forall f', In f' before -> wanted f' = false) /\
       wanted f = true /\
       first_containing model (List.filter (is_generator_file isfile) l)
       = models_path ++ f)).
  { induction l as [|f l IH]; cbn [List.filter first_containing].
    - left. split; [reflexivity | intros f []].
    - assert (Hcons : wanted f = false ->
        (first_containing model (List.filter (is_generator_file isfile) l) = "" /\
           forall f0, In f0 (f :: l) -> wanted f0 = false) \/
        (exists before f0 after,
           f :: l = (before ++ f0 :: after)%list /\
           (forall f', In f' before -> wanted f' = false) /\
           wanted f0 = true /\
           first_containing model (List.filter (is_generator_file isfile) l)
           = models_path ++ f0)).
      { intros Hf.
        destruct IH as [[E Hall]|(before & f0 & after & -> & Hb & Hf0 & E)].
        - left. split; [exact E|]. intros f0 [<-|Hin]; auto.
        - right. exists (f :: before), f0, after.
          repeat split; try assumption. intros f' [<-|Hin]; auto. }
      unfold wanted in Hcons at 1.
      destruct (is_generator_file isfile f) eqn:Hgen; cbn [first_containing].
      + destruct (contains model f) eqn:Hc.
        * right. exists [], f, l. repeat split.
          -- intros f' [].
          -- unfold wanted. now rewrite Hgen, Hc.
        * now apply Hcons.
      + now apply Hcons. }
  assert (Hunique : forall before f after before' f' after',
    (before ++ f :: after)%list = (before' ++ f' :: after')%list ->
    (forall x, In x before -> wanted x = false) -> wanted f = true ->
    (forall x, In x before' -> wanted x = false) -> wanted f' = true ->
    f = f').
  { induction before as [|x before IH]; intros f after [|x' before'] f' after' E
      Hb Hf Hb' Hf'; cbn in E.
    - now injection E.
    - injection E as -> _. rewrite (Hb' x') in Hf by now left. discriminate.
    - injection E as -> _. rewrite (Hb f') in Hf' by now left. discriminate.
    - injection E as _ E. eapply (IH _ _ _ _ _ E); auto.
      + intros y Hy. apply Hb. now right.
      + intros y Hy. apply Hb'. now right. }
  unfold find_model.
  destruct (Hfirst listing) as [[E Hall]|(before & f & after & El & Hb & Hf & E)];
    rewrite E.
  - split; [|split].
    + split; [intros _; exact Hall | reflexivity].
    + intros g_path. cbn [String.eqb]. split; [discriminate|].
      intros (before & f & after & -> & _ & Hf & _).
      rewrite Hall in Hf by (apply in_or_app; right; now left). discriminate.
    + cbn [String.eqb]. discriminate.
  - rewrite Hne. split; [|split].
    + split; [discriminate|]. intros Hall.
      rewrite Hall in Hf by (rewrite El; apply in_or_app; right; now left).
      discriminate.
    + intros g_path. split.
      * intros Eg. injection Eg as <-. exists before, f, after. now repeat split.
      * intros (before' & f' & after' & El' & Hb' & Hf' & ->).
        rewrite El in El'.
        now rewrite (Hunique _ _ _ _ _ _ El' Hb Hf Hb' Hf').
    + intros g_path f0 Eg Ep. injection Eg as <-. apply Hinj in Ep as <-.
      unfold wanted, is_generator_file in Hf.
      destruct f as [|c rest]; [now rewrite !andb_false_r in Hf|].
      apply andb_prop in Hf as [Hf _]. apply andb_prop in Hf as [_ Hc].
      apply Ascii.eqb_eq in Hc as ->. now exists rest.
Qed.

(** ** Cleaning the text *)

Section ServerFacts.
Context {V : GlobalVars} {H : Helpers}.

Lemma append_assoc (a b c : string) : (a ++ b) ++ c = a ++ (b ++ c).
Proof.
  induction a as [|x a IH]; [reflexivity|].
  rewrite !append_cons. now rewrite IH.
Qed.

Lemma append_empty (a : string) : a ++ "" = a.
Proof.
  induction a as [|x a IH]; [reflexivity|].
  rewrite append_cons. now rewrite IH.
Qed.

Lemma clean_onto_append (acc t : string) :
  clean_onto acc t = acc ++ clean t.
Proof.
  unfold clean. revert acc. induction t as [|c t IH]; intros acc;
    cbn [clean_onto].
  - now rewrite append_empty.
  - destruct (bool_decide (String c "" ∈ characters_set)).
    + rewrite (IH (acc ++ String c "")), (IH ("" ++ String c "")).
      rewrite append_assoc. reflexivity.
    + apply IH.
Qed.

(** The loop, one character at a time. *)
Lemma clean_cons (c : Ascii.ascii) (t : string) :
  clean (String c t)
  = if bool_decide (String c "" ∈ characters_set)
    then String c (clean t) else clean t.
Proof.
  unfold clean at 1. cbn [clean_onto].
  destruct (bool_decide (String c "" ∈ characters_set)); [|reflexivity].
  rewrite clean_onto_append. reflexivity.
Qed.

(** X16 (lines 26-27, 85-89): the cleaned text holds only characters
    that are keys of the mapping or the space, in the order of the text; a
    clean text is left as it is (cleaning twice is cleaning once); cleaning
    distributes over concatenation and never lengthens the text. *)
Theorem clean_keeps_allowed_characters (t : string) :
  (forall c,
     In c (String.list_ascii_of_string (clean t)) ->
     In c (String.list_ascii_of_string t) /\
     (String c "" = " " \/
      In (String c "") (keys character_to_index_mapping))) /\
  ((forall c, In c (String.list_ascii_of_string t) ->
              String c "" = " " \/
              In (String c "") (keys character_to_index_mapping)) ->
   clean t = t) /\
  clean (clean t) = clean t /\
  (forall t', clean (t ++ t') = clean t ++ clean t') /\
  (String.length (clean t) <= String.length t)%nat.
Proof.
  assert (Hset : forall c : Ascii.ascii,
            String c "" ∈ characters_set <->
            String c "" = " " \/
            In (String c "") (keys character_to_index_mapping)).
  { intros c. unfold characters_set.
    rewrite elem_of_union, elem_of_list_to_set, elem_of_singleton,
      list_elem_of_In. tauto. }
  split; [|split; [|split; [|split]]].
  - induction t as [|x t IH]; intros c; [intros []|].
    rewrite clean_cons. case_bool_decide as Hx.
    + cbn [String.list_ascii_of_string In].
      intros [<-|Hin]; [split; [now left | now apply Hset]|].
      destruct (IH c Hin). split; [now right | assumption].
    + intros Hin. destruct (IH c Hin). split; [now right | assumption].
  - induction t as [|x t IH]; intros Hall; [reflexivity|].
    rewrite clean_cons. case_bool_decide as Hx.
    + f_equal. apply IH. intros c Hc. apply Hall. now right.
    + exfalso. apply Hx, Hset, Hall. now left.
  - induction t as [|x t IH]; [reflexivity|].
    rewrite clean_cons. case_bool_decide as Hx; [|exact IH].
    rewrite clean_cons. rewrite bool_decide_eq_true_2 by assumption.
    now rewrite IH.
  - induction t as [|x t IH]; intros t'; [reflexivity|].
    rewrite append_cons, !clean_cons.
    case_bool_decide; [rewrite append_cons; now rewrite IH | apply IH].
  - induction t as [|x t IH]; [reflexivity|].
    rewrite clean_cons. case_bool_decide; cbn [String.length]; lia.
Qed.

(** ** Splitting *)

Lemma split_from_nil (s : list Ascii.ascii) (word : list Ascii.ascii) :
  split_from s word = [] <->
  word = [] /\ forall c, In c s -> isspace c = true.
Proof.
  revert word. induction s as [|c s IH]; intros word; cbn [split_from].
  - destruct word; split; try discriminate.
    + intros _. split; [reflexivity | intros c []].
    + reflexivity.
    + intros [E _]. discriminate.
  - destruct (isspace c) eqn:Hc.
    + destruct word as [|x word].
      * rewrite IH. split.
        -- intros [_ Hs]. split; [reflexivity|]. intros c' [<-|Hin]; auto.
        -- intros [_ Hs]. split; [reflexivity|]. intros c' Hin.
           apply Hs. now right.
      * split; [discriminate | intros [E _]; discriminate].
    + rewrite IH. split; [intros [E _]; discriminate|].
      intros [_ Hs]. specialize (Hs c (or_introl eq_refl)). congruence.
Qed.

(** ** The request handler *)

Lemma str_at_throws (s : string) i e : str_at s i = Throw e -> e = IndexError.
Proof.
  unfold str_at. destruct (py_index _ _); [discriminate|].
  intros E. now injection E.
Qed.

Lemma list_ascii_length (s : string) :
  List.length (String.list_ascii_of_string s) = String.length s.
Proof. induction s as [|c s IH]; cbn; [reflexivity | now rewrite IH]. Qed.

Lemma str_at_beyond (s : string) (i : Z) :
  Z.of_nat (String.length s) <= i -> str_at s i = Throw IndexError.
Proof.
  intros Hi. unfold str_at, py_index. rewrite list_ascii_length.
  destruct (Z.ltb_spec i 0) as [Hneg|_]; [lia|].
  destruct (Z.ltb_spec i (Z.of_nat (String.length s))) as [Hlt|_]; [lia|].
  rewrite andb_false_r. reflexivity.
Qed.

Lemma word_image_throws st word g e g' :
  word_image st word g = (Throw e, g') -> e = IndexError.
Proof.
  unfold word_image.
  destruct (generate_optimized_from_string g word st) as [[|first others] g1];
    intros E; try discriminate; injection E as <- _; reflexivity.
Qed.

Lemma word_images_spec st ws :
  forall g,
    match word_images st ws g with
    | (Throw e, _) => e = IndexError
    | (Return images, _) => List.length images = List.length ws
    end.
Proof.
  induction ws as [|word ws IH]; intros g; cbn [word_images]; [reflexivity|].
  destruct (word_image st word g) as [[image|e] g1] eqn:E1.
  - specialize (IH g1). destruct (word_images st ws g1) as [[images|e] g2].
    + cbn [List.length]. now rewrite IH.
    + exact IH.
  - now apply word_image_throws in E1.
Qed.

Lemma stitch_words_throws st :
  forall next portion prev g e g',
    stitch_words st portion prev next g = (Throw e, g') -> e = IndexError.
Proof.
  induction next as [|[next_word next_image] more IH];
    intros portion prev g e g'; cbn [stitch_words]; [discriminate|].
  destruct (str_at prev (-1)) as [a|e1];
    [|intros E; injection E as <- _; reflexivity].
  destruct (str_at next_word 0) as [b|e2];
    [|intros E; injection E as <- _; reflexivity].
  destruct (generate_optimized_from_string g (a ++ " " ++ b) st)
    as [[|space_image spaces] g1].
  - intros E. injection E as <- _. reflexivity.
  - apply IH.
Qed.

(** X17 (lines 91, 125-134): a request whose index is not the length of
    the stored text changes nothing, neither the stored state nor the
    generator, and answers from the current line alone: [AttributeError]
    when there is no line yet, [ValueError] when the line is wider than the
    display, and the encoding of the padded line otherwise. *)
Theorem insert_in_the_middle (req : request) (s : state) (g : Gen) :
  param_index req <> Z.of_nat (String.length (text s)) ->
  snd (fst (insert req s g)) = s /\
  snd (insert req s g) = g /\
  (current_line s = None ->
   fst (fst (insert req s g)) = Throw AttributeError) /\
  (forall line,
     current_line s = Some line ->
     ((1900 < shape1 line)%nat ->
      fst (fst (insert req s g)) = Throw ValueError) /\
     ((shape1 line <= 1900)%nat ->
      exists padded,
        black_pad line = Return padded /\
        fst (fst (insert req s g)) = Return (ndarray_to_base64 padded))).
Proof.
  intros Hidx. unfold insert.
  destruct (Z.eqb_spec (param_index req) (Z.of_nat (String.length (text s))))
    as [E|_]; [contradiction|].
  cbn [fst snd]. split; [reflexivity|]. split; [reflexivity|].
  unfold respond. split.
  - intros ->. reflexivity.
  - intros line ->. unfold black_pad, display_width.
    destruct (Z.ltb_spec (1900 - Z.of_nat (shape1 line)) 0) as [Hlt|Hge].
    + split; [reflexivity | lia].
    + split; [lia | eauto].
Qed.

(** X18 (lines 91-106): a request at the end of the text that brings no
    new word (from the index on, the cleaned text, with its added spaces,
    holds only spaces) raises [IndexError] at line 106, after the stored
    text has been overwritten by the cleaned text; the word images, the
    current line and the generator are as before.  So does every request
    without text on a new server. *)
Theorem insert_without_new_word (req : request) (s : state) (g : Gen) :
  (param_index req = Z.of_nat (String.length (text s)) ->
   new_words s (param_index req) (clean (param_text req)) = [] ->
   insert req s g
   = (Throw IndexError,
      State (words s) (current_line s) (clean (param_text req)), g)) /\
  (forall index t,
     new_words s index t = [] <->
     forall c,
       In c (String.list_ascii_of_string
               (str_from index
                  (match current_line s with
                   | None => " " ++ t
                   | Some _ => t
                   end ++ " "))) ->
       isspace c = true) /\
  (param_index req = 0 -> clean (param_text req) = "" ->
   insert req initial_state g = (Throw IndexError, initial_state, g)).
Proof.
  assert (Hfirst :
    param_index req = Z.of_nat (String.length (text s)) ->
    new_words s (param_index req) (clean (param_text req)) = [] ->
    insert req s g
    = (Throw IndexError,
       State (words s) (current_line s) (clean (param_text req)), g)).
  { intros Hidx Hnew. unfold insert. rewrite Hidx, Z.eqb_refl.
    unfold insert_at_end. rewrite <- Hidx, Hnew. cbn [word_images words].
    now rewrite app_nil_r. }
  split; [exact Hfirst|]. split.
  - intros index t. unfold new_words.
    set (u := str_from index _).
    split.
    + intros E c Hc. destruct (split u) eqn:Es; [|discriminate].
      unfold split in Es. apply split_from_nil in Es as [_ Hs]. now apply Hs.
    + intros Hs. unfold split.
      rewrite (proj2 (split_from_nil (String.list_ascii_of_string u) [])
                 (conj eq_refl Hs)).
      reflexivity.
  - intros Hidx Hclean. unfold insert. rewrite Hidx, Hclean.
    cbn [initial_state text String.length Z.of_nat Z.eqb].
    reflexivity.
Qed.

(** X19 (lines 91-116): a line cannot be continued by a single
    character: with a current line, a request at the end of the text whose
    cleaned text is at most one character longer than the stored text
    raises [IndexError] (at the latest at line 116, which reads the
    character after the index); the stored text is overwritten all the same
    and the current line stays as it was. *)
Theorem insert_single_character_fails (req : request) (s : state) (g : Gen)
    (line : ndarray) :
  current_line s = Some line ->
  param_index req = Z.of_nat (String.length (text s)) ->
  (String.length (clean (param_text req)) <= S (String.length (text s)))%nat ->
  fst (fst (insert req s g)) = Throw IndexError /\
  text (snd (fst (insert req s g))) = clean (param_text req) /\
  current_line (snd (fst (insert req s g))) = Some line.
Proof.
  intros Hline Hidx Hlen. unfold insert. rewrite Hidx, Z.eqb_refl.
  unfold insert_at_end. cbn [words current_line text].
  set (ws := new_words s _ _).
  pose proof (word_images_spec (param_style req) ws g) as Hw.
  destruct (word_images (param_style req) ws g) as [[[|first images]|e] g1].
  - cbn [fst snd text current_line]. now repeat split.
  - destruct (stitch_words (param_style req) first (hd "" ws)
                (combine (tl ws) images) g1) as [[portion|e] g2] eqn:Es.
    + unfold attach. cbn [current_line text words]. rewrite Hline.
      destruct (str_at (clean (param_text req))
                  (Z.of_nat (String.length (text s)) - 1)) as [a|e] eqn:Ea.
      * rewrite (str_at_beyond (clean (param_text req))) by lia.
        cbn [fst snd text current_line]. now repeat split.
      * apply str_at_throws in Ea as ->. cbn [fst snd text current_line].
        now repeat split.
    + apply stitch_words_throws in Es as ->.
      cbn [fst snd text current_line]. now repeat split.
  - subst e. cbn [fst snd text current_line]. now repeat split.
Qed.

(** X20 (lines 91-134): when a request at the end of the text is
    answered, the stored text is the cleaned text of the request, the
    stored word images have grown by one image per new word (and there is
    at least one new word), and the answer is the encoding of the current
    line padded to the display width, which the line does not exceed. *)
Theorem insert_at_end_answered (req : request) (s s' : state) (g g' : Gen)
    (response : string) :
  param_index req = Z.of_nat (String.length (text s)) ->
  insert req s g = (Return response, s', g') ->
  text s' = clean (param_text req) /\
  new_words s (param_index req) (clean (param_text req)) <> [] /\
  List.length (words s')
  = (List.length (words s)
     + List.length (new_words s (param_index req) (clean (param_text req))))%nat /\
  exists line padded,
    current_line s' = Some line /\
    (shape1 line <= 1900)%nat /\
    black_pad line = Return padded /\
    response = ndarray_to_base64 padded.
Proof.
  intros Hidx. unfold insert. rewrite Hidx, Z.eqb_refl. rewrite <- Hidx.
  unfold insert_at_end. cbn [words current_line text].
  set (ws := new_words s _ _).
  pose proof (word_images_spec (param_style req) ws g) as Hw.
  destruct (word_images (param_style req) ws g) as [[[|first images]|e] g1];
    try discriminate.
  destruct (stitch_words (param_style req) first (hd "" ws)
              (combine (tl ws) images) g1) as [[portion|e] g2];
    [|discriminate].
  set (s1 := State (words s ++ first :: images) (current_line s)
                   (clean (param_text req))).
  assert (Hattach : forall r s2 g3,
            attach (param_style req) (param_index req) portion s1 g2
            = (r, s2, g3) ->
            text s2 = text s1 /\ words s2 = words s1).
  { unfold attach. intros r s2 g3.
    destruct (current_line s1) as [l0|].
    - destruct (str_at (text s1) (param_index req - 1));
        [|intros E; injection E as _ <- _; now split].
      destruct (str_at (text s1) (param_index req + 1));
        [|intros E; injection E as _ <- _; now split].
      destruct (generate_optimized_from_string _ _ _) as [[|sp sps] g4];
        intros E; injection E as _ <- _; now split.
    - intros E. injection E as _ <- _. now split. }
  destruct (attach (param_style req) (param_index req) portion s1 g2)
    as [[[[]|e] s2] g3] eqn:Ea; [|discriminate].
  destruct (Hattach _ _ _ eq_refl) as [Ht Hws].
  unfold respond.
  destruct (current_line s2) as [line|] eqn:Hl; [|discriminate].
  destruct (black_pad line) as [padded|e] eqn:Hp; [|discriminate].
  intros E. injection E as <- <- <-.
  split; [exact Ht|]. split.
  - intros E. rewrite E in Hw. discriminate.
  - split.
    + rewrite Hws. unfold s1. cbn [words]. rewrite length_app. now rewrite Hw.
    + exists line, padded. repeat split; try assumption.
      revert Hp. unfold black_pad, display_width.
      destruct (Z.ltb_spec (1900 - Z.of_nat (shape1 line)) 0); [discriminate|].
      lia.
Qed.

Lemma new_words_spaced (s : state) (index : Z) (t : string) (word : string) :
  In word (new_words s index t) -> spaced word.
Proof.
  unfold new_words. rewrite in_map_iff. intros (u & <- & _). now exists u.
Qed.

Lemma list_ascii_append (a b : string) :
  String.list_ascii_of_string (a ++ b)
  = (String.list_ascii_of_string a ++ String.list_ascii_of_string b)%list.
Proof.
  induction a as [|x a IH]; [reflexivity|].
  rewrite append_cons. cbn [String.list_ascii_of_string]. now rewrite IH.
Qed.

Lemma spaced_first (word : string) : spaced word -> str_at word 0 = Return " ".
Proof.
  intros [u ->]. unfold str_at, py_index.
  rewrite list_ascii_length. change (" " ++ u ++ " ") with (String " " (u ++ " ")).
  cbn [String.length String.list_ascii_of_string Z.ltb Z.compare].
  cbn [Z.leb Z.compare Z.to_nat nth_error andb].
  destruct (Z.ltb_spec 0 (Z.of_nat (S (String.length (u ++ " "))))); [|lia].
  reflexivity.
Qed.

Lemma spaced_last (word : string) : spaced word -> str_at word (-1) = Return " ".
Proof.
  intros [u ->]. unfold str_at, py_index.
  rewrite <- append_assoc, list_ascii_append.
  rewrite length_app. cbn [String.list_ascii_of_string List.length].
  set (n := List.length (String.list_ascii_of_string (" " ++ u))).
  change (-1 <? 0) with true. cbv iota.
  destruct (Z.leb_spec 0 (-1 + Z.of_nat (n + 1))); [|lia].
  destruct (Z.ltb_spec (-1 + Z.of_nat (n + 1)) (Z.of_nat (n + 1))); [|lia].
  cbn [andb].
  replace (Z.to_nat (-1 + Z.of_nat (n + 1))) with (n + 0)%nat by lia.
  rewrite nth_error_app2 by (unfold n; lia).
  fold n. replace (n + 0 - n)%nat with O by lia. reflexivity.
Qed.

Lemma stitch_words_step st portion prev w image next g :
  str_at prev (-1) = Return " " -> str_at w 0 = Return " " ->
  stitch_words st portion prev ((w, image) :: next) g
  = match generate_optimized_from_string g (" " ++ " " ++ " ") st with
    | ([], g1) => (Throw IndexError, g1)
    | (space_image :: _, g1) =>
        stitch_words st (stitch (stitch portion space_image) image) w next g1
    end.
Proof.
  intros Hprev Hw. cbn [stitch_words]. rewrite Hprev, Hw.
  destruct (generate_optimized_from_string g (" " ++ " " ++ " ") st)
    as [[|space_image spaces] g1]; reflexivity.
Qed.

Lemma stitch_words_spaced st :
  forall ws images portion prev g,
    (forall w, In w (prev :: ws) -> spaced w) ->
    stitch_words st portion prev (combine ws images) g
    = stitch_words st portion " "
        (combine (map (fun _ => " ") ws) images) g.
Proof.
  induction ws as [|w ws IH]; intros images portion prev g Hsp;
    [reflexivity|].
  destruct images as [|image images]; [reflexivity|].
  cbn [map combine].
  rewrite (stitch_words_step st portion prev w)
    by (first [apply spaced_last; apply Hsp; now left
              | apply spaced_first; apply Hsp; right; now left]).
  rewrite (stitch_words_step st portion " " " ") by reflexivity.
  destruct (generate_optimized_from_string g (" " ++ " " ++ " ") st)
    as [[|space_image spaces] g1]; [reflexivity|].
  apply IH. intros w' Hw'. apply Hsp. now right.
Qed.

(** X21 (lines 96, 107-112): every new word is wrapped in two spaces,
    so the image put between two words is always generated from the string
    of three spaces: stitching the new words gives what it would give if
    every word were a single space; the words themselves do not condition
    the spaces between them. *)
Theorem spaces_between_words_ignore_the_words (s : state) (index : Z)
    (t : string) (st : Style) (portion : ndarray) (images : list ndarray)
    (g : Gen) :
  let ws := new_words s index t in
  (forall word, In word ws ->
     str_at word 0 = Return " " /\ str_at word (-1) = Return " ") /\
  stitch_words st portion (hd "" ws) (combine (tl ws) images) g
  = stitch_words st portion " "
      (combine (map (fun _ => " ") (tl ws)) images) g.
Proof.
  intros ws. split.
  - intros word Hin. apply new_words_spaced in Hin.
    split; [now apply spaced_first | now apply spaced_last].
  - pose proof (new_words_spaced s index t) as Hsp. fold ws in Hsp.
    destruct ws as [|w ws']; [reflexivity|]. cbn [hd tl].
    apply stitch_words_spaced. exact Hsp.
Qed.

Lemma spaced_not_empty (word : string) : spaced word -> word <> "".
Proof. intros [u ->]. discriminate. Qed.

Lemma word_images_return st :
  (forall g word, word <> "" ->
     fst (generate_optimized_from_string g word st) <> []) ->
  forall ws g,
    (forall w, In w ws -> spaced w) ->
    exists images g',
      word_images st ws g = (Return images, g') /\
      List.length images = List.length ws.
Proof.
  intros Hgen. induction ws as [|word ws IH]; intros g Hsp; cbn [word_images].
  - now exists [], g.
  - unfold word_image.
    specialize (Hgen g word (spaced_not_empty _ (Hsp word (or_introl eq_refl)))).
    destruct (generate_optimized_from_string g word st)
      as [[|first others] g1]; [now contradiction Hgen|].
    destruct (IH g1 (fun w Hw => Hsp w (or_intror Hw)))
      as (images & g2 & -> & Hlen).
    eexists _, g2. split; [reflexivity|]. cbn [List.length]. now rewrite Hlen.
Qed.

Lemma stitch_words_return st :
  (forall g word, word <> "" ->
     fst (generate_optimized_from_string g word st) <> []) ->
  forall ws images portion prev g,
    (forall w, In w (prev :: ws) -> spaced w) ->
    exists portion' g',
      stitch_words st portion prev (combine ws images) g
      = (Return portion', g').
Proof.
  intros Hgen. induction ws as [|w ws IH]; intros images portion prev g Hsp;
    [now exists portion, g|].
  destruct images as [|image images]; [now exists portion, g|].
  cbn [combine].
  rewrite (stitch_words_step st portion prev w)
    by (first [apply spaced_last; apply Hsp; now left
              | apply spaced_first; apply Hsp; right; now left]).
  specialize (Hgen g (" " ++ " " ++ " ") ltac:(discriminate)).
  destruct (generate_optimized_from_string g (" " ++ " " ++ " ") st)
    as [[|space_image spaces] g1]; [now contradiction Hgen|].
  apply IH. intros w' Hw'. apply Hsp. now right.
Qed.

(** X22 (lines 91-134): on a new line, when the generator returns an
    image or more for every string that is not empty, a request at the end
    of the text that brings a new word or more never raises [IndexError]:
    the words are generated and stitched, the new portion becomes the
    current line, the stored word images grow by one per new word, and the
    answer is that of the response step on the new line ([ValueError] when
    it is wider than the display, its encoding otherwise). *)
Theorem insert_on_a_new_line (req : request) (s : state) (g : Gen) :
  current_line s = None ->
  param_index req = Z.of_nat (String.length (text s)) ->
  (forall g word, word <> "" ->
     fst (generate_optimized_from_string g word (param_style req)) <> []) ->
  new_words s (param_index req) (clean (param_text req)) <> [] ->
  exists portion s' g',
    insert req s g = (respond s', s', g') /\
    current_line s' = Some portion /\
    text s' = clean (param_text req) /\
    List.length (words s')
    = (List.length (words s)
       + List.length
           (new_words s (param_index req) (clean (param_text req))))%nat /\
    respond s' <> Throw IndexError /\ respond s' <> Throw AttributeError.
Proof.
  intros Hline Hidx Hgen Hnew. unfold insert.
  rewrite Hidx, Z.eqb_refl. rewrite <- Hidx.
  unfold insert_at_end. cbn [words current_line text].
  pose proof (new_words_spaced s (param_index req) (clean (param_text req)))
    as Hsp.
  set (ws := new_words s _ _) in *.
  destruct (word_images_return _ Hgen ws g Hsp) as (images & g1 & -> & Hlen).
  destruct ws as [|w ws']; [now contradiction Hnew|].
  destruct images as [|first images]; [discriminate|].
  cbn [hd tl].
  destruct (stitch_words_return _ Hgen ws' images first w g1 Hsp)
    as (portion & g2 & ->).
  unfold attach. cbn [current_line words text]. rewrite Hline.
  eexists portion, _, g2. split; [reflexivity|].
  cbn [current_line words text]. split; [reflexivity|].
  split; [reflexivity|]. split.
  - rewrite length_app. now rewrite Hlen.
  - unfold respond. cbn [current_line]. unfold black_pad.
    destruct (_ <? 0); split; discriminate.
Qed.

End ServerFacts.

(** ** The properties on a concrete server *)

Lemma black_pad_pads_to_display_width_witness :
  well_formed (Array 1 2 [[1%Q; 2%Q]]) /\
  exists padded,
    black_pad (Array 1 2 [[1%Q; 2%Q]]) = Return padded /\
    shape1 padded = 1900%nat /\
    rows padded = [(1%Q :: 2%Q :: repeat 0%Q 1898)%list].
Proof.
  assert (Hwf : well_formed (Array 1 2 [[1%Q; 2%Q]])).
  { split; [reflexivity|]. intros r [<-|[]]. reflexivity. }
  split; [exact Hwf|].
  destruct (black_pad_pads_to_display_width _ Hwf) as (_ & Hex & Hpad).
  destruct (Hex ltac:(cbn; lia)) as [padded Hp].
  exists padded. split; [exact Hp|].
  destruct (Hpad padded Hp) as (_ & _ & Hw & Hr).
  split; [exact Hw | exact Hr].
Defined.

Lemma black_pad_idempotent_witness :
  exists padded,
    black_pad (Array 1 2 [[1%Q; 2%Q]]) = Return padded /\
    black_pad padded = Return padded.
Proof.
  eexists. split; [reflexivity|].
  apply (black_pad_idempotent (Array 1 2 [[1%Q; 2%Q]])); [|reflexivity].
  split; [reflexivity|]. intros r [<-|[]]. reflexivity.
Defined.

(** A request in the middle of the text on a new server. *)
Lemma insert_in_the_middle_witness :
  insert (V:=toy_vars) (H:=toy_helpers) (@Request toy_helpers "ab" 5 0) initial_state O
  = (Throw AttributeError, initial_state, O).
Proof.
  destruct (insert_in_the_middle (V:=toy_vars) (H:=toy_helpers)
              (@Request toy_helpers "ab" 5 0) initial_state O ltac:(discriminate))
    as (Hs & Hg & Hnone & _).
  specialize (Hnone eq_refl).
  destruct (insert (V:=toy_vars) (H:=toy_helpers) (@Request toy_helpers "ab" 5 0)
              initial_state O) as [[r s'] g'].
  cbn [fst snd] in *. now subst.
Defined.

(** The text ["a"] on a line, continued by ["b"]. *)
Lemma insert_single_character_fails_witness :
  fst (fst (insert (V:=toy_vars) (H:=toy_helpers) (@Request toy_helpers "ab" 1 0)
              toy_server O))
  = Throw IndexError /\
  text (snd (fst (insert (V:=toy_vars) (H:=toy_helpers) (@Request toy_helpers "ab" 1 0)
                    toy_server O)))
  = "ab".
Proof.
  destruct (insert_single_character_fails (V:=toy_vars) (H:=toy_helpers)
              (@Request toy_helpers "ab" 1 0) toy_server O (Array 1 1 [[0%Q]])
              eq_refl eq_refl ltac:(vm_compute; lia)) as (Hout & Htext & _).
  split; [exact Hout|]. rewrite Htext. vm_compute. reflexivity.
Defined.

(** The first request of a server: the text ["ab cb"] at index 0, of which
    ["c"] is not a character of the mapping. *)
Lemma insert_at_end_answered_witness :
  match insert (V:=toy_vars) (H:=toy_helpers) (@Request toy_helpers "ab cb" 0 0)
          initial_state O with
  | (Return response, s', _) =>
      text s' = "ab b" /\ List.length (words s') = 2%nat /\
      exists line, current_line s' = Some line /\ (shape1 line <= 1900)%nat
  | (Throw _, _, _) => False
  end.
Proof.
  destruct (insert (V:=toy_vars) (H:=toy_helpers) (@Request toy_helpers "ab cb" 0 0)
              initial_state O) as [[[response|e] s'] g'] eqn:E.
  - destruct (insert_at_end_answered (V:=toy_vars) (H:=toy_helpers)
                (@Request toy_helpers "ab cb" 0 0) initial_state s' O g' response eq_refl E)
      as (Htext & _ & Hwords & line & padded & Hline & Hwidth & _).
    split; [rewrite Htext; vm_compute; reflexivity|].
    split; [rewrite Hwords; vm_compute; reflexivity|].
    exists line. split; [exact Hline | exact Hwidth].
  - vm_compute in E. discriminate.
Defined.

Lemma insert_on_a_new_line_witness :
  exists portion s' g',
    insert (V:=toy_vars) (H:=toy_helpers) (@Request toy_helpers "ab cb" 0 0) initial_state O
    = (respond (H:=toy_helpers) s', s', g') /\
    current_line s' = Some portion /\
    respond (H:=toy_helpers) s' <> Throw IndexError.
Proof.
  destruct (insert_on_a_new_line (V:=toy_vars) (H:=toy_helpers)
              (@Request toy_helpers "ab cb" 0 0) initial_state O eq_refl eq_refl)
    as (portion & s' & g' & Hins & Hline & _ & _ & Hne & _).
  - intros g [|c word] Hword; [contradiction | discriminate].
  - vm_compute. discriminate.
  - exists portion, s', g'. split; [exact Hins|].
    split; [exact Hline | exact Hne].
Defined.

End BackendFacts.
